(** * IPTV-Streamer: playback session and Picture-in-Picture lifecycle

    A shallow embedding of the parts of the player that the specification
    makes claims about, and of what they rest on:

    - [src/utils/pipStateManager.js]: the persisted PiP record
      ([savePipState], [isValidPipState], [loadPipState], [clearPipState],
      [hasPendingPip]);
    - [src/contexts/PictureInPictureContext.jsx]: [enterPiP] with the
      listeners it installs, [exitPiP], [activatePendingPiP] and the mount
      effect that restores a session;
    - the player page: [isDirectStreamUrl], [extractChannelId],
      [resolveAndLoadStream], [retryStream], [handleInvalidStream], the HLS
      error handler of [setupHlsPlayer], the live/VOD detection handlers,
      the watch-history update of [loadChannelDetails], the favourite
      button, the list of similar streams and the quality menu;
    - [idbStorage], the store behind [get] and [set], with its cache and its
      compression; the favourites helpers; [getChannelDetails] of the
      directory client; the watch-history page.

    JavaScript values are modelled by one inductive type, numbers by the
    rationals, with the rounding of binary64 where the code subtracts or
    adds; React state is a record threaded explicitly through the handlers,
    and what a callback captured of an earlier render is an argument of the
    callback; session storage and the database are finite maps. *)

From Stdlib Require Import QArith ZArith List Bool Ascii String Lia Lqa.
From Stdlib Require Import Qround Qabs Qpower.
From stdpp Require Import gmap strings list pretty.
Import ListNotations.

Set Warnings "-register-all".
Local Open Scope string_scope.

(* ===================================================================== *)
(** * JavaScript values *)
(* ===================================================================== *)

Module JS.

(** A JavaScript value.  Numbers are exact rationals (every finite double is
    one), and arithmetic on them rounds as IEEE 754 does (see [subtract]
    below); [NaN] and the infinities occur as results of arithmetic and as
    media durations, and have their own types.  A string is a sequence of code units.  An object
    is its list of own enumerable properties; a key is looked up at its first
    binding.  [VFun] is any function, [VBigInt] any BigInt (the one primitive
    [JSON.stringify] refuses). *)
Inductive Value : Type :=
| VUndefined
| VNull
| VBool (b : bool)
| VNum (q : Q)
| VBigInt (z : Z)
| VStr (s : string)
| VFun
| VArr (items : list Value)
| VObj (props : list (string * Value)).

(** [typeof v] *)
Definition typeof (v : Value) : string :=
  match v with
  | VUndefined => "undefined"
  | VNull => "object"
  | VBool _ => "boolean"
  | VNum _ => "number"
  | VBigInt _ => "bigint"
  | VStr _ => "string"
  | VFun => "function"
  | VArr _ => "object"
  | VObj _ => "object"
  end.

(** [v instanceof Array] *)
Definition instanceof_Array (v : Value) : bool :=
  match v with VArr _ => true | _ => false end.

(** [v !== null] *)
Definition is_not_null (v : Value) : bool :=
  match v with VNull => false | _ => true end.

(** ToBoolean: what [if (v)], [!v], [a || b] and [a && b] test. *)
Definition truthy (v : Value) : bool :=
  match v with
  | VUndefined | VNull => false
  | VBool b => b
  | VNum q => negb (Qeq_bool q 0)
  | VBigInt z => negb (Z.eqb z 0)
  | VStr s => negb (String.eqb s "")
  | VFun | VArr _ | VObj _ => true
  end.

(** [a || b] and [a && b] return one of their operands. *)
Definition or_js (a b : Value) : Value := if truthy a then a else b.
Definition and_js (a b : Value) : Value := if truthy a then b else a.

(** First binding of [k] in a property list. *)
Fixpoint lookup_prop (k : string) (props : list (string * Value)) : Value :=
  match props with
  | [] => VUndefined
  | (k', v) :: rest => if String.eqb k k' then v else lookup_prop k rest
  end.

(** [v.k] for the property names the program reads.  Reading a property of a
    primitive yields [undefined], except [length] of a string or an array.
    (Reading a property of [null] or [undefined] throws; the program guards
    every such read, and the guards are modelled where they occur.) *)
Definition get (v : Value) (k : string) : Value :=
  match v with
  | VObj props => lookup_prop k props
  | VStr s => if String.eqb k "length" then VNum (inject_Z (Z.of_nat (String.length s))) else VUndefined
  | VArr items => if String.eqb k "length" then VNum (inject_Z (Z.of_nat (List.length items))) else VUndefined
  | _ => VUndefined
  end.

(** [{ ...props, k: v }]: bind [k], replacing an earlier binding. *)
Fixpoint set_prop (k : string) (v : Value) (props : list (string * Value))
  : list (string * Value) :=
  match props with
  | [] => [(k, v)]
  | (k', v') :: rest =>
      if String.eqb k k' then (k, v) :: rest else (k', v') :: set_prop k v rest
  end.

(** Characters of a string, each as a one-unit string. *)
Fixpoint chars (s : string) : list Value :=
  match s with
  | EmptyString => []
  | String c rest => VStr (String c EmptyString) :: chars rest
  end.

(** Own enumerable properties copied by an object spread [{ ...v }]: the
    properties of an object, the indexed elements of an array or a string,
    nothing for the other primitives. *)
Definition spread (v : Value) : list (string * Value) :=
  match v with
  | VObj props => props
  | VArr items => imap (fun i x => (pretty i, x)) items
  | VStr s => imap (fun i x => (pretty i, x)) (chars s)
  | _ => []
  end.


(** ** JSON.stringify, by the value the produced text denotes *)

(** Outcome of serialising one value. *)
Inductive JsonOut : Type :=
| JThrow                (* TypeError: BigInt *)
| JOmit                 (* undefined or a function *)
| JVal (v : Value).

Fixpoint json_of (v : Value) : JsonOut :=
  match v with
  | VUndefined | VFun => JOmit
  | VBigInt _ => JThrow
  | VNull | VBool _ | VNum _ | VStr _ => JVal v
  | VArr items =>
      let fix elems (l : list Value) : option (list Value) :=
        match l with
        | [] => Some []
        | x :: rest =>
            match json_of x, elems rest with
            | JThrow, _ | _, None => None
            | JOmit, Some r => Some (VNull :: r)
            | JVal y, Some r => Some (y :: r)
            end
        end in
      match elems items with
      | Some r => JVal (VArr r)
      | None => JThrow
      end
  | VObj props =>
      let fix fields (l : list (string * Value)) : option (list (string * Value)) :=
        match l with
        | [] => Some []
        | (k, x) :: rest =>
            match json_of x, fields rest with
            | JThrow, _ | _, None => None
            | JOmit, Some r => Some r
            | JVal y, Some r => Some ((k, y) :: r)
            end
        end in
      match fields props with
      | Some r => JVal (VObj r)
      | None => JThrow
      end
  end.

(** The two inner loops of [json_of], by name. *)
Definition json_elems : list Value -> option (list Value) :=
  fix elems (l : list Value) : option (list Value) :=
    match l with
    | [] => Some []
    | x :: rest =>
        match json_of x, elems rest with
        | JThrow, _ | _, None => None
        | JOmit, Some r => Some (VNull :: r)
        | JVal y, Some r => Some (y :: r)
        end
    end.

Definition json_fields : list (string * Value) -> option (list (string * Value)) :=
  fix fields (l : list (string * Value)) : option (list (string * Value)) :=
    match l with
    | [] => Some []
    | (k, x) :: rest =>
        match json_of x, fields rest with
        | JThrow, _ | _, None => None
        | JOmit, Some r => Some r
        | JVal y, Some r => Some ((k, y) :: r)
        end
    end.

(** ** Arithmetic on numbers

    A number is an IEEE 754 binary64 value.  The result of an operation on
    two finite numbers is the exact result rounded to the nearest double,
    ties to the even significand (53 bits, exponents from -1074 up), or an
    infinity when that lies beyond the largest double. *)

Local Open Scope Q_scope.

(** The exponent [k] with [2^k <= x < 2^(k+1)], for [0 < x]. *)
Definition ilog2 (x : Q) : Z :=
  let k := (Z.log2 (Qnum x) - Z.log2 (Zpos (Qden x)))%Z in
  if Qle_bool (2 ^ k) x then k else (k - 1)%Z.

(** The integer nearest to [y], the even one of two at the same distance. *)
Definition rne (y : Q) : Z :=
  let f := Qfloor y in
  match Qcompare (y - inject_Z f) (1 # 2) with
  | Lt => f
  | Gt => (f + 1)%Z
  | Eq => if Z.even f then f else (f + 1)%Z
  end.

(** The double nearest to [x], for [0 < x], as if there were no largest
    one: a significand of at most 53 bits times [2^e], [e >= -1074]. *)
Definition round_positive (x : Q) : Q :=
  let e := Z.max (ilog2 x - 52) (-1074) in
  inject_Z (rne (x / 2 ^ e)) * 2 ^ e.

Definition round_binary64 (x : Q) : Q :=
  match Qnum x with
  | Z0 => 0
  | Zpos _ => round_positive x
  | Zneg _ => - round_positive (- x)
  end.

(** What an operation on two finite numbers returns. *)
Inductive Float : Type :=
| Fin (q : Q)
| Inf (negative : bool).

Definition to_float (x : Q) : Float :=
  let r := round_binary64 x in
  if Qle_bool (2 ^ 1024) (Qabs r) then Inf (Qle_bool r 0) else Fin r.

(** [a - b] and [a + b] *)
Definition subtract (a b : Q) : Float := to_float (a - b).
Definition add (a b : Q) : Float := to_float (a + b).

(** [x > c] for a finite [c] *)
Definition greater_than (x : Float) (c : Q) : bool :=
  match x with
  | Fin q => match Qcompare q c with Gt => true | _ => false end
  | Inf negative => negb negative
  end.

End JS.

(* ===================================================================== *)
(** * The persisted PiP record ([src/utils/pipStateManager.js]) *)
(* ===================================================================== *)

Module PipState.
Import JS.

(** ** [sessionStorage] *)

(** What a storage slot holds.  [Json v] is a JSON text, known by the value
    [v] that [JSON.parse] returns for it; [Raw s] is the text [s] when
    [JSON.parse] rejects it (the empty string among them). *)
Inductive StoredText : Type :=
| Json (v : Value)
| Raw (s : string).

(** [!stateJson] is false for every text but the empty string. *)
Definition text_truthy (t : StoredText) : bool :=
  match t with
  | Json _ => true
  | Raw s => negb (String.eqb s "")
  end.

(** [JSON.parse]; [None] is a thrown [SyntaxError]. *)
Definition JSON_parse (t : StoredText) : option Value :=
  match t with
  | Json v => Some v
  | Raw _ => None
  end.

(** [JSON.stringify]; [None] is a thrown [TypeError].  For [undefined] and
    functions it returns [undefined], which [setItem] stores as the text
    "undefined". *)
Definition JSON_stringify (v : Value) : option StoredText :=
  match json_of v with
  | JThrow => None
  | JOmit => Some (Raw "undefined")
  | JVal j => Some (Json j)
  end.

(** The session store: its slots, and whether the next write exceeds the
    quota ([setItem] then throws [QuotaExceededError] and changes nothing).
    Reading and removing a slot do not fail. *)
Record SessionStorage : Type := mkStorage {
  items : gmap string StoredText;
  quota_exceeded : bool
}.

Definition getItem (k : string) (s : SessionStorage) : option StoredText :=
  items s !! k.

Definition setItem (k : string) (t : StoredText) (s : SessionStorage)
  : option SessionStorage :=
  if quota_exceeded s then None
  else Some (mkStorage (<[k := t]> (items s)) (quota_exceeded s)).

Definition removeItem (k : string) (s : SessionStorage) : SessionStorage :=
  mkStorage (delete k (items s)) (quota_exceeded s).

(** ** Constants *)

Definition PIP_STATE_KEY : string := "iptv_pip_state".
Definition PIP_EXPIRY_TIME : Q := (30 * 60 * 1000)%Q.

(** [a > b] on numbers. *)
Definition Qgtb (a b : Q) : bool :=
  match Qcompare a b with Gt => true | _ => false end.

(** ** [clearPipState] *)
Definition clearPipState (s : SessionStorage) : bool * SessionStorage :=
  (true, removeItem PIP_STATE_KEY s).

(** ** [savePipState] *)

(** The test of the [forEach] in [savePipState]: an option is deleted when it
    is a function, or an object that is neither [null] nor an array. *)
Definition deleted_option (v : Value) : bool :=
  String.eqb (typeof v) "function"
  || (String.eqb (typeof v) "object" && is_not_null v && negb (instanceof_Array v)).

Definition cleanedChannel (channel : Value) : Value :=
  VObj [ ("id", or_js (get channel "id") VNull);
         ("name", or_js (get channel "name") (VStr "Unknown Channel"));
         ("logo", or_js (get channel "logo") VNull);
         ("group", or_js (get channel "group") VNull);
         ("channelId", or_js (or_js (get channel "channelId") (get channel "id")) VNull) ].

Definition sanitizedOptions (options : Value) : list (string * Value) :=
  List.filter (fun kv => negb (deleted_option (snd kv))) (spread options).

(** [savePipState(channel, streamUrl, options = {})] at time [now]; the
    result is the returned boolean and the store afterwards.  Both
    [JSON.stringify] and [setItem] can throw into the [catch], which removes
    the slot. *)
Definition savePipState (now : Q) (channel streamUrl options : Value)
    (s : SessionStorage) : bool * SessionStorage :=
  let options := match options with VUndefined => VObj [] | _ => options end in
  if negb (truthy channel) || negb (truthy streamUrl) then (false, s)
  else
    let state :=
      VObj [ ("channel", cleanedChannel channel);
             ("streamUrl", streamUrl);
             ("options", VObj (sanitizedOptions options));
             ("timestamp", VNum now);
             ("version", VStr "1.0") ] in
    match JSON_stringify state with
    | None => (false, removeItem PIP_STATE_KEY s)
    | Some stateJson =>
        match setItem PIP_STATE_KEY stateJson s with
        | None => (false, removeItem PIP_STATE_KEY s)
        | Some s' => (true, s')
        end
    end.

(** ** [isValidPipState] *)

(** The value the function returns; the caller tests it with [!]. *)
Definition isValidPipState (state : Value) : Value :=
  if negb (truthy state) then VBool false
  else
    let hasChannel :=
      and_js (get state "channel")
             (VBool (String.eqb (typeof (get state "channel")) "object")) in
    let hasName :=
      and_js hasChannel
             (VBool (String.eqb (typeof (get (get state "channel") "name")) "string")) in
    let hasStreamUrl :=
      VBool (String.eqb (typeof (get state "streamUrl")) "string"
             && match get (get state "streamUrl") "length" with
                | VNum n => Qgtb n 5
                | _ => false
                end) in
    let hasTimestamp :=
      VBool (String.eqb (typeof (get state "timestamp")) "number") in
    and_js (and_js (and_js hasChannel hasName) hasStreamUrl) hasTimestamp.

(** ** [loadPipState] *)

(** [loadPipState()] at time [now]: the returned state ([None] is [null])
    and the store afterwards.  The age [Date.now() - state.timestamp] is a
    difference of doubles. *)
Definition loadPipState (now : Q) (s : SessionStorage)
  : option Value * SessionStorage :=
  match getItem PIP_STATE_KEY s with
  | None => (None, s)
  | Some stateJson =>
      if negb (text_truthy stateJson) then (None, s)
      else
        match JSON_parse stateJson with
        | None => (None, removeItem PIP_STATE_KEY s)
        | Some state =>
            if negb (truthy (isValidPipState state)) then
              (None, snd (clearPipState s))
            else
              match get state "timestamp" with
              | VNum timestamp =>
                  if greater_than (subtract now timestamp) PIP_EXPIRY_TIME then
                    (None, snd (clearPipState s))
                  else (Some state, s)
              | _ => (Some state, s)   (* NaN > 1800000 is false *)
              end
        end
  end.

End PipState.

(* ===================================================================== *)
(** * The streaming engine (hls.js), as the player sees it *)
(* ===================================================================== *)

Module Hls.

(** [Hls.ErrorTypes] and [Hls.ErrorDetails]: the library's string
    constants that the player compares against. *)
Module ErrorTypes.
Definition NETWORK_ERROR : string := "networkError".
Definition MEDIA_ERROR : string := "mediaError".
Definition OTHER_ERROR : string := "otherError".
End ErrorTypes.

Module ErrorDetails.
Definition MANIFEST_LOAD_ERROR : string := "manifestLoadError".
Definition BUFFER_STALLED_ERROR : string := "bufferStalledError".
Definition INTERNAL_EXCEPTION : string := "internalException".
End ErrorDetails.

(** [data.response]: the loader's HTTP status and status text. *)
Record Response : Type := mkResponse {
  code : Z;
  text : string
}.

(** [data.networkDetails]: the underlying request object. *)
Record NetworkDetails : Type := mkNetworkDetails {
  status : Z;
  statusText : string
}.

(** The [data] argument of an [Hls.Events.ERROR] listener.  [error] is the
    message of [data.error] when the event carries an error object. *)
Record ErrorData : Type := mkErrorData {
  type : string;
  details : string;
  fatal : bool;
  response : option Response;
  networkDetails : option NetworkDetails;
  error : option string
}.

(** What the player asks of the engine while handling an error. *)
Inductive Action : Type :=
| startLoad
| recoverMediaError
| restartAfter (ms : N).   (* [setTimeout] of stopLoad/loadSource/startLoad *)

(** Whether the engine's recovery entry points throw when called. *)
Record Engine : Type := mkEngine {
  startLoad_throws : bool;
  recoverMediaError_throws : bool
}.

End Hls.

(* ===================================================================== *)
(** * The player page *)
(* ===================================================================== *)

Module Player.
Import JS.

(** ** String helpers of the host language *)

(** [hay.includes(needle)] *)
Fixpoint includes (needle hay : string) : bool :=
  String.prefix needle hay
  || match hay with
     | EmptyString => false
     | String _ rest => includes needle rest
     end.

(** [s.endsWith(suffix)] *)
Fixpoint endsWith (suffix s : string) : bool :=
  String.eqb s suffix
  || match s with
     | EmptyString => false
     | String _ rest => endsWith suffix rest
     end.

Definition lower_ascii (c : ascii) : ascii :=
  let n := nat_of_ascii c in
  if Nat.leb 65 n && Nat.leb n 90 then ascii_of_nat (n + 32) else c.

(** [s.toLowerCase()] on the code units a URL path is made of. *)
Fixpoint toLowerCase (s : string) : string :=
  match s with
  | EmptyString => EmptyString
  | String c rest => String (lower_ascii c) (toLowerCase rest)
  end.

(** [a === b]: primitives by value, objects by identity.  Two values held in
    different variables of this model are never the same object. *)
Definition strict_eq (a b : Value) : bool :=
  match a, b with
  | VUndefined, VUndefined => true
  | VNull, VNull => true
  | VBool x, VBool y => Bool.eqb x y
  | VNum x, VNum y => Qeq_bool x y
  | VBigInt x, VBigInt y => Z.eqb x y
  | VStr x, VStr y => String.eqb x y
  | _, _ => false
  end.

(** ** The platform and the Channel Directory Service *)

(** The parts of a parsed URL the player reads. *)
Record URL : Type := mkURL {
  pathname : string;
  hostname : string
}.

(** Browser primitives the player calls; [None] is a thrown exception
    ([new URL] on a malformed address, [decodeURIComponent] on a malformed
    escape). *)
Record Platform : Type := mkPlatform {
  new_URL : string -> option URL;
  decodeURIComponent : string -> option string;
  URIError_message : string       (* [err.message] of that exception *)
}.

(** How an awaited request to the network settles. *)
Inductive ApiResult : Type :=
| Rejects
| Resolves (v : Value).

(** [apiClient], as the resolver sees it: the two lookups it awaits
    ([getChannelDetails] and [findChannel] of [src/utils/apiClient]).  Each
    of them wraps its whole body in a [try] whose [catch] returns [null], so
    the awaited promise never rejects: a lookup that fails and a lookup
    that finds nothing both yield [null].  What a lookup yields depends on
    the network and on the store; it is given here as a function of the
    argument, and by [ApiClient.getChannelDetails] below for the first
    lookup. *)
Record Directory : Type := mkDirectory {
  getChannelDetails : Value -> Value;
  findChannel : Value -> Value
}.

(** One query sent to the directory. *)
Inductive ApiCall : Type :=
| CallGetChannelDetails (arg : Value)
| CallFindChannel (arg : Value).

(** ** [urlCache], [isDirectStreamUrl], [extractChannelId] *)

(** The module-level [urlCache] is one [Map] shared by both functions:
    [isDirectStreamUrl] stores booleans under the URL itself,
    [extractChannelId] stores the id under ["channelId:" + id]. *)
Definition isDirectStreamUrl (P : Platform) (url : string)
    (urlCache : gmap string Value) : Value * gmap string Value :=
  if String.eqb url "" then (VBool false, urlCache)
  else
    match urlCache !! url with
    | Some cached => (cached, urlCache)
    | None =>
        match new_URL P url with
        | Some urlObj =>
            let path := toLowerCase (pathname urlObj) in
            let result := endsWith ".m3u8" path || endsWith ".m3u" path
                          || endsWith ".ts" path in
            (VBool result, <[url := VBool result]> urlCache)
        | None => (VBool false, <[url := VBool false]> urlCache)
        end
    end.

Definition channelId_key (id : string) : string := "channelId:" ++ id.

Definition extractChannelId (P : Platform) (id : string)
    (urlCache : gmap string Value) : Value * gmap string Value :=
  if String.eqb id "" then (VNull, urlCache)
  else
    let cacheKey := channelId_key id in
    match urlCache !! cacheKey with
    | Some cached => (cached, urlCache)
    | None =>
        match new_URL P id with
        | Some _ => (VStr id, <[cacheKey := VStr id]> urlCache)
        | None => (VStr id, <[cacheKey := VStr id]> urlCache)
        end
    end.

(** ** Session state of the [Player] component

    The [useState] cells the modelled handlers read or write. *)
Record Session : Type := mkSession {
  error : string;
  errorDetails : string;
  loading : bool;
  retryCount : nat;
  channel : Value;
  streamUrl : Value;
  streamLoaded : bool
}.

Definition initial_session : Session :=
  mkSession "" "" true 0 VNull VNull false.

Definition setError (e : string) (s : Session) : Session :=
  mkSession e (errorDetails s) (loading s) (retryCount s) (channel s)
            (streamUrl s) (streamLoaded s).
Definition setErrorDetails (d : string) (s : Session) : Session :=
  mkSession (error s) d (loading s) (retryCount s) (channel s)
            (streamUrl s) (streamLoaded s).
Definition setLoading (b : bool) (s : Session) : Session :=
  mkSession (error s) (errorDetails s) b (retryCount s) (channel s)
            (streamUrl s) (streamLoaded s).
Definition setRetryCount (f : nat -> nat) (s : Session) : Session :=
  mkSession (error s) (errorDetails s) (loading s) (f (retryCount s))
            (channel s) (streamUrl s) (streamLoaded s).
Definition setChannel (c : Value) (s : Session) : Session :=
  mkSession (error s) (errorDetails s) (loading s) (retryCount s) c
            (streamUrl s) (streamLoaded s).
Definition setStreamUrl (u : Value) (s : Session) : Session :=
  mkSession (error s) (errorDetails s) (loading s) (retryCount s) (channel s)
            u (streamLoaded s).

(** ** [resolveAndLoadStream] *)

(** What one run of [resolveAndLoadStream] leaves behind: the session, the
    cache, the directory queries in the order they were sent, and the
    arguments of the call to [loadChannelDetails] when the run reached it
    ([finalStreamUrl] and [channelData]). *)
Record Resolution : Type := mkResolution {
  session : Session;
  cache : gmap string Value;
  calls : list ApiCall;
  handed_over : option (Value * Value)
}.

(** [channelData?.url] *)
Definition optional_url (channelData : Value) : Value :=
  match channelData with
  | VNull | VUndefined => VUndefined
  | _ => get channelData "url"
  end.

(** The tail of the function, from [if (isMounted)] on. *)
Definition hand_over (isMounted : bool) (finalStreamUrl channelData : Value)
    (st : Session) (c : gmap string Value) (log : list ApiCall) : Resolution :=
  if isMounted then
    mkResolution (setStreamUrl finalStreamUrl st) c log
                 (Some (finalStreamUrl, channelData))
  else mkResolution st c log None.

(** The tail of the inner [try], once [channelData] is known. *)
Definition use_channelData (isMounted : bool) (channelData : Value)
    (st : Session) (c : gmap string Value) (log : list ApiCall) : Resolution :=
  if truthy (optional_url channelData) then
    let finalStreamUrl := get channelData "url" in
    let st' :=
      if truthy channelData && isMounted then
        setChannel
          (VObj [ ("id", finalStreamUrl);
                  ("name", or_js (get channelData "name") (VStr "Unknown Channel"));
                  ("logo", get channelData "logo");
                  ("group", or_js (get channelData "group") (get channelData "category"));
                  ("channelId", get channelData "id") ]) st
      else st in
    hand_over isMounted finalStreamUrl channelData st' c log
  else
    mkResolution
      (setLoading false (setError "Channel found but no stream URL available" st))
      c log None.

(** [resolveAndLoadStream] for the route parameter [id].  [isMounted] is the
    flag of the enclosing effect as the run reads it.  The inner [catch]
    ("Could not find stream URL for this channel") is entered only when an
    awaited lookup rejects, which neither lookup does. *)
Definition resolveAndLoadStream (P : Platform) (D : Directory)
    (isMounted : bool) (id : string) (urlCache : gmap string Value)
    (st : Session) : Resolution :=
  let st := setLoading true (setError "" st) in
  match decodeURIComponent P id with
  | None =>
      (* outer catch *)
      if isMounted then
        let message :=
          if String.eqb (URIError_message P) "" then "Unknown error"
          else URIError_message P in
        mkResolution
          (setLoading false (setError ("Error loading stream: " ++ message) st))
          urlCache [] None
      else mkResolution st urlCache [] None
  | Some decodedId =>
      let '(direct, c1) := isDirectStreamUrl P decodedId urlCache in
      if negb (truthy direct) then
        let '(channelId, c2) := extractChannelId P decodedId c1 in
        if truthy channelId then
          let channelData := getChannelDetails D channelId in
          if negb (truthy channelData) then
            use_channelData isMounted (findChannel D channelId) st c2
              [CallGetChannelDetails channelId; CallFindChannel channelId]
          else
            use_channelData isMounted channelData st c2
              [CallGetChannelDetails channelId]
        else hand_over isMounted (VStr decodedId) VNull st c2 []
      else hand_over isMounted (VStr decodedId) VNull st c1 []
  end.

(** ** [retryStream] *)

Definition MAX_RETRIES : nat := 3.

(** [retryStream].  The callback is created anew in every render in which
    [retryCount] has changed, so its guard reads [captured], the counter of
    the render the callback belongs to, while [setRetryCount(prev => prev +
    1)] updates the state as it is when the call is made. *)
Definition retryStream (captured : nat) (s : Session) : Session :=
  if Nat.ltb captured MAX_RETRIES then
    setRetryCount (fun prev => prev + 1)
      (setLoading true (setErrorDetails "" (setError "" s)))
  else
    setError "Stream failed after multiple attempts. Please try again later." s.


(** ** [handleInvalidStream] *)

(** [handleInvalidStream(reason)] in a component opened with route
    parameter [id]. *)
Definition handleInvalidStream (P : Platform) (id : string) (reason : string)
    (s : Session) : Session :=
  let isDNSError :=
    includes "ERR_NAME_NOT_RESOLVED" reason || includes "status 0" reason
    || includes "unavailable" reason || includes "could not be reached" reason in
  let isGeoRestricted :=
    includes "403" reason || includes "451" reason || includes "geo" reason
    || includes "restricted" reason
    || includes "not available in your region" reason in
  let '(userMessage, detailedMessage) :=
    match
      match decodeURIComponent P id with
      | Some decoded => new_URL P decoded
      | None => None
      end
    with
    | Some u =>
        let hostname := hostname u in
        if isDNSError then
          ("Stream server not found",
           "The server " ++ hostname ++ " couldn't be reached. This channel may no longer be active or its address has changed.")
        else if isGeoRestricted then
          ("Stream may be geo-restricted",
           "The channel at " ++ hostname ++ " appears to be geo-restricted and may not be available in your region.")
        else
          ("Stream failed to load",
           "There was a problem loading the stream from " ++ hostname ++ ". " ++ reason)
    | None =>
        ("Stream failed to load: " ++ reason,
         "The stream could not be loaded. This could be due to the channel being offline, geo-restricted, or a network issue.")
    end in
  setLoading false (setErrorDetails detailedMessage (setError userMessage s)).

(** ** The [Hls.Events.ERROR] listener installed by [setupHlsPlayer] *)

(** What the listener closes over: the session of the render in which
    [setupHlsPlayer] was created ([loading], [streamLoaded] and [retryCount]
    are read from it), the local [autoplayAttempted], whether the video
    element exists and is not paused, and the stream URL. *)
Record Closure : Type := mkClosure {
  captured : Session;
  autoplayAttempted : bool;
  video_playing : bool;
  closure_streamUrl : string
}.

(** What one run of the listener did: the session afterwards, the requests
    made to the engine, and the reasons passed to [handleInvalidStream]. *)
Record Handled : Type := mkHandled {
  after : Session;
  engine_actions : list Hls.Action;
  invalid_reasons : list string
}.

Definition isCorsError (data : Hls.ErrorData) : bool :=
  match Hls.response data with Some r => Z.eqb (Hls.code r) 0 | None => false end
  || match Hls.response data with
     | Some r => negb (String.eqb (Hls.text r) "") && includes "CORS" (Hls.text r)
     | None => false
     end
  || match Hls.error data with Some m => includes "CORS" m | None => false end
  || (String.eqb (Hls.type data) "networkError"
      && String.eqb (Hls.details data) "manifestLoadError").

(** The condition under which the listener gives up on an unreachable
    server. *)
Definition unreachable_signal (data : Hls.ErrorData) : bool :=
  match Hls.networkDetails data with Some n => Z.eqb (Hls.status n) 0 | None => false end
  || match Hls.networkDetails data with
     | Some n => String.eqb (Hls.statusText n) ""
     | None => false
     end
  || match Hls.response data with
     | Some r => includes "ERR_NAME_NOT_RESOLVED" (Hls.text r)
     | None => false
     end.

Definition invalid (P : Platform) (id reason : string) (s : Session)
    (acts : list Hls.Action) : Handled :=
  mkHandled (handleInvalidStream P id reason s) acts [reason].

Definition onHlsError (P : Platform) (E : Hls.Engine) (id : string)
    (cl : Closure) (data : Hls.ErrorData) (s : Session) : Handled :=
  if streamLoaded (captured cl) && video_playing cl then mkHandled s [] []
  else if isCorsError data then
    (* corsProxyEnabled is the constant false *)
    mkHandled
      (setLoading false
         (setError "Stream access restricted (CORS policy)"
            (setErrorDetails
               ("This stream doesn't allow playback from this website due to CORS restrictions. "
                ++ "Try using a native player or browser extension to access this content.")
               s)))
      [] []
  else if String.eqb (Hls.type data) "otherError"
          && String.eqb (Hls.details data) "internalException"
          && match Hls.error data with
             | Some m => negb (String.eqb m "")
                         && (includes "autoplayAttempted" m || includes "undefined" m)
             | None => false
             end
  then mkHandled s [Hls.restartAfter 1000%N] []
  else if Hls.fatal data then
    if String.eqb (Hls.type data) Hls.ErrorTypes.NETWORK_ERROR then
      if loading (captured cl) && negb (autoplayAttempted cl) then
        mkHandled s [Hls.startLoad] []
      else
        let restart (s : Session) : Handled :=
          if Hls.startLoad_throws E then
            invalid P id "Failed to restart stream after network error" s [Hls.startLoad]
          else mkHandled s [Hls.startLoad] [] in
        if String.eqb (Hls.details data) Hls.ErrorDetails.MANIFEST_LOAD_ERROR then
          let errorDetails :=
            match Hls.response data with
            | Some r => "Server responded with " ++ pretty (Hls.code r)
                        ++ " (" ++ Hls.text r ++ ")"
            | None => "Name resolution failed or server unreachable"
            end in
          let s := setErrorDetails ("Network error: " ++ errorDetails) s in
          if Nat.ltb 0 (retryCount (captured cl)) && unreachable_signal data then
            match new_URL P (closure_streamUrl cl) with
            | Some u =>
                invalid P id
                  ("Stream unavailable: The server " ++ hostname u
                   ++ " couldn't be reached. This channel may no longer be active.")
                  s []
            | None => mkHandled s [] []     (* the TypeError leaves the listener *)
            end
          else restart s
        else restart s
    else if String.eqb (Hls.type data) Hls.ErrorTypes.MEDIA_ERROR then
      if Hls.recoverMediaError_throws E then
        invalid P id "Failed to recover from media error" s [Hls.recoverMediaError]
      else mkHandled s [Hls.recoverMediaError] []
    else
      invalid P id ("Fatal streaming error: " ++ Hls.details data) s []
  else mkHandled s [] [].

(** ** Callbacks of the array methods the page uses on stored lists *)

(** [item.channel.id]; [None] is the [TypeError] raised when [item] or
    [item.channel] is [null] or [undefined]. *)
Definition item_channel_id (item : Value) : option Value :=
  match item with
  | VNull | VUndefined => None
  | _ =>
      match get item "channel" with
      | VNull | VUndefined => None
      | c => Some (get c "id")
      end
  end.

(** [history.filter(item => item.channel.id !== streamUrl)] *)
Fixpoint filter_others (streamUrl : Value) (history : list Value)
  : option (list Value) :=
  match history with
  | [] => Some []
  | item :: rest =>
      match item_channel_id item, filter_others streamUrl rest with
      | Some i, Some r => Some (if strict_eq i streamUrl then r else item :: r)
      | _, _ => None
      end
  end.

(** [value || []], as the array the caller goes on to call [find], [some]
    or [filter] on; [None] when the value has no such methods. *)
Definition as_list (value : Value) : option (list Value) :=
  match or_js value (VArr []) with
  | VArr l => Some l
  | _ => None
  end.

(** [favorites.find(fav => fav.id === streamUrl)] and
    [favorites.some(fav => fav.id === streamUrl)] visit the same elements:
    whether one was found, or [None] for the [TypeError] raised by a [null]
    or [undefined] element met on the way. *)
Fixpoint search_favorites (streamUrl : Value) (favorites : list Value)
  : option bool :=
  match favorites with
  | [] => Some false
  | fav :: rest =>
      match fav with
      | VNull | VUndefined => None
      | _ => if strict_eq (get fav "id") streamUrl then Some true
             else search_favorites streamUrl rest
      end
  end.

(** What [[...v]] iterates over; [None] is the [TypeError] for a value that
    is not iterable. *)
Definition iterable (v : Value) : option (list Value) :=
  match v with
  | VArr l => Some l
  | VStr s => Some (chars s)
  | _ => None
  end.

(** [favorites.filter(fav => fav.id !== id)]; [None] is the [TypeError]
    raised by a [null] or [undefined] element. *)
Fixpoint without_id (id : Value) (favorites : list Value) : option (list Value) :=
  match favorites with
  | [] => Some []
  | fav :: rest =>
      match fav, without_id id rest with
      | (VNull | VUndefined), _ | _, None => None
      | _, Some r => Some (if strict_eq (get fav "id") id then r else fav :: r)
      end
  end.

End Player.

(* ===================================================================== *)
(** * Live / VOD detection of the player page *)
(* ===================================================================== *)

(** What the video element reports when a handler reads it. *)
Module Media.

(** A media duration: [NaN] before metadata is known, [Infinity] for an
    unbounded stream, otherwise a finite number of seconds. *)
Inductive Duration : Type :=
| NaN
| Infinity
| Finite (seconds : Q).


End Media.

Module Detection.

Definition Qltb (a b : Q) : bool :=
  match Qcompare a b with Lt => true | _ => false end.

(** The state the detection effect works on: the [useState] cells it sets,
    the counter it keeps on the video element ([_liveChecks]), and
    [seen_complete], the value of [liveDetectionComplete] its handlers closed
    over.  The effect's dependencies are [isDragging], [isLive] and
    [showTimeline] only, so the handlers are rebuilt, and see the current
    [liveDetectionComplete], only when one of these three changes.
    (The progress and buffer percentages are display state and left out.) *)
Record State : Type := mkState {
  isLive : bool;
  showTimeline : bool;
  liveDetectionComplete : bool;
  liveChecks : nat;
  isDragging : bool;
  seen_complete : bool;
  currentTime : Q;
  duration : Media.Duration
}.

Definition initial : State :=
  mkState false false false 0 false false 0 (Media.Finite 0).










End Detection.

(* ===================================================================== *)
(** * The PiP session manager ([src/contexts/PictureInPictureContext.jsx]) *)
(* ===================================================================== *)

Module Pip.
Import JS PipState.

(** A DOM element or an engine instance, by identity. *)
Definition Handle : Type := nat.

(** The document and the platform as [enterPiP] finds them. *)
Record Browser : Type := mkBrowser {
  isPipSupported : bool;                      (* result of [isPipSupported()] *)
  pictureInPictureElement : option Handle;    (* [document.pictureInPictureElement] *)
  Hls_isSupported : bool;
  canPlay_mpegurl : bool;                     (* [canPlayType('application/vnd.apple.mpegurl')] *)
  fresh : Handle                              (* identity of the next created object *)
}.

(** The provider's [useState] cells and refs. *)
Record Manager : Type := mkManager {
  pipVideo : option Handle;
  pipChannel : Value;
  pipError : option string;
  isSwitchingPip : bool;
  currentStreamUrl : Value;
  pipStatus : string;
  pipVideoRef : option Handle;
  pipHlsRef : option Handle
}.

Definition initial : Manager :=
  mkManager None VNull None false VNull "inactive" None None.

(** Calls into the browser and the engine, in the order they are made. *)
Inductive Effect : Type :=
| createElement_video (h : Handle)
| appendChild (h : Handle)
| removeChild (h : Handle)
| addEventListener (h : Handle) (event : string)
| removeEventListener (h : Handle) (event : string)
| requestPictureInPicture (h : Handle)
| exitPictureInPicture
| new_Hls (h : Handle)
| hls_on (h : Handle) (event : string)
| hls_loadSource (h : Handle) (url : Value)
| hls_attachMedia (h : Handle) (video : Handle)
| hls_destroy (h : Handle)
| set_src (h : Handle) (url : Value)
| set_currentTime (h : Handle) (t : Float)
| setTimeout (ms : N).

(** A browser Picture-in-Picture call, or a video element or engine being
    set up. *)
Definition is_pip_call_or_setup (e : Effect) : bool :=
  match e with
  | requestPictureInPicture _ | exitPictureInPicture
  | createElement_video _ | appendChild _ | addEventListener _ _
  | new_Hls _ | hls_on _ _ | hls_loadSource _ _ | hls_attachMedia _ _
  | set_src _ _ => true
  | _ => false
  end.

(** The manager, the session store and the calls made so far. *)
Record World : Type := mkWorld {
  manager : Manager;
  storage : SessionStorage;
  effects : list Effect
}.

Definition setPipError (e : option string) (m : Manager) : Manager :=
  mkManager (pipVideo m) (pipChannel m) e (isSwitchingPip m)
            (currentStreamUrl m) (pipStatus m) (pipVideoRef m) (pipHlsRef m).
Definition setPipChannel (c : Value) (m : Manager) : Manager :=
  mkManager (pipVideo m) c (pipError m) (isSwitchingPip m)
            (currentStreamUrl m) (pipStatus m) (pipVideoRef m) (pipHlsRef m).
Definition setPipStatus (s : string) (m : Manager) : Manager :=
  mkManager (pipVideo m) (pipChannel m) (pipError m) (isSwitchingPip m)
            (currentStreamUrl m) s (pipVideoRef m) (pipHlsRef m).
Definition setIsSwitchingPip (b : bool) (m : Manager) : Manager :=
  mkManager (pipVideo m) (pipChannel m) (pipError m) b
            (currentStreamUrl m) (pipStatus m) (pipVideoRef m) (pipHlsRef m).
Definition setCurrentStreamUrl (u : Value) (m : Manager) : Manager :=
  mkManager (pipVideo m) (pipChannel m) (pipError m) (isSwitchingPip m)
            u (pipStatus m) (pipVideoRef m) (pipHlsRef m).
Definition setPipVideo (v : option Handle) (m : Manager) : Manager :=
  mkManager v (pipChannel m) (pipError m) (isSwitchingPip m)
            (currentStreamUrl m) (pipStatus m) (pipVideoRef m) (pipHlsRef m).
Definition setRefs (video hls : option Handle) (m : Manager) : Manager :=
  mkManager (pipVideo m) (pipChannel m) (pipError m) (isSwitchingPip m)
            (currentStreamUrl m) (pipStatus m) video hls.

(** The teardown shared by [exitPipInternal] and [cleanupPipResources]:
    detach the listeners, leave PiP when this element holds it, destroy the
    engine, remove the element, reset the state, clear the record. *)
Definition teardown (B : Browser) (w : World) : World :=
  let m := manager w in
  let on_video :=
    match pipVideoRef m with
    | Some h =>
        ([removeEventListener h "leavepictureinpicture"; removeEventListener h "error"]
         ++ (if decide (pictureInPictureElement B = Some h)
             then [exitPictureInPicture] else []))%list
    | None => []
    end in
  let on_hls :=
    match pipHlsRef m with Some h => [hls_destroy h] | None => [] end in
  let on_dom :=
    match pipVideoRef m with Some h => [removeChild h] | None => [] end in
  let m :=
    setPipStatus "inactive"
      (setCurrentStreamUrl VNull
         (setPipError None (setPipChannel VNull (setPipVideo None (setRefs None None m))))) in
  mkWorld m (snd (clearPipState (storage w)))
          (effects w ++ on_video ++ on_hls ++ on_dom)%list.

Definition exitPipInternal := teardown.

(** [cleanupPipResources(force)]; [switching] is the [isSwitchingPip] the
    calling closure was created with. *)
Definition cleanupPipResources (B : Browser) (switching force : bool)
    (w : World) : World :=
  if switching && negb force then w else teardown B w.

(** What the [enterPiP] callback closes over.  [useCallback] keeps the
    callback until [handleLeavePiP] changes, that is until [isSwitchingPip]
    does; so the [pipVideo] it reads, and the [isSwitchingPip] its
    [cleanupPipResources] reads, are those of the render it was created in,
    not the current ones.  (The refs, the setters and the session store are
    the current ones.) *)
Record Render : Type := mkRender {
  render_pipVideo : option Handle;
  render_isSwitchingPip : bool
}.

(** The first render of the provider. *)
Definition first_render : Render := mkRender None false.

(** The render that shows the manager as it is. *)
Definition render_of (m : Manager) : Render :=
  mkRender (pipVideo m) (isSwitchingPip m).

(** [{ ...options, k: b }] *)
Definition with_flag (options : Value) (k : string) (b : bool) : Value :=
  VObj (set_prop k (VBool b) (spread options)).

(** [enterPiP(channel, streamUrl, options = {})] at time [now], called
    through the callback created in render [r], up to the point where the
    function returns or first waits for the engine. *)
Definition enterPiP (B : Browser) (r : Render) (now : Q)
    (channel streamUrl options : Value) (w : World) : World :=
  let options := match options with VUndefined => VObj [] | _ => options end in
  let m0 := manager w in
  if negb (isPipSupported B) then
    mkWorld (setPipError (Some "Picture-in-Picture not supported in this browser") m0)
            (storage w) (effects w)
  else if negb (truthy channel) || negb (truthy streamUrl) then w
  else
    let st1 := snd (savePipState now channel streamUrl
                      (with_flag options "pendingPiP" true) (storage w)) in
    let m1 := setPipChannel channel m0 in
    match options with
    | VNull => mkWorld m1 st1 (effects w)   (* reading [options.fromUserGesture] throws *)
    | _ =>
        if negb (truthy (get options "fromUserGesture")) then
          mkWorld (setPipError (Some "Click to activate PiP") (setPipStatus "pending" m1))
                  st1 (effects w)
        else
          let m2 := setPipStatus "initializing"
                      (setPipError None (setIsSwitchingPip true m1)) in
          let w2 := mkWorld m2 st1 (effects w) in
          let w3 :=
            if bool_decide (is_Some (pictureInPictureElement B))
               || bool_decide (is_Some (render_pipVideo r))
            then exitPipInternal B w2 else w2 in
          let newPipVideo := fresh B in
          let m4 := setPipChannel channel
                      (setCurrentStreamUrl streamUrl
                         (setRefs (Some newPipVideo) (pipHlsRef (manager w3)) (manager w3))) in
          let st4 := snd (savePipState now channel streamUrl
                            (with_flag options "pendingPiP" false) (storage w3)) in
          let eff4 := (effects w3 ++
                       [ createElement_video newPipVideo; appendChild newPipVideo;
                         addEventListener newPipVideo "leavepictureinpicture";
                         addEventListener newPipVideo "error" ])%list in
          let finally (w : World) : World :=
            mkWorld (manager w) (storage w) (effects w ++ [setTimeout 1000%N])%list in
          if Hls_isSupported B then
            let hls := S newPipVideo in
            finally
              (mkWorld (setRefs (Some newPipVideo) (Some hls) (setPipStatus "loading" m4))
                       st4
                       (eff4 ++ [ new_Hls hls; hls_on hls "hlsMediaAttached";
                                  hls_on hls "hlsManifestParsed"; hls_on hls "hlsError";
                                  hls_loadSource hls streamUrl;
                                  hls_attachMedia hls newPipVideo; setTimeout 10000%N ])%list)
          else if canPlay_mpegurl B then
            finally
              (mkWorld (setPipStatus "loading" m4) st4
                       (eff4 ++ [ set_src newPipVideo streamUrl;
                                  addEventListener newPipVideo "loadedmetadata";
                                  setTimeout 10000%N ])%list)
          else
            (* throw new Error('HLS is not supported in this browser') *)
            let w5 := mkWorld (setPipStatus "error" m4) st4 eff4 in
            let w6 := cleanupPipResources B (render_isSwitchingPip r) false w5 in
            finally
              (mkWorld (setPipError
                          (Some "Failed to setup PiP: HLS is not supported in this browser")
                          (manager w6))
                       (storage w6) (effects w6))
    end.

End Pip.

(* ===================================================================== *)
(** * The Local Persistent Store ([idbStorage], in [src/utils/favorites.js]) *)
(* ===================================================================== *)

Module IdbStorage.
Import JS.

(** What the store needs of the platform and of lz-string: whether the
    library could be imported, the text [JSON.stringify] gives for a JSON
    value, and the three functions applied to texts ([None] is a thrown
    exception). *)
Record Codec : Type := mkCodec {
  lz_loaded : bool;
  json_text : Value -> string;
  compressToUTF16 : string -> option string;
  decompress_parse : string -> option Value;  (* [JSON.parse(lz.decompressFromUTF16(s))] *)
  parse : string -> option Value              (* [JSON.parse(s)] *)
}.

Definition CACHE_TTL : Q := 120000.
Definition CACHE_SIZE_LIMIT : nat := 50.

(** The module-level [cache]: a [Map] from keys to [{ value, expires }], in
    the order in which the keys were first set. *)
Definition Cache : Type := list (string * (Value * Q)).

(** [cache.get(key)] *)
Fixpoint cache_get (key : string) (c : Cache) : option (Value * Q) :=
  match c with
  | [] => None
  | (k, e) :: rest => if String.eqb key k then Some e else cache_get key rest
  end.

(** [cache.delete(key)] *)
Definition cache_delete (key : string) (c : Cache) : Cache :=
  List.filter (fun ke => negb (String.eqb key (fst ke))) c.

(** [cache.set(key, e)]: a key that is there keeps its place. *)
Fixpoint cache_set (key : string) (e : Value * Q) (c : Cache) : Cache :=
  match c with
  | [] => [(key, e)]
  | (k, e') :: rest =>
      if String.eqb key k then (key, e) :: rest else (k, e') :: cache_set key e rest
  end.

(** [enforceCacheSizeLimit()]: while there are more than fifty entries,
    delete the oldest. *)
Fixpoint enforceCacheSizeLimit (c : Cache) : Cache :=
  match c with
  | [] => []
  | _ :: rest =>
      if Nat.ltb CACHE_SIZE_LIMIT (List.length c) then enforceCacheSizeLimit rest else c
  end.

(** [cleanCache()] at time [now] *)
Definition cleanCache (now : Q) (c : Cache) : Cache :=
  List.filter (fun ke => negb (Detection.Qltb (snd (snd ke)) now)) c.

(** The cache, the custom database the module opens ([iptv-db]), the
    default database of idb-keyval, which [enhancedGet] and [enhancedSet]
    use, and whether IndexedDB serves reads and writes. *)
Record Store : Type := mkStore {
  cache : Cache;
  db : gmap string Value;
  keyval : gmap string Value;
  readable : bool;
  writable : bool
}.

Definition with_cache (c : Cache) (st : Store) : Store :=
  mkStore c (db st) (keyval st) (readable st) (writable st).

(** A value the structured clone of IndexedDB accepts: one that holds no
    function. *)
Fixpoint cloneable (v : Value) : bool :=
  match v with
  | VFun => false
  | VArr items => forallb cloneable items
  | VObj props => forallb (fun kv => cloneable (snd kv)) props
  | _ => true
  end.

(** [s.length < 500000] *)
Definition fits_cache (s : string) : bool :=
  (N.of_nat (String.length s) <? 500000)%N.

(** [typeof result !== 'string' || result.length < 500000] *)
Definition cacheable (result : Value) : bool :=
  match result with
  | VStr s => fits_cache s
  | _ => true
  end.

(** The value [get] makes of what the database holds: a string that starts
    with the marker is decompressed and parsed, and kept as it is when that
    throws. *)
Definition decode (C : Codec) (value : Value) : Value :=
  match value with
  | VStr s =>
      if String.prefix "CMPR:" s then
        let payload := String.substring 5 (String.length s - 5) s in
        default value
          (if lz_loaded C then decompress_parse C payload else parse C payload)
      else value
  | _ => value
  end.

(** [get(key, skipCache)]: the value returned and the store afterwards.
    [now] is the time at which the cache is looked at, [later] the time,
    after the database has answered, at which the result is cached. *)
Definition get (C : Codec) (now later : Q) (key : string) (skipCache : bool)
    (st : Store) : Value * Store :=
  let hit := if skipCache then None else cache_get key (cache st) in
  let served :=
    match hit with
    | Some (value, expires) => if PipState.Qgtb expires now then Some value else None
    | None => None
    end in
  match served with
  | Some value => (value, st)
  | None =>
      let c1 := match hit with
                | Some _ => cache_delete key (cache st)
                | None => cache st
                end in
      if negb (readable st) then (VUndefined, with_cache c1 st)
      else
        match db st !! key with
        | None | Some VUndefined => (VUndefined, with_cache c1 st)
        | Some value =>
            let result := decode C value in
            let c2 := if cacheable result
                      then cache_set key (result, (later + CACHE_TTL)%Q)
                                     (enforceCacheSizeLimit c1)
                      else c1 in
            (result, with_cache c2 st)
        end
  end.

(** What [set] hands to the database for a value whose JSON text is
    [valueStr]. *)
Definition storableValue (C : Codec) (value : Value) (valueStr : string)
    (useCompression : bool) : Value :=
  let isLarge := (10000 <? N.of_nat (String.length valueStr))%N in
  if (useCompression || isLarge)
     && negb match value with VNull | VUndefined => true | _ => false end
  then
    if lz_loaded C then
      match compressToUTF16 C valueStr with
      | Some compressed => VStr ("CMPR:" ++ compressed)
      | None => VStr valueStr
      end
    else VStr valueStr
  else value.

(** [set(key, value, useCompression)] at time [now]: the returned success
    and the store afterwards.  [JSON.stringify] throws for a BigInt and
    returns [undefined], whose [length] cannot be read, for [undefined] and
    for a function; each ends in the [catch]. *)
Definition set (C : Codec) (now : Q) (key : string) (value : Value)
    (useCompression : bool) (st : Store) : bool * Store :=
  match json_of value with
  | JThrow | JOmit => (false, st)
  | JVal j =>
      let valueStr := json_text C j in
      let stored := storableValue C value valueStr useCompression in
      if writable st && cloneable stored then
        (true,
         mkStore
           (if fits_cache valueStr
            then cache_set key (value, (now + CACHE_TTL)%Q)
                           (enforceCacheSizeLimit (cache st))
            else cache st)
           (<[key := stored]> (db st)) (keyval st) (readable st) (writable st))
      else (false, st)
  end.

(** [remove(key)] *)
Definition remove (key : string) (st : Store) : bool * Store :=
  if writable st then
    (true, mkStore (cache_delete key (cache st)) (delete key (db st)) (keyval st)
                   (readable st) (writable st))
  else (false, st).

(** One call to the store, with the times at which it reads the clock. *)
Inductive Call : Type :=
| call_get (now later : Q) (key : string) (skipCache : bool)
| call_set (now : Q) (key : string) (value : Value) (useCompression : bool)
| call_remove (key : string)
| call_cleanCache (now : Q).

Definition call (C : Codec) (st : Store) (op : Call) : Store :=
  match op with
  | call_get now later key skipCache => snd (get C now later key skipCache st)
  | call_set now key value useCompression => snd (set C now key value useCompression st)
  | call_remove key => snd (remove key st)
  | call_cleanCache now => with_cache (cleanCache now (cache st)) st
  end.

Definition calls (C : Codec) (ops : list Call) (st : Store) : Store :=
  fold_left (call C) ops st.

(** ** The array helpers over the default database *)

(** [enhancedGet(key)] *)
Definition enhancedGet (key : string) (st : Store) : Value :=
  if negb (readable st) then VNull
  else
    match keyval st !! key with
    | None | Some VUndefined | Some VNull => VNull
    | Some value => value
    end.

(** [enhancedSet(key, value)] *)
Definition enhancedSet (key : string) (value : Value) (st : Store) : bool * Store :=
  if String.eqb key "" then (false, st)
  else if writable st && cloneable value then
    (true, mkStore (cache st) (db st) (<[key := value]> (keyval st))
                   (readable st) (writable st))
  else (false, st).

(** [currentArray.some(existingItem => existingItem.id === id)]; [None] is
    the [TypeError] of a [null] or [undefined] element. *)
Fixpoint some_with_id (id : Value) (l : list Value) : option bool :=
  match l with
  | [] => Some false
  | x :: rest =>
      match x with
      | VNull | VUndefined => None
      | _ => if Player.strict_eq (JS.get x "id") id then Some true
             else some_with_id id rest
      end
  end.

(** [currentArray.map(existingItem => existingItem.id === item.id ? item :
    existingItem)] *)
Fixpoint replace_with_id (item : Value) (l : list Value) : option (list Value) :=
  match l with
  | [] => Some []
  | x :: rest =>
      match x, replace_with_id item rest with
      | (VNull | VUndefined), _ | _, None => None
      | _, Some r =>
          Some ((if Player.strict_eq (JS.get x "id") (JS.get item "id") then item else x) :: r)
      end
  end.

(** [addToArray(key, item)].  What the database holds went through the
    structured clone, so it has no method of its own: [some] and [map] are
    those of an array. *)
Definition addToArray (key : string) (item : Value) (st : Store) : bool * Store :=
  match item with
  | VNull | VUndefined => (false, st)
  | _ =>
      let currentArray := or_js (enhancedGet key st) (VArr []) in
      let append :=
        match currentArray with
        | VArr l => enhancedSet key (VArr (l ++ [item])) st
        | VStr s => enhancedSet key (VArr (chars s ++ [item])) st
        | _ => (false, st)
        end in
      if truthy (JS.get item "id") then
        match currentArray with
        | VArr l =>
            match some_with_id (JS.get item "id") l with
            | None => (false, st)
            | Some true =>
                match replace_with_id item l with
                | Some updatedArray => enhancedSet key (VArr updatedArray) st
                | None => (false, st)
                end
            | Some false => append
            end
        | _ => (false, st)             (* [currentArray.some] is not a function *)
        end
      else append
  end.

(** [removeFromArray(key, itemId)] *)
Definition removeFromArray (key : string) (itemId : Value) (st : Store)
  : bool * Store :=
  match or_js (enhancedGet key st) (VArr []) with
  | VArr l =>
      match Player.without_id itemId l with
      | None => (false, st)
      | Some updatedArray =>
          if negb (Nat.eqb (List.length updatedArray) (List.length l))
          then enhancedSet key (VArr updatedArray) st
          else (true, st)
      end
  | _ => (false, st)
  end.

End IdbStorage.

(* ===================================================================== *)
(** * The persisted PiP record: the queries built on [loadPipState] *)
(* ===================================================================== *)

Module PipStateManager.
Import JS PipState.

(** [state.options?.k] *)
Definition optional_option (state : Value) (k : string) : Value :=
  match get state "options" with
  | VNull | VUndefined => VUndefined
  | options => get options k
  end.

(** [hasPendingPip()] at time [now]: the returned value and the store
    afterwards ([loadPipState] removes a record it rejects). *)
Definition hasPendingPip (now : Q) (s : SessionStorage) : Value * SessionStorage :=
  let '(state, s') := loadPipState now s in
  match state with
  | None => (VNull, s')                       (* [null && ...] *)
  | Some state =>
      (or_js (optional_option state "pendingPiP")
             (optional_option state "needsActivation"), s')
  end.

End PipStateManager.

(* ===================================================================== *)
(** * The PiP session manager: the rest of the provider *)
(* ===================================================================== *)

Module PipContext.
Import JS PipState Pip.

(** How an awaited browser promise settles; a rejection carries the
    [name] and the [message] of its error. *)
Inductive Settled : Type :=
| Fulfilled
| Rejected (name message : string).

(** What the callbacks registered by one run of [enterPiP] close over: the
    video element it created, its three arguments, and [isSwitchingPip] as
    that run's [cleanupPipResources] reads it. *)
Record Setup : Type := mkSetup {
  setup_video : Handle;
  setup_channel : Value;
  setup_streamUrl : Value;
  setup_options : Value;
  setup_switching : bool
}.

(** [setPipStatus('error'); cleanupPipResources(); setPipError(message)],
    the way every failure of a setup ends. *)
Definition fail_setup (B : Browser) (switching : bool) (message : string)
    (w : World) : World :=
  let w1 := mkWorld (setPipStatus "error" (manager w)) (storage w) (effects w) in
  let w2 := cleanupPipResources B switching false w1 in
  mkWorld (setPipError (Some message) (manager w2)) (storage w2) (effects w2).

(** ** [exitPiP] *)

(** [exitPiP()], with the timer it leaves behind still to run. *)
Definition exitPiP (B : Browser) (w : World) : World :=
  let w1 := mkWorld (setPipStatus "closing" (setIsSwitchingPip true (manager w)))
                    (storage w) (effects w) in
  let w2 := exitPipInternal B w1 in
  mkWorld (manager w2) (storage w2) (effects w2 ++ [setTimeout 500%N])%list.


(** ** [handleLeavePiP] *)

(** [handleLeavePiP]; [switching] is the [isSwitchingPip] of the render the
    callback was created in. *)
Definition handleLeavePiP (switching : bool) (w : World) : World :=
  if negb switching then
    mkWorld (setPipStatus "closing" (manager w)) (storage w)
            (effects w ++ [setTimeout 100%N])%list
  else w.

(** The callback of that timer: [cleanupPipResources()] of the same render. *)
Definition leave_timer (B : Browser) (switching : bool) (w : World) : World :=
  cleanupPipResources B switching false w.

(** ** [handlePipError] *)

(** [handlePipError(event)] for an [error] event of the video element, with
    the recovery it asks of the engine. *)
Definition handlePipError (B : Browser) (E : Hls.Engine) (event_type : string)
    (w : World) : World * list Hls.Action :=
  let w1 :=
    mkWorld (setPipStatus "error"
               (setPipError (Some ("Playback error: " ++ event_type)) (manager w)))
            (storage w) (effects w) in
  match pipHlsRef (manager w) with
  | Some _ =>
      if Hls.recoverMediaError_throws E then (exitPiP B w1, [Hls.recoverMediaError])
      else (w1, [Hls.recoverMediaError])
  | None => (exitPiP B w1, [])
  end.

(** ** The callbacks [enterPiP] registers on the engine *)

(** The [MANIFEST_PARSED] listener and the promise chain it starts.
    [played] is how [newPipVideo.play()] settles, [requested] how
    [newPipVideo.requestPictureInPicture()] does. *)
Definition onManifestParsed (B : Browser) (now : Q) (c : Setup)
    (played requested : Settled) (w : World) : World :=
  let m1 := setPipStatus "ready" (manager w) in
  match played with
  | Rejected _ message =>
      fail_setup B (setup_switching c) ("Playback failed to start: " ++ message)
                 (mkWorld m1 (storage w) (effects w))
  | Fulfilled =>
      let m2 := setPipStatus "playing" m1 in
      let eff := (effects w ++ [requestPictureInPicture (setup_video c)])%list in
      match requested with
      | Fulfilled =>
          let m3 := setPipStatus "active"
                      (setPipError None (setPipVideo (Some (setup_video c)) m2)) in
          mkWorld m3 (storage w)
                  (eff ++ if Player.strict_eq (get (setup_options c) "wasMuted")
                                              (VBool false)
                          then [setTimeout 1000%N] else [])%list
      | Rejected name message =>
          if String.eqb name "NotAllowedError" then
            let m3 := setPipStatus "needsActivation"
                        (setPipError (Some "Click to activate PiP mode")
                           (setPipVideo (Some (setup_video c)) m2)) in
            mkWorld m3
                    (snd (savePipState now (setup_channel c) (setup_streamUrl c)
                            (with_flag (setup_options c) "needsActivation" true)
                            (storage w)))
                    eff
          else
            fail_setup B (setup_switching c) ("Failed to enter PiP mode: " ++ message)
                       (mkWorld m2 (storage w) eff)
      end
  end.

(** The [ERROR] listener.  [playing] is
    [newPipVideo.readyState > 0 && !newPipVideo.paused] and [currentTime]
    the position of the element.  On a buffer stall of a playing element the
    listener moves the position half a second on and asks the engine to
    load; an exception of that [hls.startLoad()] falls through to the
    [fatal] test; one raised in the [switch] leaves the listener after the
    state was set. *)
Definition onHlsError (B : Browser) (E : Hls.Engine) (c : Setup)
    (playing : bool) (currentTime : Q) (data : Hls.ErrorData) (w : World)
  : World * list Hls.Action :=
  let stalled :=
    String.eqb (Hls.details data) Hls.ErrorDetails.BUFFER_STALLED_ERROR in
  let nudged := stalled && playing in
  let acts := if nudged then [Hls.startLoad] else [] in
  let w :=
    if nudged then
      mkWorld (manager w) (storage w)
              (effects w ++ [set_currentTime (setup_video c)
                                             (add currentTime (1 # 2))])%list
    else w in
  if stalled && negb (nudged && Hls.startLoad_throws E) then (w, acts)
  else if Hls.fatal data then
    let w1 := mkWorld (setPipStatus "error" (manager w)) (storage w) (effects w) in
    if String.eqb (Hls.type data) Hls.ErrorTypes.NETWORK_ERROR then
      (mkWorld (setPipError (Some ("Network error: " ++ Hls.details data)) (manager w1))
               (storage w1) (effects w1),
       (acts ++ [Hls.startLoad])%list)
    else if String.eqb (Hls.type data) Hls.ErrorTypes.MEDIA_ERROR then
      (mkWorld (setPipError (Some ("Media error: " ++ Hls.details data)) (manager w1))
               (storage w1) (effects w1),
       (acts ++ [Hls.recoverMediaError])%list)
    else
      let w2 := cleanupPipResources B (setup_switching c) false w1 in
      (mkWorld (setPipError (Some ("Fatal stream error: " ++ Hls.details data))
                            (manager w2))
               (storage w2) (effects w2),
       acts)
  else (w, acts).

(** The ten-second timer of a setup; [initSuccess] is the flag the
    [MANIFEST_PARSED] listener sets. *)
Definition init_timer (B : Browser) (c : Setup) (initSuccess : bool) (w : World)
  : World :=
  if negb initSuccess
     && bool_decide (pipVideoRef (manager w) = Some (setup_video c))
  then fail_setup B (setup_switching c) "Stream initialization timed out" w
  else w.

(** ** [activatePendingPiP] *)

(** [activatePendingPiP()] at time [now].  The callback is created anew in
    every render in which [pipStatus] or [enterPiP] has changed: [status] is
    the [pipStatus] of the render it was created in, and [r] the render of
    the [enterPiP] it holds.  [requested] is how
    [pipVideoRef.current.requestPictureInPicture()] settles when the callback
    gets to call it. *)
Definition activatePendingPiP (B : Browser) (r : Render) (status : string)
    (now : Q) (requested : Settled) (w : World) : World :=
  let '(savedState, st) := loadPipState now (storage w) in
  match savedState with
  | None => mkWorld (manager w) st (effects w)
  | Some savedState =>
      let channel := get savedState "channel" in
      let streamUrl := get savedState "streamUrl" in
      let options := get savedState "options" in
      let m1 := setPipStatus "activating" (setPipError None (manager w)) in
      let from_scratch (w : World) : World :=
        enterPiP B r now channel streamUrl
                 (with_flag (with_flag options "fromUserGesture" true)
                            "pendingPiP" false) w in
      match pipVideoRef (manager w) with
      | Some video =>
          if String.eqb status "needsActivation" then
            let eff := (effects w ++ [requestPictureInPicture video])%list in
            match requested with
            | Fulfilled =>
                mkWorld (setPipStatus "active" (setPipVideo (Some video) m1))
                        (snd (savePipState now channel streamUrl
                                (with_flag (with_flag options "pendingPiP" false)
                                           "needsActivation" false) st))
                        eff
            | Rejected _ _ => from_scratch (mkWorld m1 st eff)
            end
          else from_scratch (mkWorld m1 st (effects w))
      | None => from_scratch (mkWorld m1 st (effects w))
      end
  end.

(** ** [restorePipState] *)

(** The mount effect of the provider at time [now]: the world afterwards,
    and the arguments of the [enterPiP] call it schedules for one second
    later, if it schedules one (the call goes through the callback of the
    first render). *)
Definition restorePipState (B : Browser) (now : Q) (w : World)
  : World * option (Value * Value * Value) :=
  if negb (isPipSupported B) then (w, None)
  else if bool_decide (is_Some (pipVideo (manager w)))
          || bool_decide (is_Some (pictureInPictureElement B)) then (w, None)
  else
    let '(savedState, st) := loadPipState now (storage w) in
    match savedState with
    | Some savedState =>
        if truthy (get savedState "streamUrl") && truthy (get savedState "channel")
        then
          (mkWorld (setPipStatus "restoring" (manager w)) st
                   (effects w ++ [setTimeout 1000%N])%list,
           Some (get savedState "channel", get savedState "streamUrl",
                 or_js (get savedState "options") (VObj [])))
        else (mkWorld (manager w) st (effects w), None)
    | None => (mkWorld (manager w) st (effects w), None)
    end.

End PipContext.

(* ===================================================================== *)
(** * The player page: favourites, similar streams and quality levels *)
(* ===================================================================== *)

Module PlayerPage.
Import JS Player.

(** The page reads and writes the Local Persistent Store through [get] and
    [set] of [utils/idbStorage] ([IdbStorage] above).  [clock n] is what the
    [n]-th reading of [Date.now()] returns that a run of a function makes
    or can make: two for a [get], one for a [set]. *)

(** ** The watch-history update of [loadChannelDetails] *)

(** What a run that reached [set('watchHistory', updatedHistory)] did: the
    list the awaited [get] gave it, the list it passed to [set], the result
    of [set] (which the function does not look at), and the store
    afterwards. *)
Record HistoryUpdate : Type := mkHistoryUpdate {
  history_read : list Value;
  updatedHistory : list Value;
  history_saved : bool;
  store_after : IdbStorage.Store
}.

(** The history part of [loadChannelDetails(streamUrl, ...)].
    [channelName], [channelId], [channelGroup] and [channelLogo] stand for
    the best available data the function has gathered from the directory,
    the favorites, the history and the URL by the time it builds
    [channelData].  [None] when the function left through its guard or its
    [catch] before writing.  (The earlier [history.find] raises only where
    the later [history.filter] does.) *)
Definition updateWatchHistory (C : IdbStorage.Codec) (clock : nat -> Q)
    (streamUrl channelName channelId channelGroup channelLogo : Value)
    (st : IdbStorage.Store) : option HistoryUpdate :=
  if negb (truthy streamUrl) then None
  else
    let '(stored, st1) :=
      IdbStorage.get C (clock 0) (clock 1) "watchHistory" false st in
    match as_list stored with
    | None => None
    | Some history =>
        let '(stored_favorites, st2) :=
          IdbStorage.get C (clock 2) (clock 3) "favorites" false st1 in
        match as_list stored_favorites with
        | None => None
        | Some favorites =>
            match search_favorites streamUrl favorites with
            | None => None
            | Some isFavorite =>
                let channelData :=
                  VObj [ ("id", streamUrl); ("name", channelName);
                         ("channelId", channelId); ("group", channelGroup);
                         ("logo", channelLogo) ] in
                let newHistoryItem :=
                  VObj [ ("timestamp", VNum (clock 4)); ("channel", channelData) ] in
                match filter_others streamUrl history with
                | None => None
                | Some others =>
                    let updatedHistory := take 100 (newHistoryItem :: others) in
                    let '(saved, st3) :=
                      IdbStorage.set C (clock 5) "watchHistory" (VArr updatedHistory)
                                     false st2 in
                    Some (mkHistoryUpdate history updatedHistory saved st3)
                end
            end
        end
    end.

(** ** [toggleFavorite] of the player *)

(** The callback for the [channel] and [isFavorite] of the current render:
    the new [isFavorite] and the store afterwards.  The results of the two
    [set] calls are not looked at; an exception ends in the [catch], which
    changes nothing more. *)
Definition toggleFavorite (C : IdbStorage.Codec) (clock : nat -> Q)
    (channel : Value) (isFavorite : bool) (st : IdbStorage.Store)
  : bool * IdbStorage.Store :=
  if negb (truthy channel) then (isFavorite, st)
  else
    let '(stored, st1) := IdbStorage.get C (clock 0) (clock 1) "favorites" false st in
    let favorites := or_js stored (VArr []) in
    if isFavorite then
      match favorites with
      | VArr l =>
          match without_id (get channel "id") l with
          | Some l' =>
              (false, snd (IdbStorage.set C (clock 2) "favorites" (VArr l') false st1))
          | None => (isFavorite, st1)
          end
      | _ => (isFavorite, st1)          (* [favorites.filter] is not a function *)
      end
    else
      match iterable favorites with
      | Some l =>
          (true,
           snd (IdbStorage.set C (clock 2) "favorites" (VArr (l ++ [channel])) false st1))
      | None => (isFavorite, st1)
      end.

(** ** The list of similar streams *)

(** [s.id] of a list element; [None] is the [TypeError] for [null] and
    [undefined]. *)
Definition stream_id (s : Value) : option Value :=
  match s with
  | VNull | VUndefined => None
  | _ => Some (get s "id")
  end.

(** [self.findIndex(s => s.id === stream.id)], counting from [j], for the
    element [stream] that stands at position [index] of [self]: the position
    found ([None] is -1), or [None] for a [TypeError].  At position [index]
    the callback compares the id of [stream] with itself, which holds for an
    object as for a primitive. *)
Fixpoint findIndex_same_id (stream : Value) (index : nat) (self : list Value)
    (j : nat) : option (option nat) :=
  match self with
  | [] => Some None
  | s :: rest =>
      match stream_id s, stream_id stream with
      | Some a, Some b =>
          if Nat.eqb j index || strict_eq a b then Some (Some j)
          else findIndex_same_id stream index rest (S j)
      | _, _ => None
      end
  end.

(** [l.filter((stream, index, self) => index === self.findIndex(...))], for
    the part [l] of [self] that starts at position [index]. *)
Fixpoint filter_first_of_id (self : list Value) (index : nat) (l : list Value)
  : option (list Value) :=
  match l with
  | [] => Some []
  | stream :: rest =>
      match findIndex_same_id stream index self 0,
            filter_first_of_id self (S index) rest with
      | Some found, Some r =>
          Some (if bool_decide (found = Some index) then stream :: r else r)
      | _, _ => None
      end
  end.

(** [uniqueStreams] of [findSimilarStreams]: the first stream of each id,
    five at most; [None] when the expression throws (the function's [catch]
    then leaves the list of similar streams empty). *)
Definition uniqueStreams (allStreams : list Value) : option (list Value) :=
  option_map (take 5) (filter_first_of_id allStreams 0 allStreams).

(** ** Quality levels *)

(** A level of the parsed manifest as hls.js reports it; [height] is 0 when
    the manifest gives no resolution.  Both are integers, far below the
    range in which a number stops printing as its decimal digits. *)
Record Level : Type := mkLevel {
  height : Z;
  bitrate : Z
}.

(** An entry of the quality menu. *)
Record Quality : Type := mkQuality {
  quality_id : string;
  quality_name : string;
  quality_bitrate : Z
}.

(** [Math.round(n / 1000)] for an integer [n]: the nearest integer, halves
    upwards. *)
Definition round_thousandth (n : Z) : Z := (2 * n + 1000) / 2000.

(** The callback of [data.levels.map]. *)
Definition quality_of (index : nat) (level : Level) : Quality :=
  mkQuality
    (pretty index)
    ((if Z.eqb (height level) 0 then "Auto" else pretty (height level))
     ++ "p " ++ pretty (round_thousandth (bitrate level)) ++ " kbps")
    (bitrate level).

(** The quality part of the [MANIFEST_PARSED] listener: the menu after it
    ran, from the menu before. *)
Definition parsed_qualities (levels : list Level) (qualities : list Quality)
  : list Quality :=
  if Nat.ltb 1 (List.length levels) then imap quality_of levels else qualities.

(** White space that [parseInt] skips, among the code units a menu id or a
    stored preference can hold. *)
Definition is_white_space (c : ascii) : bool :=
  let n := nat_of_ascii c in
  (Nat.leb 9 n && Nat.leb n 13) || Nat.eqb n 32 || Nat.eqb n 160.

Fixpoint skip_white_space (s : string) : string :=
  match s with
  | String c rest => if is_white_space c then skip_white_space rest else s
  | EmptyString => s
  end.

(** The value of a digit in the given radix, if it is one. *)
Definition digit_value (radix : N) (c : ascii) : option N :=
  let n := N_of_ascii c in
  let v :=
    if (48 <=? n)%N && (n <=? 57)%N then Some (n - 48)%N
    else if (97 <=? n)%N && (n <=? 122)%N then Some (n - 87)%N
    else if (65 <=? n)%N && (n <=? 90)%N then Some (n - 55)%N
    else None in
  match v with
  | Some d => if (d <? radix)%N then Some d else None
  | None => None
  end.

(** The longest prefix of digits, read in the given radix; [acc] is the
    value read so far, [None] while no digit has been read. *)
Fixpoint read_digits (radix : N) (acc : option N) (s : string) : option N :=
  match s with
  | String c rest =>
      match digit_value radix c with
      | Some d => read_digits radix (Some (radix * default 0%N acc + d)%N) rest
      | None => acc
      end
  | EmptyString => acc
  end.

(** [parseInt(s)]; [None] is [NaN].  (A number too large for a double is
    rounded by the platform; level ids are far below that.) *)
Definition parseInt (s : string) : option Z :=
  let s := skip_white_space s in
  let '(negative, s) :=
    match s with
    | String "-" rest => (true, rest)
    | String "+" rest => (false, rest)
    | _ => (false, s)
    end in
  let '(radix, s) :=
    match s with
    | String "0" (String "x" rest) | String "0" (String "X" rest) => (16%N, rest)
    | _ => (10%N, s)
    end in
  match read_digits radix None s with
  | Some n => Some (if negative then (- Z.of_N n)%Z else Z.of_N n)
  | None => None
  end.

(** What [handleQualityChange] works on: the engine's [currentLevel] when
    there is an engine ([None] inside is [NaN]), the stored preference, and
    the two state cells. *)
Record QualityState : Type := mkQualityState {
  currentLevel : option (option Z);
  preferred_quality : option string;
  currentQuality : string;
  showQualityMenu : bool
}.

(** [handleQualityChange(levelId)]; [quota_exceeded] tells whether
    [localStorage.setItem] throws, which ends the callback. *)
Definition handleQualityChange (quota_exceeded : bool) (levelId : string)
    (q : QualityState) : QualityState :=
  match currentLevel q with
  | None => q
  | Some _ =>
      if quota_exceeded then q
      else
        mkQualityState
          (Some (if String.eqb levelId "auto" then Some (-1)%Z else parseInt levelId))
          (Some levelId) levelId false
  end.

End PlayerPage.

(* ===================================================================== *)
(** * The favourites helpers ([src/utils/favorites.js]) *)
(* ===================================================================== *)

Module Favorites.
Import JS Player.

(** The helpers read and write through [get] and [set] of
    [utils/idbStorage]; [clock n] is the [n]-th reading of [Date.now()] at
    the disposal of a run, two for a [get] and one for a [set]. *)

(** [toggleFavorite(channel)]: the returned value ([true], [false] or
    [null]) and the store afterwards.  The function calls itself after it
    has reset a stored value that is not an array; [fuel] bounds the number
    of calls, and [None] means that the bound was reached.  A call takes
    its readings of the clock from the [tick]-th on.  [iso] is the text of
    [new Date().toISOString()]. *)
Fixpoint toggleFavorite (fuel : nat) (C : IdbStorage.Codec) (clock : nat -> Q)
    (tick : nat) (iso : string) (channel : Value) (st : IdbStorage.Store)
  : option (Value * IdbStorage.Store) :=
  match fuel with
  | O => None
  | S fuel =>
      if negb (truthy channel) || negb (truthy (get channel "id")) then Some (VNull, st)
      else
        let '(stored, st1) :=
          IdbStorage.get C (clock tick) (clock (tick + 1)) "favorites" false st in
        match or_js stored (VArr []) with
        | VArr favorites =>
            match search_favorites (get channel "id") favorites with
            | None => Some (VNull, st1)
            | Some isCurrentlyFavorite =>
                let updatedFavorites :=
                  if isCurrentlyFavorite then
                    without_id (get channel "id") favorites
                  else
                    Some (favorites
                          ++ [VObj (set_prop "addedToFavoritesAt" (VStr iso)
                                             (spread channel))])%list in
                match updatedFavorites with
                | None => Some (VNull, st1)
                | Some updatedFavorites =>
                    let '(success, st2) :=
                      IdbStorage.set C (clock (tick + 2)) "favorites"
                                     (VArr updatedFavorites) false st1 in
                    if success then Some (VBool (negb isCurrentlyFavorite), st2)
                    else Some (VNull, st2)
                end
            end
        | _ =>
            toggleFavorite fuel C clock (tick + 3) iso channel
              (snd (IdbStorage.set C (clock (tick + 2)) "favorites" (VArr []) false st1))
        end
  end.

(** [isFavorite(channelId)]: the returned boolean and the store afterwards
    (a read can change the cache). *)
Definition isFavorite (C : IdbStorage.Codec) (clock : nat -> Q)
    (channelId : Value) (st : IdbStorage.Store) : bool * IdbStorage.Store :=
  if negb (truthy channelId) then (false, st)
  else
    let '(stored, st1) := IdbStorage.get C (clock 0) (clock 1) "favorites" false st in
    match or_js stored (VArr []) with
    | VArr favorites => (default false (search_favorites channelId favorites), st1)
    | _ => (false, st1)
    end.

(** [getFavorites()]: the returned array and the store afterwards. *)
Definition getFavorites (C : IdbStorage.Codec) (clock : nat -> Q)
    (st : IdbStorage.Store) : list Value * IdbStorage.Store :=
  let '(stored, st1) := IdbStorage.get C (clock 0) (clock 1) "favorites" false st in
  match stored with
  | VArr favorites => (favorites, st1)
  | _ => ([], snd (IdbStorage.set C (clock 2) "favorites" (VArr []) false st1))
  end.

(** [removeFavorite(channelId)]: the returned success and the store
    afterwards. *)
Definition removeFavorite (C : IdbStorage.Codec) (clock : nat -> Q)
    (channelId : Value) (st : IdbStorage.Store) : bool * IdbStorage.Store :=
  if negb (truthy channelId) then (false, st)
  else
    let '(stored, st1) := IdbStorage.get C (clock 0) (clock 1) "favorites" false st in
    match or_js stored (VArr []) with
    | VArr favorites =>
        match without_id channelId favorites with
        | None => (false, st1)
        | Some updatedFavorites =>
            if Nat.eqb (List.length updatedFavorites) (List.length favorites)
            then (false, st1)
            else IdbStorage.set C (clock 2) "favorites" (VArr updatedFavorites) false st1
        end
    | _ => (false, snd (IdbStorage.set C (clock 2) "favorites" (VArr []) false st1))
    end.

End Favorites.

(* ===================================================================== *)
(** * The channel directory client ([apiClient], in [src/utils/favorites.js]) *)
(* ===================================================================== *)

Module ApiClient.
Import JS Player.

(** [list.find(x => x[key] === wanted)]: the element found, if any; the
    outer [None] is the [TypeError] raised by a [null] or [undefined]
    element met on the way, or by a value that is not an array. *)
Fixpoint find_in (key : string) (wanted : Value) (l : list Value)
  : option (option Value) :=
  match l with
  | [] => Some None
  | x :: rest =>
      match x with
      | VNull | VUndefined => None
      | _ => if strict_eq (get x key) wanted then Some (Some x)
             else find_in key wanted rest
      end
  end.

Definition find_by (key : string) (wanted array : Value) : option (option Value) :=
  match array with
  | VArr l => find_in key wanted l
  | _ => None
  end.

(** [list.filter(x => x[key] === wanted)], with the same [TypeError]s. *)
Fixpoint filter_in (key : string) (wanted : Value) (l : list Value)
  : option (list Value) :=
  match l with
  | [] => Some []
  | x :: rest =>
      match x, filter_in key wanted rest with
      | (VNull | VUndefined), _ | _, None => None
      | _, Some r => Some (if strict_eq (get x key) wanted then x :: r else r)
      end
  end.

Definition filter_by (key : string) (wanted array : Value) : option (list Value) :=
  match array with
  | VArr l => filter_in key wanted l
  | _ => None
  end.

(** [object.key = v] on the channel object found. *)
Definition assign (key : string) (v : Value) (object : Value) : Value :=
  match object with
  | VObj props => VObj (set_prop key v props)
  | _ => object
  end.

(** [getChannelDetails(channelId)], given how the three requests it makes
    through [fetchWithCache] settle: the channel, stream and guide lists of
    the directory.  Every exception but those of the guide request ends in
    the [catch], which returns [null]. *)
Definition getChannelDetails (channels streams guides : ApiResult)
    (channelId : Value) : Value :=
  if negb (truthy channelId) then VNull
  else
    match channels with
    | Rejects => VNull
    | Resolves channels =>
        match find_by "id" channelId channels with
        | None | Some None => VNull
        | Some (Some channel) =>
            match streams with
            | Rejects => VNull
            | Resolves streams =>
                match filter_by "channel" channelId streams with
                | None => VNull
                | Some channelStreams =>
                    let channel :=
                      match channelStreams with
                      | first :: _ =>
                          assign "url" (get first "url")
                                 (assign "streams" (VArr channelStreams) channel)
                      | [] => channel
                      end in
                    match guides with
                    | Resolves guides =>
                        match find_by "channel" channelId guides with
                        | Some (Some channelGuide) => assign "guide" channelGuide channel
                        | _ => channel
                        end
                    | Rejects => channel
                    end
                end
            end
        end
    end.


End ApiClient.

(* ===================================================================== *)
(** * The watch-history page ([WatchHistory]) *)
(* ===================================================================== *)

Module WatchHistory.
Import JS Player.

(** The test of the [filter] in [loadHistory]. *)
Definition valid_item (item : Value) : bool :=
  truthy item
  && truthy (get item "channel")
  && truthy (get (get item "channel") "id")
  && truthy (get item "timestamp").

(** [loadHistory()]: the [history] state and the store afterwards.  The
    store is that of [utils/idbStorage]; [clock n] is the [n]-th reading of
    [Date.now()] at the disposal of the run.  A stored value that has no
    [filter] ends in the [catch], which leaves the state as it was. *)
Definition loadHistory (C : IdbStorage.Codec) (clock : nat -> Q)
    (history : list Value) (st : IdbStorage.Store)
  : list Value * IdbStorage.Store :=
  let '(stored, st1) := IdbStorage.get C (clock 0) (clock 1) "watchHistory" false st in
  match or_js stored (VArr []) with
  | VArr watchHistory =>
      let validHistory := List.filter valid_item watchHistory in
      (validHistory,
       if negb (Nat.eqb (List.length validHistory) (List.length watchHistory))
       then snd (IdbStorage.set C (clock 2) "watchHistory" (VArr validHistory) false st1)
       else st1)
  | _ => (history, st1)
  end.

(** [history.filter(item => item.timestamp !== timestamp)], with the
    [TypeError] of a [null] or [undefined] item. *)
Fixpoint without_timestamp (timestamp : Value) (history : list Value)
  : option (list Value) :=
  match history with
  | [] => Some []
  | item :: rest =>
      match item, without_timestamp timestamp rest with
      | (VNull | VUndefined), _ | _, None => None
      | _, Some r =>
          Some (if strict_eq (get item "timestamp") timestamp then r else item :: r)
      end
  end.

(** [removeSingleHistoryItem(timestamp, event)] at time [now] *)
Definition removeSingleHistoryItem (C : IdbStorage.Codec) (now : Q)
    (timestamp : Value) (history : list Value) (st : IdbStorage.Store)
  : list Value * IdbStorage.Store :=
  match without_timestamp timestamp history with
  | Some updatedHistory =>
      (updatedHistory,
       snd (IdbStorage.set C now "watchHistory" (VArr updatedHistory) false st))
  | None => (history, st)
  end.

(** [clearHistory()] at time [now] *)
Definition clearHistory (C : IdbStorage.Codec) (now : Q) (st : IdbStorage.Store)
  : list Value * IdbStorage.Store :=
  ([], snd (IdbStorage.set C now "watchHistory" (VArr []) false st)).

End WatchHistory.
(* ===================================================================== *)
(** * Vocabulary of the specification *)
(* ===================================================================== *)

Import JS PipState Player Pip.

(** ** Persisted record *)

Definition is_object (v : Value) : bool :=
  match v with VObj _ | VArr _ => true | _ => false end.
Definition is_string (v : Value) : bool :=
  match v with VStr _ => true | _ => false end.
Definition is_number (v : Value) : bool :=
  match v with VNum _ => true | _ => false end.

(** Structural validity in the words of the specification: a channel
    object, whose name is a string, a stream URL that is a string longer
    than 5, and a numeric timestamp. *)
Definition structurally_valid (state : Value) : bool :=
  is_object (get state "channel")
  && is_string (get (get state "channel") "name")
  && match get state "streamUrl" with
     | VStr u => Nat.ltb 5 (String.length u)
     | _ => false
     end
  && is_number (get state "timestamp").





(** The object [savePipState] serialises. *)
Definition saved_state (now : Q) (channel streamUrl options : Value) : Value :=
  VObj [ ("channel", cleanedChannel channel);
         ("streamUrl", streamUrl);
         ("options", VObj (sanitizedOptions options));
         ("timestamp", VNum now);
         ("version", VStr "1.0") ].

(** ** Resolution *)

Definition recognized_extensions : list string := [".m3u8"; ".m3u"; ".ts"].

(** The path ends, in any letter case, in a recognized extension. *)
Definition ends_in_recognized_extension (path : string) : Prop :=
  exists stem ext,
    In ext recognized_extensions /\ toLowerCase path = stem ++ ext.

(** What [isDirectStreamUrl] computes for a URL it has not cached. *)
Definition direct_verdict (P : Platform) (url : string) : bool :=
  match new_URL P url with
  | Some urlObj =>
      let path := toLowerCase (pathname urlObj) in
      endsWith ".m3u8" path || endsWith ".m3u" path || endsWith ".ts" path
  | None => false
  end.

(** The cache holds only what the two functions wrote into it: a verdict
    under a URL, or an id under its ["channelId:"] key. *)
Definition cache_wf (P : Platform) (c : gmap string Value) : Prop :=
  forall k v, c !! k = Some v ->
    (k <> "" /\ v = VBool (direct_verdict P k))
    \/ (exists id, id <> "" /\ k = channelId_key id /\ v = VStr id).


(** ** Manual retry *)


(** [requested n s]: [s] is a state of a mounted player in which the user
    has asked for a retry [n] times so far, each time through the callback
    of the render that shows the state.  The counter starts at 0 when the
    player is mounted; [retryStream] is the only code that sets it, so
    whatever else runs in between, opening another channel in the same
    player included, leaves it as it is. *)
Inductive requested : nat -> Session -> Prop :=
| requested_start s :
    retryCount s = 0 -> requested 0 s
| requested_other n s s' :
    requested n s -> retryCount s' = retryCount s -> requested n s'
| requested_retry n s :
    requested n s -> requested (S n) (retryStream (retryCount s) s).

(** ** Engine errors *)

Definition is_server_unreachable_reason (reason : string) : bool :=
  String.prefix "Stream unavailable: The server " reason.

(** ** Watch history *)

(** [item.channel.id] of a well-formed entry. *)
Definition entry_id (item : Value) : Value := get (get item "channel") "id".

(** No two entries share a channel id. *)
Fixpoint distinct_ids (h : list Value) : bool :=
  match h with
  | [] => true
  | a :: rest =>
      forallb (fun b => negb (strict_eq (entry_id a) (entry_id b))) rest
      && distinct_ids rest
  end.

(** The entries of a history that are for another channel than the one
    with id [streamUrl], in their order. *)
Definition other_channels (streamUrl : Value) (history : list Value) : list Value :=
  List.filter (fun item => negb (strict_eq (entry_id item) streamUrl)) history.

(** The entry [loadChannelDetails] prepends. *)
Definition history_entry (now : Q)
    (streamUrl channelName channelId channelGroup channelLogo : Value) : Value :=
  VObj [ ("timestamp", VNum now);
         ("channel", VObj [ ("id", streamUrl); ("name", channelName);
                            ("channelId", channelId); ("group", channelGroup);
                            ("logo", channelLogo) ]) ].

(** ** Live / VOD classification *)

Section DetectionVocabulary.
Import Detection.





End DetectionVocabulary.

(** ** Vocabulary for the Local Persistent Store *)

(** The call writes or removes [key]. *)
Definition touches (key : string) (op : IdbStorage.Call) : bool :=
  match op with
  | IdbStorage.call_set _ k _ _ | IdbStorage.call_remove k => String.eqb k key
  | _ => false
  end.

(** A string that starts with the marker of compressed values. *)
Definition marked (v : Value) : bool :=
  match v with
  | VStr s => String.prefix "CMPR:" s
  | _ => false
  end.

(** A codec for the examples: no lz-string, a JSON text that has the
    length of the real one for strings and grows with the elements and
    properties of arrays and objects, and a parser that knows [null] and
    [true]. *)
Fixpoint text_size (v : Value) : nat :=
  match v with
  | VStr s => String.length s + 2
  | VArr items => S (list_sum (map text_size items))
  | VObj props => S (list_sum (map (fun kv => text_size (snd kv)) props))
  | _ => 1
  end.

Definition example_codec : IdbStorage.Codec :=
  IdbStorage.mkCodec false
    (fun v => String.concat "" (repeat "x" (text_size v)))
    (fun _ => None) (fun _ => None)
    (fun s => if String.eqb s "null" then Some VNull
              else if String.eqb s "true" then Some (VBool true)
              else None).

(** A text of [n] characters. *)
Definition long_text (n : N) : string := String.concat "" (repeat "x" (N.to_nat n)).


Definition empty_idb : IdbStorage.Store := IdbStorage.mkStore [] ∅ ∅ true true.

(** A store that serves reads and writes, with an empty cache and one value
    in its database. *)
Definition idb_holding (key : string) (value : Value) : IdbStorage.Store :=
  IdbStorage.mkStore [] {[ key := value ]} ∅ true true.

(** The same, for a database that serves reads but takes no write. *)
Definition idb_refusing (key : string) (value : Value) : IdbStorage.Store :=
  IdbStorage.mkStore [] {[ key := value ]} ∅ true false.

(** A clock that advances by one millisecond from one reading to the next. *)
Definition example_clock (n : nat) : Q := inject_Z (1000 + Z.of_nat n).

(** A store whose cache holds a list of favourites under its key. *)
Definition cached_idb : IdbStorage.Store :=
  snd (IdbStorage.set example_codec 0 "favorites" (VArr [VStr "bbc"]) false empty_idb).

(** Fifty-one writes under fifty-one keys. *)
Definition many_sets : list IdbStorage.Call :=
  map (fun i : nat => IdbStorage.call_set 0 (pretty i) (VNum 1) false) (seq 0 51).

(** The store answers a read of [key] with [value]: the database holds
    something that decodes to it, and the cache holds nothing else for the
    key. *)
Definition remembers (C : IdbStorage.Codec) (key : string) (value : Value)
    (st : IdbStorage.Store) : Prop :=
  NoDup (map fst (IdbStorage.cache st))
  /\ IdbStorage.readable st = true
  /\ (exists stored, IdbStorage.db st !! key = Some stored
                     /\ stored <> VUndefined
                     /\ IdbStorage.decode C stored = value)
  /\ (forall e, IdbStorage.cache_get key (IdbStorage.cache st) = Some e -> fst e = value).

(** A value [set] stores as it is and caches: it holds no function, it has
    a JSON text, and that text has at most 10000 characters. *)
Definition kept_as_is (C : IdbStorage.Codec) (value : Value) : Prop :=
  IdbStorage.cloneable value = true
  /\ exists j, json_of value = JVal j
               /\ (N.of_nat (String.length (IdbStorage.json_text C j)) <= 10000)%N.

(* ===================================================================== *)
(** * Concrete inputs used by the examples below *)
(* ===================================================================== *)

Definition news_url : string := "http://tv.example/live/news.m3u8".

Definition news : Value :=
  VObj [ ("id", VStr news_url); ("name", VStr "News") ].

Definition empty_store : SessionStorage := mkStorage ∅ false.

Definition store_with (record : Value) : SessionStorage :=
  mkStorage {[ PIP_STATE_KEY := Json record ]} false.

(** The record [savePipState(news, news_url, {})] writes at time 1000000. *)
Definition news_record : Value :=
  VObj [ ("channel", VObj [ ("id", VStr news_url); ("name", VStr "News");
                            ("logo", VNull); ("group", VNull);
                            ("channelId", VStr news_url) ]);
         ("streamUrl", VStr news_url);
         ("options", VObj []);
         ("timestamp", VNum 1000000);
         ("version", VStr "1.0") ].

(** The same record, stamped [2^-40] ms before time 0. *)
Definition early_record : Value :=
  VObj [ ("channel", VObj [ ("id", VStr news_url); ("name", VStr "News");
                            ("logo", VNull); ("group", VNull);
                            ("channelId", VStr news_url) ]);
         ("streamUrl", VStr news_url);
         ("options", VObj []);
         ("timestamp", VNum (- (1 # 1099511627776)));
         ("version", VStr "1.0") ].

(** A record whose stream URL has length 4. *)
Definition short_url_record : Value :=
  VObj [ ("channel", VObj [ ("id", VStr "x"); ("name", VStr "News") ]);
         ("streamUrl", VStr "http");
         ("options", VObj []);
         ("timestamp", VNum 1000000);
         ("version", VStr "1.0") ].


(** A platform that parses [news_url] and nothing else. *)
Definition example_platform : Platform :=
  mkPlatform
    (fun u => if String.eqb u news_url
              then Some (mkURL "/live/news.m3u8" "tv.example") else None)
    (fun s => Some s)
    "URI malformed".

(** A directory whose lookup by id finds the channel without a stream URL,
    and whose lookup by name finds it with one. *)
Definition split_directory : Directory :=
  mkDirectory
    (fun _ => VObj [ ("id", VStr "bbc-one"); ("name", VStr "BBC One") ])
    (fun _ => VObj [ ("id", VStr "bbc-one"); ("name", VStr "BBC One");
                     ("url", VStr "http://cdn.example/bbc1.m3u8") ]).


Definition healthy_engine : Hls.Engine := Hls.mkEngine false false.

(** The error hls.js raises when the manifest host cannot be reached. *)
Definition unreachable_manifest : Hls.ErrorData :=
  Hls.mkErrorData "networkError" "manifestLoadError" true
    (Some (Hls.mkResponse 0 "")) (Some (Hls.mkNetworkDetails 0 "")) None.

(** The listener's closure in a session that has loaded once, is paused,
    and has seen [n] retries. *)
Definition started_after (n : nat) : Closure :=
  mkClosure (mkSession "" "" false n news (VStr news_url) true)
            true false news_url.

(** A history entry for [url] watched at time [t]. *)
Definition watched (url : string) (t : Q) : Value :=
  VObj [ ("timestamp", VNum t);
         ("channel", VObj [ ("id", VStr url); ("name", VStr "One") ]) ].

Definition doubled_history : IdbStorage.Store :=
  idb_holding "watchHistory"
    (VArr [ watched "http://a.example/one.m3u8" 20;
            watched "http://a.example/one.m3u8" 10 ]).

Definition single_history : IdbStorage.Store :=
  idb_holding "watchHistory" (VArr [ watched news_url 20 ]).



Definition supporting_browser : Browser := mkBrowser true None true false 1.
Definition fresh_world : World := mkWorld Pip.initial empty_store [].

(** ** Vocabulary for the PiP session manager *)

(** The engine instances alive after the calls of [log], when [live] were
    alive before: [new Hls] adds one, [destroy] ends one. *)
Definition engines_after (live : list Handle) (log : list Effect) : list Handle :=
  fold_left
    (fun live e =>
       match e with
       | new_Hls h => (live ++ [h])%list
       | hls_destroy h => List.filter (fun h' => negb (Nat.eqb h' h)) live
       | _ => live
       end)
    log live.

(** The engine instances created and not yet destroyed, oldest first. *)
Definition engines_alive (log : list Effect) : list Handle :=
  engines_after [] log.

(** A call that creates or destroys an engine. *)
Definition is_engine_lifecycle (e : Effect) : bool :=
  match e with
  | new_Hls _ | hls_destroy _ => true
  | _ => false
  end.

(** The calls of a teardown, for the refs it finds. *)
Definition teardown_calls (B : Browser) (m : Manager) : list Effect :=
  (match pipVideoRef m with
   | Some h =>
       [removeEventListener h "leavepictureinpicture"; removeEventListener h "error"]
       ++ (if decide (pictureInPictureElement B = Some h)
           then [exitPictureInPicture] else [])
   | None => []
   end
   ++ match pipHlsRef m with Some h => [hls_destroy h] | None => [] end
   ++ match pipVideoRef m with Some h => [removeChild h] | None => [] end)%list.

(** The engine the manager's ref points to, as a list. *)
Definition tracked_engine (m : Manager) : list Handle :=
  match pipHlsRef m with Some h => [h] | None => [] end.

(** The session has no engine or element left and shows nothing. *)
Definition torn_down (w : World) : Prop :=
  pipVideo (manager w) = None
  /\ pipVideoRef (manager w) = None
  /\ pipHlsRef (manager w) = None
  /\ pipChannel (manager w) = VNull
  /\ currentStreamUrl (manager w) = VNull
  /\ pipStatus (manager w) = "inactive"
  /\ getItem PIP_STATE_KEY (storage w) = None.

(** The options a request made from a user gesture carries. *)
Definition from_gesture (options : Value) : Prop :=
  options <> VNull /\ truthy (get options "fromUserGesture") = true.

(** The name the saved record gets for a channel. *)
Definition saved_name (channel : Value) : Value :=
  or_js (get channel "name") (VStr "Unknown Channel").

(** A pending request on a page that has just been opened: the news channel
    asked for without a gesture, one second ago. *)
Definition pending_world : World :=
  enterPiP supporting_browser first_render 1000000 news (VStr news_url) (VObj [])
           fresh_world.



(** A session still loading: element 5 and engine 6 exist, PiP has not been
    granted yet. *)
Definition loading_world : World :=
  mkWorld (mkManager None news None true (VStr news_url) "loading" (Some 5) (Some 6))
          (store_with news_record)
          [ createElement_video 5; appendChild 5; new_Hls 6;
            hls_loadSource 6 (VStr news_url); hls_attachMedia 6 5 ].

Definition loading_browser : Browser := mkBrowser true None true false 7.

(** A browser with Picture-in-Picture but no way to play HLS. *)
Definition no_hls_browser : Browser := mkBrowser true None false false 1.

Definition gesture_options : Value := VObj [ ("fromUserGesture", VBool true) ].

(** A session waiting for a click after the browser refused PiP. *)
Definition refused_world : World :=
  PipContext.onManifestParsed loading_browser 1000000
    (PipContext.mkSetup 5 news (VStr news_url) gesture_options false)
    PipContext.Fulfilled (PipContext.Rejected "NotAllowedError" "gesture required")
    loading_world.

(** What [JSON.parse(JSON.stringify(v))] gives back for a property value
    [v]: its JSON image, or [undefined] when the property was left out. *)
Definition json_image (v : Value) : Value :=
  match json_of v with
  | JVal y => y
  | _ => VUndefined
  end.

(** A stream URL the validation of [loadPipState] accepts. *)
Definition loadable_url (streamUrl : Value) : bool :=
  match streamUrl with
  | VStr u => Nat.ltb 5 (String.length u)
  | _ => false
  end.

(** The state a request made from a user gesture is in when it has dealt
    with the session that was there before: the record saved as pending, the
    switching flag raised, the old session torn down when the callback saw
    one. *)
Definition cleared_for_setup (B : Browser) (r : Render) (now : Q)
    (channel streamUrl options : Value) (w : World) : World :=
  let w2 :=
    mkWorld (setPipStatus "initializing"
               (setPipError None
                  (setIsSwitchingPip true (setPipChannel channel (manager w)))))
            (snd (savePipState now channel streamUrl
                    (with_flag options "pendingPiP" true) (storage w)))
            (effects w) in
  if bool_decide (is_Some (pictureInPictureElement B))
     || bool_decide (is_Some (render_pipVideo r))
  then exitPipInternal B w2 else w2.

(** The calls that create the hidden video element [v]. *)
Definition element_calls (v : Handle) : list Effect :=
  [ createElement_video v; appendChild v;
    addEventListener v "leavepictureinpicture"; addEventListener v "error" ].

(** The calls that create the engine [h], load [url] and attach it to [v]. *)
Definition engine_calls (h v : Handle) (url : Value) : list Effect :=
  [ new_Hls h; hls_on h "hlsMediaAttached"; hls_on h "hlsManifestParsed";
    hls_on h "hlsError"; hls_loadSource h url; hls_attachMedia h v;
    setTimeout 10000%N ].

(** The setup behind [loading_world]. *)
Definition loading_setup : PipContext.Setup :=
  PipContext.mkSetup 5 news (VStr news_url) gesture_options false.

(** A fatal buffer stall, and a fatal error of a kind the listener does not
    try to recover from. *)
Definition fatal_stall : Hls.ErrorData :=
  Hls.mkErrorData "mediaError" "bufferStalledError" true None None None.
Definition fatal_mux_error : Hls.ErrorData :=
  Hls.mkErrorData "muxError" "remuxAllocError" true None None None.


(** ** Vocabulary for the player page *)

(** No two streams of the list have the same id. *)
Fixpoint distinct_by_id (l : list Value) : bool :=
  match l with
  | [] => true
  | a :: rest =>
      forallb (fun b => negb (strict_eq (get a "id") (get b "id"))) rest
      && distinct_by_id rest
  end.

(** The streams of [l] whose id is neither among [seen] nor that of an
    earlier stream of [l]. *)
Fixpoint first_of_each_id (seen : list Value) (l : list Value) : list Value :=
  match l with
  | [] => []
  | s :: rest =>
      if existsb (fun a => strict_eq a (get s "id")) seen
      then first_of_each_id (seen ++ [get s "id"]) rest
      else s :: first_of_each_id (seen ++ [get s "id"]) rest
  end.

(** [null] or [undefined]. *)
Definition nullish (v : Value) : bool :=
  match v with
  | VNull | VUndefined => true
  | _ => false
  end.

Definition decimal_digits : list ascii :=
  ["0"; "1"; "2"; "3"; "4"; "5"; "6"; "7"; "8"; "9"]%char.

(** The string is made of decimal digits. *)
Definition all_digits (s : string) : Prop :=
  Forall (fun c => In c decimal_digits) (list_ascii_of_string s).

(** Three renditions of one stream. *)
Definition three_levels : list PlayerPage.Level :=
  [ PlayerPage.mkLevel 360 800000; PlayerPage.mkLevel 720 2500000;
    PlayerPage.mkLevel 1080 5000000 ].

(** Streams found in two playlists, one of them in both. *)
Definition found_streams : list Value :=
  [ VObj [ ("id", VStr "a"); ("name", VStr "News") ];
    VObj [ ("id", VStr "b"); ("name", VStr "News HD") ];
    VObj [ ("id", VStr "a"); ("name", VStr "News") ] ].

(** A media error the engine reports as fatal. *)
Definition fatal_media_error : Hls.ErrorData :=
  Hls.mkErrorData "mediaError" "fragParsingError" true None None None.

(** An engine whose recovery entry points throw. *)
Definition broken_engine : Hls.Engine := Hls.mkEngine true true.

(** A store whose favourites slot holds something that is not an array. *)
Definition broken_favorites : IdbStorage.Store :=
  idb_holding "favorites" (VObj [ ("0", news) ]).



(* ===================================================================== *)
(** * Facts about JavaScript values *)
(* ===================================================================== *)

Lemma truthy_and_js a b : truthy (and_js a b) = truthy a && truthy b.
Proof. unfold and_js. destruct (truthy a) eqn:E; simpl; auto. Qed.

Lemma json_of_obj props :
  json_of (VObj props)
  = match json_fields props with Some r => JVal (VObj r) | None => JThrow end.
Proof. reflexivity. Qed.

Lemma json_of_arr l :
  json_of (VArr l)
  = match json_elems l with Some r => JVal (VArr r) | None => JThrow end.
Proof. reflexivity. Qed.

Lemma json_fields_cons k x rest :
  json_fields ((k, x) :: rest) =
  match json_of x, json_fields rest with
  | JThrow, _ | _, None => None
  | JOmit, Some r => Some r
  | JVal y, Some r => Some ((k, y) :: r)
  end.
Proof. reflexivity. Qed.

(** Every serialised field is the image of a field of the object. *)
Lemma json_fields_In props :
  forall r, json_fields props = Some r ->
  forall k y, In (k, y) r -> exists x, In (k, x) props /\ json_of x = JVal y.
Proof.
  induction props as [|[k0 x0] rest IH]; intros r Hr k y Hin.
  - injection Hr as <-. destruct Hin.
  - rewrite json_fields_cons in Hr.
    destruct (json_of x0) as [| |y0] eqn:Hx0; [discriminate| |];
      destruct (json_fields rest) as [r'|] eqn:Hrest; try discriminate;
      injection Hr as <-.
    + destruct (IH _ eq_refl _ _ Hin) as (x & Hx & Hj).
      exists x. split; [right|]; assumption.
    + destruct Hin as [[= <- <-]|Hin].
      * exists x0. split; [left; reflexivity|assumption].
      * destruct (IH _ eq_refl _ _ Hin) as (x & Hx & Hj).
        exists x. split; [right|]; assumption.
Qed.

Lemma lookup_set_prop k v props : lookup_prop k (set_prop k v props) = v.
Proof.
  induction props as [|[k' v'] rest IH]; cbn [set_prop lookup_prop].
  - rewrite String.eqb_refl. reflexivity.
  - destruct (String.eqb k k') eqn:E; cbn [lookup_prop];
      rewrite ?String.eqb_refl, ?E; auto.
Qed.

Lemma Qeq_bool_sym x y : Qeq_bool x y = Qeq_bool y x.
Proof.
  destruct (Qeq_bool x y) eqn:H1, (Qeq_bool y x) eqn:H2; try reflexivity.
  - apply Qeq_bool_iff in H1. symmetry in H1. apply Qeq_bool_iff in H1. congruence.
  - apply Qeq_bool_iff in H2. symmetry in H2. apply Qeq_bool_iff in H2. congruence.
Qed.

Lemma strict_eq_sym a b : strict_eq a b = strict_eq b a.
Proof.
  destruct a as [| |x|x|x|x| |x|x], b as [| |y|y|y|y| |y|y]; simpl; try reflexivity.
  - destruct x, y; reflexivity.
  - apply Qeq_bool_sym.
  - apply Z.eqb_sym.
  - apply String.eqb_sym.
Qed.

(* ===================================================================== *)
(** * Arithmetic on numbers *)
(* ===================================================================== *)

Section Rounding.
Local Open Scope Q_scope.

Lemma pow2_pos e : 0 < 2 ^ e.
Proof. apply Qpower_0_lt. reflexivity. Qed.

Lemma pow2_le a b : (a <= b)%Z -> 2 ^ a <= 2 ^ b.
Proof. intros H. apply Qpower_le_compat_l; [exact H|]. unfold Qle; simpl; lia. Qed.

Lemma pow2_lt a b : (a < b)%Z -> 2 ^ a < 2 ^ b.
Proof. intros H. apply Qpower_lt_compat_l; [exact H|]. reflexivity. Qed.

Lemma pow2_plus a b : 2 ^ (a + b) == 2 ^ a * 2 ^ b.
Proof. apply Qpower_plus. intros H. discriminate. Qed.

Lemma pow2_inject (n : Z) : (0 <= n)%Z -> inject_Z (2 ^ n) == 2 ^ n.
Proof. intros H. rewrite Zpower_Qpower by exact H. reflexivity. Qed.

(** [2^(ilog2 x) <= x < 2^(ilog2 x + 1)] *)
Lemma ilog2_spec x : 0 < x -> 2 ^ ilog2 x <= x /\ x < 2 ^ (ilog2 x + 1).
Proof.
  intros Hx. destruct x as [n d]. unfold Qlt in Hx. cbn in Hx.
  assert (0 < n)%Z as Hn by lia. clear Hx.
  unfold ilog2. cbn [Qnum Qden].
  set (a := Z.log2 n). set (b := Z.log2 (Z.pos d)).
  destruct (Z.log2_spec n Hn) as [Ha1 Ha2]. fold a in Ha1, Ha2.
  destruct (Z.log2_spec (Z.pos d) eq_refl) as [Hb1 Hb2]. fold b in Hb1, Hb2.
  assert (0 <= a)%Z as Ha0 by apply Z.log2_nonneg.
  assert (0 <= b)%Z as Hb0 by apply Z.log2_nonneg.
  assert (n # d == inject_Z n / inject_Z (Z.pos d)) as Hq by apply Qmake_Qdiv.
  assert (0 < inject_Z (Z.pos d)) as Hd by reflexivity.
  assert (inject_Z (2 ^ a) <= inject_Z n) as Qa1 by (rewrite <- Zle_Qle; exact Ha1).
  assert (inject_Z n < inject_Z (2 ^ Z.succ a)) as Qa2 by (rewrite <- Zlt_Qlt; exact Ha2).
  assert (inject_Z (2 ^ b) <= inject_Z (Z.pos d)) as Qb1 by (rewrite <- Zle_Qle; exact Hb1).
  assert (inject_Z (Z.pos d) < inject_Z (2 ^ Z.succ b)) as Qb2
    by (rewrite <- Zlt_Qlt; exact Hb2).
  rewrite pow2_inject in Qa1, Qa2, Qb1, Qb2 by lia.
  (* bounds on the quotient *)
  assert (n # d < 2 ^ (a - b + 1)) as Hup.
  { rewrite Hq. apply Qlt_shift_div_r; [exact Hd|].
    apply Qlt_le_trans with (2 ^ Z.succ a); [exact Qa2|].
    apply Qle_trans with (2 ^ (a - b + 1) * 2 ^ b).
    - rewrite <- pow2_plus. apply pow2_le. lia.
    - apply Qmult_le_l; [apply pow2_pos|exact Qb1]. }
  assert (2 ^ (a - b - 1) <= n # d) as Hlow.
  { rewrite Hq. apply Qle_shift_div_l; [exact Hd|].
    apply Qle_trans with (2 ^ a); [|exact Qa1].
    apply Qle_trans with (2 ^ (a - b - 1) * 2 ^ Z.succ b).
    - apply Qmult_le_l; [apply pow2_pos|apply Qlt_le_weak; exact Qb2].
    - rewrite <- pow2_plus. apply pow2_le. lia. }
  destruct (Qle_bool (2 ^ (a - b)) (n # d)) eqn:Hle.
  - apply Qle_bool_iff in Hle. split; assumption.
  - split; [exact Hlow|].
    replace (a - b - 1 + 1)%Z with (a - b)%Z by lia.
    apply Qnot_le_lt. intros H. apply Qle_bool_iff in H. congruence.
Qed.

Lemma rne_bounds y : inject_Z (rne y) <= y + (1 # 2) /\ y - (1 # 2) <= inject_Z (rne y).
Proof.
  unfold rne. pose proof (Qfloor_le y) as H1. pose proof (Qlt_floor y) as H2.
  rewrite inject_Z_plus in H2. change (inject_Z 1) with 1 in H2.
  destruct (Qcompare (y - inject_Z (Qfloor y)) (1 # 2)) eqn:Hc.
  - apply Qeq_alt in Hc.
    destruct (Z.even (Qfloor y)); rewrite ?inject_Z_plus; change (inject_Z 1) with 1;
      split; lra.
  - apply Qlt_alt in Hc. split; lra.
  - apply Qgt_alt in Hc. rewrite inject_Z_plus. change (inject_Z 1) with 1. split; lra.
Qed.

Lemma rne_floor y : (Qfloor y <= rne y <= Qfloor y + 1)%Z.
Proof.
  unfold rne. destruct (Qcompare _ _); [destruct (Z.even _)| |]; lia.
Qed.

Lemma rne_monotone y y' : y <= y' -> (rne y <= rne y')%Z.
Proof.
  intros H. pose proof (Qfloor_resp_le _ _ H) as Hf.
  destruct (Z.eq_dec (Qfloor y) (Qfloor y')) as [Heq|Hne].
  - unfold rne. rewrite <- Heq.
    destruct (Qcompare (y - inject_Z (Qfloor y)) (1 # 2)) eqn:Hc;
      destruct (Qcompare (y' - inject_Z (Qfloor y)) (1 # 2)) eqn:Hc';
      try (destruct (Z.even (Qfloor y))); try lia; exfalso;
      first [apply Qeq_alt in Hc|apply Qlt_alt in Hc|apply Qgt_alt in Hc];
      first [apply Qeq_alt in Hc'|apply Qlt_alt in Hc'|apply Qgt_alt in Hc'];
      lra.
  - pose proof (rne_floor y). pose proof (rne_floor y'). lia.
Qed.

Lemma rne_inject m : rne (inject_Z m) = m.
Proof.
  unfold rne. rewrite Qfloor_Z.
  assert (Qcompare (inject_Z m - inject_Z m) (1 # 2) = Lt) as ->; [|reflexivity].
  apply Qlt_alt. assert (inject_Z m - inject_Z m == 0) as -> by ring. reflexivity.
Qed.

Lemma rne_nonneg y : 0 <= y -> (0 <= rne y)%Z.
Proof. intros H. change 0%Z with (rne (inject_Z 0)) at 1. rewrite rne_inject. 
  change 0%Z with (rne (inject_Z 0)). apply rne_monotone. exact H. Qed.

Lemma round_positive_nonneg x : 0 < x -> 0 <= round_positive x.
Proof.
  intros Hx. unfold round_positive.
  apply Qmult_le_0_compat; [|apply Qlt_le_weak, pow2_pos].
  change 0 with (inject_Z 0). rewrite <- Zle_Qle. apply rne_nonneg.
  apply Qlt_le_weak. apply Qlt_shift_div_l; [apply pow2_pos|]. lra.
Qed.

Lemma scaled_upper x : 0 < x ->
  x / 2 ^ Z.max (ilog2 x - 52) (-1074) < 2 ^ 53.
Proof.
  intros Hx. destruct (ilog2_spec x Hx) as [_ Hup].
  apply Qlt_shift_div_r; [apply pow2_pos|].
  apply Qlt_le_trans with (2 ^ (ilog2 x + 1)); [exact Hup|].
  rewrite <- pow2_plus. apply pow2_le. lia.
Qed.

Lemma scaled_lower x : 0 < x -> (-1074 <= ilog2 x - 52)%Z ->
  2 ^ 52 <= x / 2 ^ Z.max (ilog2 x - 52) (-1074).
Proof.
  intros Hx He. destruct (ilog2_spec x Hx) as [Hlow _].
  apply Qle_shift_div_l; [apply pow2_pos|].
  apply Qle_trans with (2 ^ ilog2 x); [|exact Hlow].
  rewrite <- pow2_plus. apply pow2_le. lia.
Qed.

Lemma scaled_ge a x p : 0 < p -> a <= x / p -> a * p <= x.
Proof.
  intros Hp H. apply Qle_trans with (x / p * p).
  - apply Qmult_le_compat_r; [exact H|apply Qlt_le_weak, Hp].
  - rewrite Qmult_comm, Qmult_div_r; [apply Qle_refl|]. intros E. rewrite E in Hp. discriminate.
Qed.

Lemma scaled_lt a x p : 0 < p -> x / p < a -> x < a * p.
Proof.
  intros Hp H. apply Qle_lt_trans with (x / p * p).
  - rewrite Qmult_comm, Qmult_div_r; [apply Qle_refl|]. intros E. rewrite E in Hp. discriminate.
  - apply Qmult_lt_compat_r; assumption.
Qed.

Lemma round_positive_monotone x y :
  0 < x -> x <= y -> round_positive x <= round_positive y.
Proof.
  intros Hx Hxy. assert (0 < y) as Hy by lra.
  unfold round_positive.
  set (ex := Z.max (ilog2 x - 52) (-1074)). set (ey := Z.max (ilog2 y - 52) (-1074)).
  pose proof (scaled_upper x Hx) as Hux. fold ex in Hux.
  pose proof (scaled_upper y Hy) as Huy. fold ey in Huy.
  destruct (Z.lt_trichotomy ex ey) as [Hlt|[Heq|Hgt]].
  - (* the exponent of y is larger, so y is a normal number above x *)
    assert (-1074 <= ilog2 y - 52)%Z as Hn by lia.
    pose proof (scaled_lower y Hy Hn) as Hly. fold ey in Hly.
    apply Qle_trans with (2 ^ 53 * 2 ^ ex).
    + apply Qmult_le_compat_r; [|apply Qlt_le_weak, pow2_pos].
      rewrite <- (pow2_inject 53) by lia. rewrite <- Zle_Qle.
      rewrite <- (rne_inject (2 ^ 53)). apply rne_monotone.
      rewrite pow2_inject by lia. apply Qlt_le_weak. exact Hux.
    + apply Qle_trans with (2 ^ 52 * 2 ^ ey).
      * rewrite <- !pow2_plus. apply pow2_le. lia.
      * apply Qmult_le_compat_r; [|apply Qlt_le_weak, pow2_pos].
        rewrite <- (pow2_inject 52) by lia. rewrite <- Zle_Qle.
        rewrite <- (rne_inject (2 ^ 52)) at 1. apply rne_monotone.
        rewrite pow2_inject by lia. exact Hly.
  - rewrite <- Heq. apply Qmult_le_compat_r; [|apply Qlt_le_weak, pow2_pos].
    rewrite <- Zle_Qle. apply rne_monotone.
    apply Qmult_le_compat_r; [exact Hxy|]. apply Qlt_le_weak, Qinv_lt_0_compat, pow2_pos.
  - (* impossible: x would be a normal number above y *)
    exfalso. assert (-1074 <= ilog2 x - 52)%Z as Hn by lia.
    pose proof (scaled_lower x Hx Hn) as Hlx. fold ex in Hlx.
    apply scaled_ge in Hlx; [|apply pow2_pos].
    apply scaled_lt in Huy; [|apply pow2_pos].
    rewrite <- pow2_plus in Hlx, Huy.
    assert (2 ^ (53 + ey) <= 2 ^ (52 + ex)) by (apply pow2_le; lia).
    lra.
Qed.

Lemma Qnum_pos x p : Qnum x = Z.pos p -> 0 < x.
Proof. destruct x as [n d]. cbn. intros ->. reflexivity. Qed.

Lemma Qnum_neg x p : Qnum x = Z.neg p -> x < 0.
Proof. destruct x as [n d]. cbn. intros ->. reflexivity. Qed.

Lemma Qnum_zero x : Qnum x = 0%Z -> x == 0.
Proof. destruct x as [n d]. cbn. intros ->. reflexivity. Qed.

Lemma round_binary64_negative x :
  x < 0 -> round_binary64 x = - round_positive (- x).
Proof.
  destruct x as [[|p|p] d]; intros H; try reflexivity; discriminate H.
Qed.

Lemma round_binary64_positive x :
  0 < x -> round_binary64 x = round_positive x.
Proof.
  destruct x as [[|p|p] d]; intros H; try reflexivity; discriminate H.
Qed.

Lemma round_binary64_zero x : x == 0 -> round_binary64 x = 0.
Proof.
  destruct x as [[|p|p] d]; intros H; try reflexivity; discriminate H.
Qed.

(** Rounding is monotone. *)
Lemma round_binary64_monotone x y :
  x <= y -> round_binary64 x <= round_binary64 y.
Proof.
  intros Hxy.
  destruct (Q_dec x 0) as [[Hx|Hx]|Hx], (Q_dec y 0) as [[Hy|Hy]|Hy];
    rewrite ?(round_binary64_negative x Hx), ?(round_binary64_positive x Hx),
            ?(round_binary64_zero x Hx),
            ?(round_binary64_negative y Hy), ?(round_binary64_positive y Hy),
            ?(round_binary64_zero y Hy);
    try (exfalso; lra).
  - apply Qopp_le_compat. apply round_positive_monotone; lra.
  - pose proof (round_positive_nonneg (- x)). pose proof (round_positive_nonneg y). lra.
  - pose proof (round_positive_nonneg (- x)). lra.
  - apply round_positive_monotone; assumption.
  - apply round_positive_nonneg. exact Hy.
  - apply Qle_refl.
Qed.

(** Against a bound that is a double, the comparison of a rounded value
    is that of the value, up to the gap between the bound and the next
    double. *)
Lemma greater_than_below (x c : Q) :
  round_binary64 c == c -> Qabs c < 2 ^ 1024 -> x <= c ->
  greater_than (to_float x) c = false.
Proof.
  intros Hc Hfin Hx. pose proof (round_binary64_monotone x c Hx) as Hr.
  rewrite Hc in Hr. unfold to_float.
  destruct (Qle_bool (2 ^ 1024) (Qabs (round_binary64 x))) eqn:Hov; cbn [greater_than].
  - apply Qle_bool_iff in Hov. apply negb_false_iff. apply Qle_bool_iff.
    destruct (Qlt_le_dec 0 (round_binary64 x)) as [Hpos|Hneg]; [|exact Hneg].
    exfalso. rewrite Qabs_pos in Hov by lra.
    assert (c <= Qabs c) by apply Qle_Qabs. lra.
  - destruct (Qcompare (round_binary64 x) c) eqn:E; try reflexivity.
    apply Qgt_alt in E. lra.
Qed.

Lemma greater_than_above (x c c' : Q) :
  round_binary64 c' == c' -> c < c' -> Qabs c < 2 ^ 1024 -> c' <= x ->
  greater_than (to_float x) c = true.
Proof.
  intros Hc Hgap Hfin Hx. pose proof (round_binary64_monotone c' x Hx) as Hr.
  rewrite Hc in Hr. unfold to_float.
  destruct (Qle_bool (2 ^ 1024) (Qabs (round_binary64 x))) eqn:Hov; cbn [greater_than].
  - apply negb_true_iff. destruct (Qle_bool (round_binary64 x) 0) eqn:Hneg; [|reflexivity].
    apply Qle_bool_iff in Hneg, Hov. exfalso.
    assert (- Qabs c <= c) by (rewrite <- (Qopp_involutive c) at 2; apply Qopp_le_compat;
                               rewrite <- Qabs_opp; apply Qle_Qabs).
    assert (0 <= Qabs c) by apply Qabs_nonneg.
    rewrite Qabs_neg in Hov by exact Hneg. lra.
  - destruct (Qcompare (round_binary64 x) c) eqn:E; try reflexivity; exfalso.
    + apply Qeq_alt in E. lra.
    + apply Qlt_alt in E. lra.
Qed.

(** A comparison that holds of a difference holds of every larger one. *)
Lemma greater_than_monotone (x y c : Q) :
  x <= y -> greater_than (to_float x) c = true -> greater_than (to_float y) c = true.
Proof.
  intros Hxy. pose proof (round_binary64_monotone x y Hxy) as Hr.
  assert (0 < 2 ^ 1024) as Hbig by reflexivity.
  unfold to_float.
  destruct (Qle_bool (2 ^ 1024) (Qabs (round_binary64 x))) eqn:Hx;
    destruct (Qle_bool (2 ^ 1024) (Qabs (round_binary64 y))) eqn:Hy;
    cbn [greater_than]; intros H.
  - apply negb_true_iff in H. apply negb_true_iff.
    destruct (Qle_bool (round_binary64 y) 0) eqn:Hneg; [|reflexivity].
    apply Qle_bool_iff in Hneg.
    assert (~ round_binary64 x <= 0) as Hpos
      by (intros Hle; apply Qle_bool_iff in Hle; congruence).
    exfalso. lra.
  - apply negb_true_iff in H.
    assert (~ round_binary64 x <= 0) as Hpos
      by (intros Hle; apply Qle_bool_iff in Hle; congruence).
    apply Qle_bool_iff in Hx. rewrite Qabs_pos in Hx by lra.
    assert (~ 2 ^ 1024 <= Qabs (round_binary64 y)) as Hsmall
      by (intros Hle; apply Qle_bool_iff in Hle; congruence).
    rewrite Qabs_pos in Hsmall by lra. exfalso. lra.
  - apply negb_true_iff. destruct (Qle_bool (round_binary64 y) 0) eqn:Hneg; [|reflexivity].
    apply Qle_bool_iff in Hneg, Hy. rewrite Qabs_neg in Hy by exact Hneg.
    assert (~ 2 ^ 1024 <= Qabs (round_binary64 x)) as Hsmall
      by (intros Hle; apply Qle_bool_iff in Hle; congruence).
    rewrite Qabs_neg in Hsmall by lra. exfalso. lra.
  - destruct (Qcompare (round_binary64 x) c) eqn:E; try discriminate.
    apply Qgt_alt in E.
    assert (c < round_binary64 y) as Hlt by lra.
    apply Qgt_alt in Hlt. rewrite Hlt. reflexivity.
Qed.

(** The expiry time of the PiP record is a double, and so is the number
    that follows it, [2^-32] further on. *)
Lemma expiry_is_a_double : round_binary64 1800000 == 1800000.
Proof. vm_compute. reflexivity. Qed.

Lemma next_after_expiry :
  round_binary64 (1800000 + (1 # 4294967296)) == 1800000 + (1 # 4294967296).
Proof. vm_compute. reflexivity. Qed.

(** A record is expired when its age is at least the double after
    1800000, and not expired when it is at most 1800000. *)
Lemma age_expired now timestamp :
  1800000 + (1 # 4294967296) <= now - timestamp ->
  greater_than (subtract now timestamp) 1800000 = true.
Proof.
  intros H. unfold subtract.
  apply (greater_than_above _ _ _ next_after_expiry); [reflexivity|reflexivity|exact H].
Qed.

Lemma age_fresh now timestamp :
  now - timestamp <= 1800000 ->
  greater_than (subtract now timestamp) 1800000 = false.
Proof.
  intros H. unfold subtract.
  apply (greater_than_below _ _ expiry_is_a_double); [reflexivity|exact H].
Qed.

End Rounding.

(* ===================================================================== *)
(** * The persisted PiP record *)
(* ===================================================================== *)

Lemma Qgtb_length (n : nat) : Qgtb (inject_Z (Z.of_nat n)) 5 = Nat.ltb 5 n.
Proof.
  unfold Qgtb, Qcompare. cbn [Qnum Qden inject_Z]. rewrite !Z.mul_1_r.
  destruct (Z.compare_spec (Z.of_nat n) 5); destruct (Nat.ltb_spec 5 n);
    try reflexivity; lia.
Qed.

Lemma object_check c : truthy c && String.eqb (typeof c) "object" = is_object c.
Proof. destruct c; simpl; try reflexivity; apply andb_false_r. Qed.

Lemma string_check v : String.eqb (typeof v) "string" = is_string v.
Proof. destruct v; reflexivity. Qed.

Lemma number_check v : String.eqb (typeof v) "number" = is_number v.
Proof. destruct v; reflexivity. Qed.

Lemma streamUrl_check u :
  String.eqb (typeof u) "string"
  && match get u "length" with VNum n => Qgtb n 5 | _ => false end
  = match u with VStr s => Nat.ltb 5 (String.length s) | _ => false end.
Proof. destruct u; try reflexivity. simpl. apply Qgtb_length. Qed.

(** [isValidPipState] accepts exactly the structurally valid records. *)
Lemma isValidPipState_spec state :
  truthy (isValidPipState state) = structurally_valid state.
Proof.
  unfold isValidPipState, structurally_valid.
  destruct (truthy state) eqn:Hstate; simpl.
  - rewrite !truthy_and_js. simpl.
    rewrite object_check, string_check, number_check, streamUrl_check.
    destruct (is_object _), (is_string _); reflexivity.
  - destruct state; try reflexivity; discriminate.
Qed.

Lemma getItem_removeItem k s : getItem k (removeItem k s) = None.
Proof. unfold getItem, removeItem. simpl. apply lookup_delete_eq. Qed.

(** C1 (as amended): a stored record whose timestamp lies 1,800,000 ms
    and one rounding step ([2^-32] ms) or more before the current time makes
    [loadPipState] return [null] and leaves the slot removed; so does, in
    particular, every record stamped in whole milliseconds (as
    [savePipState] stamps them) more than 1,800,000 ms before a current
    time in whole milliseconds.  A structurally valid record at most
    1,800,000 ms old is returned as stored, and the store is left as it
    was. *)
Theorem C1_expiry_of_persisted_record :
  (forall (now : Q) (s : SessionStorage) (state : Value) (timestamp : Q),
      getItem PIP_STATE_KEY s = Some (Json state) ->
      get state "timestamp" = VNum timestamp ->
      (1800000 + (1 # 4294967296) <= now - timestamp)%Q ->
      loadPipState now s = (None, removeItem PIP_STATE_KEY s)
      /\ getItem PIP_STATE_KEY (removeItem PIP_STATE_KEY s) = None)
  /\ (forall (now timestamp : Z) (s : SessionStorage) (state : Value),
      getItem PIP_STATE_KEY s = Some (Json state) ->
      get state "timestamp" = VNum (inject_Z timestamp) ->
      (1800000 < now - timestamp)%Z ->
      loadPipState (inject_Z now) s = (None, removeItem PIP_STATE_KEY s)
      /\ getItem PIP_STATE_KEY (removeItem PIP_STATE_KEY s) = None)
  /\ (forall (now : Q) (s : SessionStorage) (state : Value) (timestamp : Q),
      getItem PIP_STATE_KEY s = Some (Json state) ->
      structurally_valid state = true ->
      get state "timestamp" = VNum timestamp ->
      (now - timestamp <= 1800000)%Q ->
      loadPipState now s = (Some state, s)).
Proof.
  assert (forall (now : Q) (s : SessionStorage) (state : Value) (timestamp : Q),
      getItem PIP_STATE_KEY s = Some (Json state) ->
      get state "timestamp" = VNum timestamp ->
      (1800000 + (1 # 4294967296) <= now - timestamp)%Q ->
      loadPipState now s = (None, removeItem PIP_STATE_KEY s)
      /\ getItem PIP_STATE_KEY (removeItem PIP_STATE_KEY s) = None) as Hold.
  { intros now s state ts Hget Hts Hold. split; [|apply getItem_removeItem].
    unfold loadPipState. rewrite Hget. simpl.
    destruct (truthy (isValidPipState state)); simpl; [|reflexivity].
    rewrite Hts. change PIP_EXPIRY_TIME with 1800000%Q.
    rewrite (age_expired _ _ Hold). reflexivity. }
  split; [exact Hold|]. split.
  - intros now ts s state Hget Hts Hlate. apply (Hold _ _ _ _ Hget Hts).
    assert (inject_Z 1800001 <= inject_Z (now - ts))%Q as H
      by (rewrite <- Zle_Qle; lia).
    unfold Zminus in H. rewrite inject_Z_plus, inject_Z_opp in H.
    apply Qle_trans with (inject_Z 1800001); [|exact H].
    unfold Qle. simpl. lia.
  - intros now s state ts Hget Hv Hts Hyoung.
    unfold loadPipState. rewrite Hget. simpl.
    rewrite isValidPipState_spec, Hv. simpl. rewrite Hts.
    change PIP_EXPIRY_TIME with 1800000%Q.
    rewrite (age_fresh _ _ Hyoung). reflexivity.
Qed.

(** The record written at time 1,000,000 is gone when read 31 minutes later
    and returned when read one minute later. *)
Lemma C1_expiry_of_persisted_record_witness :
  (loadPipState 2860000 (store_with news_record)
   = (None, removeItem PIP_STATE_KEY (store_with news_record))
   /\ getItem PIP_STATE_KEY (removeItem PIP_STATE_KEY (store_with news_record)) = None)
  /\ (loadPipState (inject_Z 2860000) (store_with news_record)
      = (None, removeItem PIP_STATE_KEY (store_with news_record))
      /\ getItem PIP_STATE_KEY (removeItem PIP_STATE_KEY (store_with news_record)) = None)
  /\ loadPipState 1060000 (store_with news_record)
     = (Some news_record, store_with news_record).
Proof.
  split; [|split].
  - apply (proj1 C1_expiry_of_persisted_record 2860000%Q (store_with news_record)
                 news_record 1000000%Q); try reflexivity.
    unfold Qle. simpl. lia.
  - apply (proj1 (proj2 C1_expiry_of_persisted_record) 2860000%Z 1000000%Z
                 (store_with news_record) news_record); try reflexivity.
  - apply (proj2 (proj2 C1_expiry_of_persisted_record) 1060000%Q
                 (store_with news_record) news_record 1000000%Q); try reflexivity.
    unfold Qle. simpl. lia.
Defined.

(** C1, as stated, fails: a record stamped [2^-40] ms before time 0 is more
    than 1,800,000 ms old at time 1,800,000, and [loadPipState] returns it,
    because the age the code computes is a double and rounds to 1,800,000. *)
Lemma C1_age_is_rounded :
  getItem PIP_STATE_KEY (store_with early_record) = Some (Json early_record)
  /\ get early_record "timestamp" = VNum (- (1 # 1099511627776))
  /\ (1800000 < 1800000 - - (1 # 1099511627776))%Q
  /\ loadPipState 1800000 (store_with early_record)
     = (Some early_record, store_with early_record).
Proof. vm_compute. repeat split. Qed.

(** C2: a stored record that fails structural validation (no channel
    object, a channel name that is not a string, a stream URL that is not a
    string longer than 5, or a timestamp that is not a number) makes
    [loadPipState] return [null] and leaves the slot removed; and whatever
    [loadPipState] returns passes that validation. *)
Theorem C2_invalid_record_is_discarded :
  (forall (now : Q) (s : SessionStorage) (state : Value),
      getItem PIP_STATE_KEY s = Some (Json state) ->
      structurally_valid state = false ->
      loadPipState now s = (None, removeItem PIP_STATE_KEY s)
      /\ getItem PIP_STATE_KEY (removeItem PIP_STATE_KEY s) = None)
  /\ (forall (now : Q) (s s' : SessionStorage) (state : Value),
        loadPipState now s = (Some state, s') ->
        structurally_valid state = true).
Proof.
  split.
  - intros now s state Hget Hinv. split; [|apply getItem_removeItem].
    unfold loadPipState. rewrite Hget. simpl.
    rewrite isValidPipState_spec, Hinv. reflexivity.
  - intros now s s' state. unfold loadPipState.
    destruct (getItem PIP_STATE_KEY s) as [t|]; [|discriminate].
    destruct (negb (text_truthy t)); [discriminate|].
    destruct (JSON_parse t) as [v|]; [|discriminate].
    rewrite isValidPipState_spec.
    destruct (structurally_valid v) eqn:Hv; simpl; [|discriminate].
    destruct (get v "timestamp"); try (intros [= <- _]; exact Hv).
    destruct (greater_than _ _); [discriminate|]. intros [= <- _]; exact Hv.
Qed.

(** A record with a four-character stream URL is discarded; the record that
    is returned is structurally valid. *)
Lemma C2_invalid_record_is_discarded_witness :
  (loadPipState 1060000 (store_with short_url_record)
   = (None, removeItem PIP_STATE_KEY (store_with short_url_record))
   /\ getItem PIP_STATE_KEY (removeItem PIP_STATE_KEY (store_with short_url_record))
      = None)
  /\ structurally_valid news_record = true.
Proof.
  split.
  - apply (proj1 C2_invalid_record_is_discarded 1060000%Q
                 (store_with short_url_record) short_url_record); reflexivity.
  - apply (proj2 C2_invalid_record_is_discarded 1060000%Q (store_with news_record)
                 (store_with news_record) news_record). reflexivity.
Defined.




(** Shape of the text [JSON.stringify] produces for the saved state. *)
Lemma stringify_saved_state now channel streamUrl options text :
  JSON_stringify (saved_state now channel streamUrl options) = Some text ->
  exists record opts,
    text = Json record
    /\ get record "options" = VObj opts
    /\ json_fields (sanitizedOptions options) = Some opts
    /\ get record "timestamp" = VNum now
    /\ get record "version" = VStr "1.0".
Proof.
  unfold JSON_stringify, saved_state. rewrite json_of_obj.
  rewrite !json_fields_cons. rewrite json_of_obj.
  change (json_fields []) with (Some (@nil (string * Value))).
  change (json_of (VNum now)) with (JVal (VNum now)).
  change (json_of (VStr "1.0")) with (JVal (VStr "1.0")).
  destruct (json_fields (sanitizedOptions options)) as [opts|] eqn:Hopts.
  - destruct (json_of (cleanedChannel channel)) as [| |c]; [discriminate| |];
      (destruct (json_of streamUrl) as [| |u]; [discriminate| |]);
      intros [= <-]; eexists _, opts; repeat split; reflexivity.
  - destruct (json_of (cleanedChannel channel)) as [| |c]; [discriminate| |];
      (destruct (json_of streamUrl) as [| |u]; discriminate).
Qed.




(* ===================================================================== *)
(** * Resolution of a channel reference *)
(* ===================================================================== *)

Lemma endsWith_append suffix stem : endsWith suffix (stem ++ suffix) = true.
Proof.
  induction stem as [|c stem IH].
  - change ("" ++ suffix) with suffix.
    destruct suffix; cbn [endsWith]; rewrite String.eqb_refl; reflexivity.
  - change (String c stem ++ suffix) with (String c (stem ++ suffix)).
    cbn [endsWith]. rewrite IH. apply orb_true_r.
Qed.



Section Resolution.
(** The browser and the directory the page runs against. *)
Variable P : Platform.
Variable D : Directory.

Lemma cache_wf_empty : cache_wf P ∅.
Proof. intros k v H. rewrite lookup_empty in H. discriminate. Qed.

Lemma isDirectStreamUrl_wf url c :
  cache_wf P c -> cache_wf P (snd (isDirectStreamUrl P url c)).
Proof.
  intros Hwf. unfold isDirectStreamUrl.
  destruct (String.eqb url "") eqn:Hne; [exact Hwf|]. apply String.eqb_neq in Hne.
  destruct (c !! url) as [cached|] eqn:Hc; [exact Hwf|].
  assert (cache_wf P (<[url := VBool (direct_verdict P url)]> c)) as H.
  { intros k v. rewrite lookup_insert. case_decide as Hk.
    - subst k. intros [= <-]. left. split; [assumption|reflexivity].
    - apply Hwf. }
  unfold direct_verdict in H. destruct (new_URL P url); exact H.
Qed.

Lemma extractChannelId_wf id c :
  cache_wf P c -> cache_wf P (snd (extractChannelId P id c)).
Proof.
  intros Hwf. unfold extractChannelId.
  destruct (String.eqb id "") eqn:Hne; [exact Hwf|]. apply String.eqb_neq in Hne.
  destruct (c !! channelId_key id) as [cached|] eqn:Hc; [exact Hwf|].
  assert (cache_wf P (<[channelId_key id := VStr id]> c)) as H.
  { intros k v. rewrite lookup_insert. case_decide as Hk.
    - subst k. intros [= <-]. right. exists id. auto.
    - apply Hwf. }
  destruct (new_URL P id); exact H.
Qed.

Lemma recognized_direct url u :
  new_URL P url = Some u ->
  ends_in_recognized_extension (pathname u) ->
  direct_verdict P url = true.
Proof.
  intros Hu (stem & ext & Hext & Hpath). unfold direct_verdict. rewrite Hu. simpl.
  rewrite Hpath.
  destruct Hext as [<-|[<-|[<-|[]]]]; rewrite endsWith_append;
    rewrite ?orb_true_r; reflexivity.
Qed.

(** Whatever the cache holds for a direct URL is truthy. *)
Lemma isDirectStreamUrl_verdict url c :
  cache_wf P c -> url <> "" ->
  direct_verdict P url = true ->
  truthy (fst (isDirectStreamUrl P url c)) = true.
Proof.
  intros Hwf Hne Hd. unfold isDirectStreamUrl.
  apply String.eqb_neq in Hne. rewrite Hne.
  destruct (c !! url) as [cached|] eqn:Hc.
  - simpl. destruct (Hwf _ _ Hc) as [[_ ->]|(id & Hid & _ & ->)].
    + rewrite Hd. reflexivity.
    + simpl. apply String.eqb_neq in Hid. rewrite Hid. reflexivity.
  - unfold direct_verdict in Hd. destruct (new_URL P url); [|discriminate].
    simpl in *. exact Hd.
Qed.





(** C5: a reference whose URL path ends in a recognized extension is handed
    on unchanged as the stream URL, with [null] channel data, no channel
    set by the resolver, and no directory query. *)
Theorem C5_direct_url_needs_no_lookup
  (isMounted : bool) (id url : string) (u : URL)
  (c : gmap string Value) (st : Session)
  (Hcache : cache_wf P c)
  (Hdecoded : decodeURIComponent P id = Some url)
  (Hnonempty : url <> "")
  (Hurl : new_URL P url = Some u)
  (Hext : ends_in_recognized_extension (pathname u)) :
  let r := resolveAndLoadStream P D isMounted id c st in
  calls r = []
  /\ handed_over r = (if isMounted then Some (VStr url, VNull) else None)
  /\ (isMounted = true -> streamUrl (session r) = VStr url)
  /\ channel (session r) = channel st
  /\ error (session r) = "".
Proof.
  unfold resolveAndLoadStream. rewrite Hdecoded.
  pose proof (isDirectStreamUrl_verdict url c Hcache Hnonempty
                (recognized_direct _ _ Hurl Hext)) as Hd.
  destruct (isDirectStreamUrl P url c) as [direct c1]. simpl in Hd. rewrite Hd. simpl.
  unfold hand_over. destruct isMounted; simpl; repeat split; try reflexivity; discriminate.
Qed.

(** Every run of the resolver leaves the cache well formed, so every cache
    met in a page's lifetime is. *)
Lemma resolveAndLoadStream_wf isMounted id c st :
  cache_wf P c -> cache_wf P (cache (resolveAndLoadStream P D isMounted id c st)).
Proof.
  intros Hwf. unfold resolveAndLoadStream.
  destruct (decodeURIComponent P id) as [decodedId|];
    [|destruct isMounted; exact Hwf].
  pose proof (isDirectStreamUrl_wf decodedId c Hwf) as H1.
  destruct (isDirectStreamUrl P decodedId c) as [direct c1]. simpl in H1.
  destruct (negb (truthy direct));
    [|unfold hand_over; destruct isMounted; exact H1].
  pose proof (extractChannelId_wf decodedId c1 H1) as H2.
  destruct (extractChannelId P decodedId c1) as [channelId c2]. simpl in H2.
  destruct (truthy channelId);
    [|unfold hand_over; destruct isMounted; exact H2].
  unfold use_channelData, hand_over.
  destruct (negb (truthy (getChannelDetails D channelId))).
  - destruct (truthy (optional_url (findChannel D channelId)));
      [destruct isMounted|]; exact H2.
  - destruct (truthy (optional_url (getChannelDetails D channelId)));
      [destruct isMounted|]; exact H2.
Qed.

(** The resolver does not touch the retry counter. *)
Lemma resolveAndLoadStream_retryCount isMounted id c st :
  retryCount (session (resolveAndLoadStream P D isMounted id c st)) = retryCount st.
Proof.
  unfold resolveAndLoadStream.
  destruct (decodeURIComponent P id) as [decodedId|]; [|destruct isMounted; reflexivity].
  destruct (isDirectStreamUrl P decodedId c) as [direct c1].
  destruct (negb (truthy direct)); [|unfold hand_over; destruct isMounted; reflexivity].
  destruct (extractChannelId P decodedId c1) as [channelId c2].
  destruct (truthy channelId); [|unfold hand_over; destruct isMounted; reflexivity].
  unfold use_channelData, hand_over.
  destruct (negb (truthy (getChannelDetails D channelId)));
    (destruct (truthy (optional_url _));
     [destruct (truthy _ && isMounted), isMounted|]; reflexivity).
Qed.

End Resolution.



(** Opening [news_url] with an empty cache. *)
Lemma C5_direct_url_needs_no_lookup_witness :
  let r := resolveAndLoadStream example_platform split_directory true news_url ∅
                                initial_session in
  calls r = []
  /\ handed_over r = Some (VStr news_url, VNull)
  /\ (true = true -> streamUrl (session r) = VStr news_url)
  /\ channel (session r) = channel initial_session
  /\ error (session r) = "".
Proof.
  apply (C5_direct_url_needs_no_lookup example_platform split_directory true
           news_url news_url (mkURL "/live/news.m3u8" "tv.example") ∅
           initial_session).
  - apply cache_wf_empty.
  - reflexivity.
  - discriminate.
  - reflexivity.
  - exists "/live/news", ".m3u8". split; [left; reflexivity|reflexivity].
Defined.

(* ===================================================================== *)
(** * Manual retry *)
(* ===================================================================== *)







(* ===================================================================== *)
(** * Engine errors *)
(* ===================================================================== *)

(** The listener never reports an unreachable server: a manifest load error
    of the network category is taken by the CORS test before the switch on
    the error category is reached. *)
Lemma onHlsError_never_unreachable P E id cl data s :
  forallb (fun reason => negb (is_server_unreachable_reason reason))
          (invalid_reasons (onHlsError P E id cl data s)) = true.
Proof.
  unfold onHlsError.
  destruct (streamLoaded (captured cl) && video_playing cl); [reflexivity|].
  destruct (isCorsError data) eqn:Hcors; [reflexivity|].
  destruct (_ && _ && match Hls.error data with Some _ => _ | None => _ end);
    [reflexivity|].
  destruct (Hls.fatal data); [|reflexivity].
  destruct (String.eqb (Hls.type data) Hls.ErrorTypes.NETWORK_ERROR) eqn:Htype.
  - destruct (loading (captured cl) && negb (autoplayAttempted cl)); [reflexivity|].
    destruct (String.eqb (Hls.details data) Hls.ErrorDetails.MANIFEST_LOAD_ERROR)
      eqn:Hdet.
    + exfalso. unfold isCorsError in Hcors.
      change "networkError" with Hls.ErrorTypes.NETWORK_ERROR in Hcors.
      change "manifestLoadError" with Hls.ErrorDetails.MANIFEST_LOAD_ERROR in Hcors.
      rewrite Htype, Hdet in Hcors. rewrite !orb_true_r in Hcors. discriminate.
    + destruct (Hls.startLoad_throws E); reflexivity.
  - destruct (String.eqb (Hls.type data) Hls.ErrorTypes.MEDIA_ERROR).
    + destruct (Hls.recoverMediaError_throws E); reflexivity.
    + reflexivity.
Qed.

(** C9: the code at the failing input.  A fatal manifest load error with a
    zero-status response, in a session that has loaded once and is paused,
    is reported as a CORS restriction, with one earlier retry and with
    none: [handleInvalidStream] is not called, no reload is requested, and
    the session ends in the same error either way. *)
Theorem C9_unreachable_manifest_reported_as_cors :
  let with_retry :=
    onHlsError example_platform healthy_engine news_url (started_after 1)
               unreachable_manifest (captured (started_after 1)) in
  let without_retry :=
    onHlsError example_platform healthy_engine news_url (started_after 0)
               unreachable_manifest (captured (started_after 0)) in
  unreachable_signal unreachable_manifest = true
  /\ error (after with_retry) = "Stream access restricted (CORS policy)"
  /\ invalid_reasons with_retry = []
  /\ error (after without_retry) = "Stream access restricted (CORS policy)"
  /\ loading (after without_retry) = false
  /\ engine_actions without_retry = [].
Proof. repeat split. Qed.

(* ===================================================================== *)
(** * The Local Persistent Store *)
(* ===================================================================== *)

Section LocalStore.
Import IdbStorage.

Lemma enforceCacheSizeLimit_length c :
  List.length (enforceCacheSizeLimit c) <= CACHE_SIZE_LIMIT.
Proof.
  induction c as [|x rest IH]; cbn [enforceCacheSizeLimit]; [cbn; lia|].
  destruct (Nat.ltb_spec CACHE_SIZE_LIMIT (List.length (x :: rest))); [exact IH|lia].
Qed.

Lemma enforceCacheSizeLimit_sublist c : sublist (enforceCacheSizeLimit c) c.
Proof.
  induction c as [|x rest IH]; cbn [enforceCacheSizeLimit]; [constructor|].
  destruct (Nat.ltb _ _); [apply sublist_cons; exact IH|reflexivity].
Qed.

Lemma cache_set_length key e c :
  List.length (cache_set key e c) <= S (List.length c).
Proof.
  induction c as [|[k e'] rest IH]; cbn [cache_set List.length]; [lia|].
  destruct (String.eqb key k); cbn [List.length]; lia.
Qed.

Lemma cache_delete_length key c : List.length (cache_delete key c) <= List.length c.
Proof. apply filter_length_le. Qed.

Lemma cached_length key e c :
  List.length (cache_set key e (enforceCacheSizeLimit c)) <= 51.
Proof.
  etransitivity; [apply cache_set_length|].
  pose proof (enforceCacheSizeLimit_length c). unfold CACHE_SIZE_LIMIT in *. lia.
Qed.

(** One call keeps a cache of at most 51 entries at most that long. *)
Lemma call_cache_length C st op :
  List.length (cache st) <= 51 ->
  List.length (cache (call C st op)) <= 51.
Proof.
  intros Hst. destruct op as [now later key skipCache|now key value useCompression|key|now];
    cbn [call].
  - unfold IdbStorage.get.
    set (hit := if skipCache then None else cache_get key (cache st)).
    set (c1 := match hit with Some _ => cache_delete key (cache st) | None => cache st end).
    assert (List.length c1 <= 51) as Hc1.
    { subst c1. destruct hit; [|exact Hst].
      etransitivity; [apply cache_delete_length|exact Hst]. }
    destruct (match hit with
              | Some (value, expires) =>
                  if PipState.Qgtb expires now then Some value else None
              | None => None
              end); [exact Hst|].
    destruct (negb (readable st)); [exact Hc1|].
    destruct (db st !! key) as [[]|]; cbn [snd with_cache cache]; try exact Hc1;
      (destruct (cacheable _); [apply cached_length|exact Hc1]).
  - unfold IdbStorage.set.
    destruct (json_of value); try exact Hst.
    destruct (writable st && cloneable _); [|exact Hst].
    cbn [snd cache]. destruct (fits_cache _); [apply cached_length|exact Hst].
  - unfold remove. destruct (writable st); [|exact Hst].
    cbn [snd cache]. etransitivity; [apply cache_delete_length|exact Hst].
  - cbn [with_cache cache]. etransitivity; [apply filter_length_le|exact Hst].
Qed.

(** X23: the memory cache of the store never grows beyond fifty-one
    entries, one more than its limit of fifty: whatever calls are made, at
    whatever times, with whatever keys and values, and whether or not the
    database serves them, a cache of at most fifty-one entries stays one.
    (The limit is enforced before an entry is added, not after.) *)
Theorem X23_cache_holds_at_most_51_entries
  (C : Codec) (ops : list Call) (st : Store)
  (Hst : List.length (cache st) <= 51) :
  List.length (cache (calls C ops st)) <= 51.
Proof.
  unfold calls. revert st Hst. induction ops as [|op ops IH]; intros st Hst; [exact Hst|].
  cbn [fold_left]. apply IH. apply call_cache_length. exact Hst.
Qed.

(** Fifty-one writes under different keys fill the cache to fifty-one. *)
Lemma X23_cache_holds_at_most_51_entries_witness :
  List.length (cache (calls example_codec many_sets empty_idb)) <= 51
  /\ List.length (cache (calls example_codec many_sets empty_idb)) = 51.
Proof.
  split.
  - apply (X23_cache_holds_at_most_51_entries example_codec many_sets empty_idb).
    cbn. lia.
  - vm_compute. reflexivity.
Defined.

Lemma cache_get_key key c e : cache_get key c = Some e -> key ∈ map fst c.
Proof.
  induction c as [|[k e'] rest IH]; cbn [cache_get map fst]; [discriminate|].
  destruct (String.eqb_spec key k) as [->|_]; intros H.
  - apply list_elem_of_here.
  - apply list_elem_of_further, IH, H.
Qed.

(** In a cache without repeated keys, what a part of the cache holds for a
    key is what the cache holds for it. *)
Lemma cache_get_sublist key (c' c : Cache) e :
  sublist c' c -> NoDup (map fst c) ->
  cache_get key c' = Some e -> cache_get key c = Some e.
Proof.
  induction 1 as [|[k e0] c' c Hsub IH|[k e0] c' c Hsub IH]; intros Hnd Hget.
  - discriminate.
  - cbn [cache_get] in *. cbn [map fst] in Hnd. apply NoDup_cons in Hnd as [_ Hnd].
    destruct (String.eqb key k); [exact Hget|]. apply IH; assumption.
  - cbn [map fst] in Hnd. apply NoDup_cons in Hnd as [Hk Hnd].
    specialize (IH Hnd Hget). cbn [cache_get].
    destruct (String.eqb_spec key k) as [->|_]; [|exact IH].
    exfalso. apply Hk. eapply cache_get_key, IH.
Qed.

Lemma keys_sublist (c' c : Cache) :
  sublist c' c -> NoDup (map fst c) -> NoDup (map fst c').
Proof.
  intros Hsub Hnd. eapply sublist_NoDup; [exact Hnd|].
  clear Hnd. induction Hsub; cbn [map]; constructor; assumption.
Qed.

Lemma List_filter_sublist {A} (f : A -> bool) (l : list A) : sublist (List.filter f l) l.
Proof.
  induction l as [|x l IH]; cbn [List.filter]; [constructor|].
  destruct (f x); constructor; exact IH.
Qed.

Lemma cache_delete_sublist key c : sublist (cache_delete key c) c.
Proof. apply List_filter_sublist. Qed.

Lemma cleanCache_sublist now c : sublist (cleanCache now c) c.
Proof. apply List_filter_sublist. Qed.

Lemma cache_set_keys key e c x :
  x ∈ map fst (cache_set key e c) -> x = key \/ x ∈ map fst c.
Proof.
  induction c as [|[k e'] rest IH]; cbn [cache_set map fst].
  - intros H. apply list_elem_of_singleton in H. left. exact H.
  - destruct (String.eqb_spec key k) as [->|_]; cbn [map fst]; intros H.
    + right. exact H.
    + apply elem_of_cons in H as [->|H].
      * right. apply list_elem_of_here.
      * destruct (IH H) as [->|Hin]; [left; reflexivity|].
        right. apply list_elem_of_further. exact Hin.
Qed.

Lemma cache_set_NoDup key e c :
  NoDup (map fst c) -> NoDup (map fst (cache_set key e c)).
Proof.
  induction c as [|[k e'] rest IH]; cbn [cache_set map fst]; intros Hnd.
  - apply NoDup_singleton.
  - destruct (String.eqb_spec key k) as [->|Hne]; cbn [map fst]; [exact Hnd|].
    apply NoDup_cons in Hnd as [Hk Hnd]. apply NoDup_cons. split; [|apply IH, Hnd].
    intros Hin. destruct (cache_set_keys _ _ _ _ Hin) as [->|Hin']; [apply Hne; reflexivity|].
    apply Hk, Hin'.
Qed.

Lemma cache_get_set key k e c :
  cache_get key (cache_set k e c) = if String.eqb key k then Some e else cache_get key c.
Proof.
  induction c as [|[k' e'] rest IH]; cbn [cache_set cache_get].
  - destruct (String.eqb key k); reflexivity.
  - destruct (String.eqb_spec k k') as [<-|Hne]; cbn [cache_get].
    + destruct (String.eqb key k); reflexivity.
    + rewrite IH. destruct (String.eqb_spec key k') as [->|_]; [|reflexivity].
      destruct (String.eqb_spec k' k) as [->|_]; [exfalso; apply Hne; reflexivity|reflexivity].
Qed.

Lemma cache_get_delete key c : cache_get key (cache_delete key c) = None.
Proof.
  unfold cache_delete. induction c as [|[k e] rest IH]; [reflexivity|].
  cbn [List.filter fst]. destruct (String.eqb_spec key k) as [->|Hne]; cbn [negb]; [exact IH|].
  cbn [cache_get]. destruct (String.eqb_spec key k); [contradiction|exact IH].
Qed.

(** A cache made of a part of [c], and then set at [k]. *)
Lemma cache_set_part key k e c' c entry :
  sublist c' c -> NoDup (map fst c) ->
  cache_get key (cache_set k e c') = Some entry ->
  (k = key /\ entry = e) \/ (k <> key /\ cache_get key c = Some entry).
Proof.
  intros Hsub Hnd. rewrite cache_get_set.
  destruct (String.eqb_spec key k) as [->|Hne]; intros H.
  - left. split; congruence.
  - right. split; [congruence|]. eapply cache_get_sublist; eassumption.
Qed.

Lemma cached_NoDup key e c' c :
  sublist c' c -> NoDup (map fst c) ->
  NoDup (map fst (cache_set key e (enforceCacheSizeLimit c'))).
Proof.
  intros Hsub Hnd. apply cache_set_NoDup. eapply keys_sublist; [|exact Hnd].
  etransitivity; [apply enforceCacheSizeLimit_sublist|exact Hsub].
Qed.

(** The cache that [get] leaves after a stale or missing entry is a part
    of the cache it found. *)
Lemma get_c1_sublist key (hit : option (Value * Q)) c :
  sublist (match hit with Some _ => cache_delete key c | None => c end) c.
Proof. destruct hit; [apply cache_delete_sublist|reflexivity]. Qed.

Lemma get_c1_stale key c e :
  cache_get key (match cache_get key c with Some _ => cache_delete key c | None => c end)
  = Some e -> False.
Proof.
  destruct (cache_get key c) eqn:Hc.
  - rewrite cache_get_delete. discriminate.
  - rewrite Hc. discriminate.
Qed.

(** What the store remembers for a key is what a read of the key returns,
    at any time, from the cache or from the database. *)
Lemma remembers_get C key value st now later skipCache :
  remembers C key value st ->
  fst (IdbStorage.get C now later key skipCache st) = value.
Proof.
  intros (Hnd & Hread & (stored & Hdb & Hdef & Hdec) & Hcache).
  unfold IdbStorage.get.
  destruct (if skipCache then None else cache_get key (cache st)) as [[v expires]|] eqn:Hhit.
  - destruct (PipState.Qgtb expires now).
    + cbn [fst]. destruct skipCache; [discriminate|]. apply (Hcache _ Hhit).
    + rewrite Hread, Hdb. cbn [negb].
      destruct stored; try contradiction; try (destruct (cacheable _)); exact Hdec.
  - rewrite Hread, Hdb. cbn [negb].
    destruct stored; try contradiction; try (destruct (cacheable _)); exact Hdec.
Qed.

(** A call that neither writes nor removes the key leaves what the store
    remembers for it. *)
Lemma remembers_call C key value st op :
  touches key op = false ->
  remembers C key value st -> remembers C key value (call C st op).
Proof.
  intros Hop (Hnd & Hread & (stored & Hdb & Hdef & Hdec) & Hcache).
  destruct op as [now later k skipCache|now k v useCompression|k|now];
    cbn [call touches] in *.
  - unfold IdbStorage.get.
    set (hit := if skipCache then None else cache_get k (cache st)).
    pose proof (get_c1_sublist k hit (cache st)) as Hsub.
    set (c1 := match hit with Some _ => cache_delete k (cache st) | None => cache st end) in *.
    assert (remembers C key value (with_cache c1 st)) as Hc1.
    { split; [eapply keys_sublist; eassumption|].
      split; [exact Hread|]. split; [exists stored; auto|].
      intros e He. apply Hcache. eapply cache_get_sublist; eassumption. }
    destruct (match hit with
              | Some (value, expires) =>
                  if PipState.Qgtb expires now then Some value else None
              | None => None
              end).
    { cbn [snd]. repeat split; eauto. }
    rewrite Hread. cbn [negb].
    destruct (db st !! k) as [found|] eqn:Hfound; [|exact Hc1].
    assert (remembers C key value
              (with_cache (if cacheable (decode C found)
                           then cache_set k (decode C found, (later + CACHE_TTL)%Q)
                                          (enforceCacheSizeLimit c1)
                           else c1) st)) as Hc2.
    { destruct (cacheable (decode C found)); [|exact Hc1].
      split; [eapply cached_NoDup; eassumption|].
      split; [exact Hread|]. split; [exists stored; auto|].
      intros e He. cbn [with_cache cache] in He.
      apply (cache_set_part key k _ _ (cache st)) in He; [|
        etransitivity; [apply enforceCacheSizeLimit_sublist|exact Hsub] | exact Hnd].
      destruct He as [[-> ->]|[_ He]]; [|apply Hcache, He].
      cbn [fst]. rewrite Hdb in Hfound. injection Hfound as <-. exact Hdec. }
    destruct found; try exact Hc1; exact Hc2.
  - apply String.eqb_neq in Hop.
    unfold IdbStorage.set. destruct (json_of v); try (repeat split; eauto; fail).
    destruct (writable st && cloneable _); [|repeat split; eauto].
    cbn [snd]. split; [|split; [exact Hread|split]].
    + cbn [cache]. destruct (fits_cache _); [|exact Hnd].
      eapply cached_NoDup; [reflexivity|exact Hnd].
    + exists stored. cbn [db]. rewrite lookup_insert_ne by exact Hop. auto.
    + cbn [cache]. intros e He. destruct (fits_cache _); [|apply Hcache, He].
      apply (cache_set_part key k _ _ (cache st)) in He;
        [|apply enforceCacheSizeLimit_sublist|exact Hnd].
      destruct He as [[-> _]|[_ He]]; [exfalso; apply Hop; reflexivity|apply Hcache, He].
  - apply String.eqb_neq in Hop.
    unfold remove. destruct (writable st); [|repeat split; eauto].
    cbn [snd]. split; [|split; [exact Hread|split]].
    + cbn [cache]. eapply keys_sublist; [apply cache_delete_sublist|exact Hnd].
    + exists stored. cbn [db]. rewrite lookup_delete_ne by exact Hop. auto.
    + cbn [cache]. intros e He. apply Hcache.
      eapply cache_get_sublist; [apply cache_delete_sublist|exact Hnd|exact He].
  - split; [|split; [exact Hread|split]].
    + cbn [with_cache cache]. eapply keys_sublist; [apply cleanCache_sublist|exact Hnd].
    + exists stored. auto.
    + cbn [with_cache cache]. intros e He. apply Hcache.
      eapply cache_get_sublist; [apply cleanCache_sublist|exact Hnd|exact He].
Qed.

Lemma remembers_calls C key value ops st :
  forallb (fun op => negb (touches key op)) ops = true ->
  remembers C key value st -> remembers C key value (calls C ops st).
Proof.
  unfold calls. revert st. induction ops as [|op ops IH]; intros st Hops Hst; [exact Hst|].
  cbn [forallb] in Hops. apply andb_true_iff in Hops as [Hop Hops].
  cbn [fold_left]. apply IH; [exact Hops|]. apply remembers_call; [|exact Hst].
  apply negb_true_iff. exact Hop.
Qed.

Lemma json_of_defined value j : json_of value = JVal j -> value <> VUndefined.
Proof. intros H ->. cbn in H. discriminate. Qed.

Lemma decode_plain C value : marked value = false -> decode C value = value.
Proof.
  destruct value; try reflexivity. cbn [marked decode]. intros ->. reflexivity.
Qed.

Lemma small_fits s : (N.of_nat (String.length s) <= 10000)%N -> fits_cache s = true.
Proof. intros H. unfold fits_cache. apply N.ltb_lt. lia. Qed.

Lemma small_stored_plain C value s :
  (N.of_nat (String.length s) <= 10000)%N -> storableValue C value s false = value.
Proof.
  intros H. unfold storableValue. cbn [orb].
  destruct (N.ltb_spec 10000 (N.of_nat (String.length s))); [lia|]. reflexivity.
Qed.

(** X24: what was written is what is read.  After [set] has stored a value
    under a key (without compression, the JSON text of the value at most
    10000 characters long, the value not a string that starts with the
    marker [CMPR:]), a [get] of the key returns that value: at any later
    time, with or without the cache, and after any calls that do not write
    or remove the key, as long as the database serves reads and the cache
    has no key twice. *)
Theorem X24_store_reads_back_what_was_written
  (C : Codec) (now : Q) (key : string) (value j : Value) (st st1 : Store)
  (ops : list Call) (now' later' : Q) (skipCache : bool)
  (Hcache : NoDup (map fst (cache st)))
  (Hreadable : readable st = true)
  (Hjson : json_of value = JVal j)
  (Hsmall : (N.of_nat (String.length (json_text C j)) <= 10000)%N)
  (Hplain : marked value = false)
  (Hset : IdbStorage.set C now key value false st = (true, st1))
  (Hothers : forallb (fun op => negb (touches key op)) ops = true) :
  fst (IdbStorage.get C now' later' key skipCache (calls C ops st1)) = value.
Proof.
  apply remembers_get. apply remembers_calls; [exact Hothers|].
  unfold IdbStorage.set in Hset. rewrite Hjson in Hset.
  rewrite (small_stored_plain _ _ _ Hsmall), (small_fits _ Hsmall) in Hset.
  destruct (writable st && cloneable value); [|discriminate].
  injection Hset as <-. split; [|split; [exact Hreadable|split]].
  - cbn [cache]. eapply cached_NoDup; [reflexivity|exact Hcache].
  - exists value. cbn [db]. rewrite lookup_insert_eq.
    split; [reflexivity|]. split; [eapply json_of_defined, Hjson|apply decode_plain, Hplain].
  - cbn [cache]. intros e He. rewrite cache_get_set, String.eqb_refl in He.
    injection He as <-. reflexivity.
Qed.

(** A value written to the empty store is read back after a cache sweep,
    a read and a write under other keys, and long after the cache entry
    has expired. *)
Lemma X24_store_reads_back_what_was_written_witness :
  fst (IdbStorage.get example_codec 900000 900001 "favorites" false
         (calls example_codec
            [call_cleanCache 500000; call_get 1 2 "history" false;
             call_set 3 "history" (VArr []) true]
            (snd (IdbStorage.set example_codec 0 "favorites"
                    (VArr [VObj [("id", VStr "bbc")]]) false empty_idb))))
  = VArr [VObj [("id", VStr "bbc")]].
Proof.
  apply (X24_store_reads_back_what_was_written example_codec 0 "favorites"
           (VArr [VObj [("id", VStr "bbc")]]) (VArr [VObj [("id", VStr "bbc")]])
           empty_idb).
  - apply NoDup_nil_2.
  - reflexivity.
  - reflexivity.
  - vm_compute. discriminate.
  - reflexivity.
  - reflexivity.
  - reflexivity.
Defined.

Lemma json_of_string s : json_of (VStr s) = JVal (VStr s).
Proof. reflexivity. Qed.

Lemma large_misses s : (500000 <= N.of_nat (String.length s))%N -> fits_cache s = false.
Proof. intros H. unfold fits_cache. apply N.ltb_ge. exact H. Qed.

(** X25: a value too large for the cache is written behind it.  When the
    JSON text of the value has 500000 characters or more, a successful
    [set] puts the value into the database and leaves the cache entry of
    the key as it was: until that entry expires, [get] goes on returning
    the value from before the write. *)
Theorem X25_large_value_leaves_the_old_one_in_the_cache
  (C : Codec) (now : Q) (key : string) (value j old : Value) (expires : Q)
  (useCompression : bool) (st st1 : Store) (now' later' : Q)
  (Hold : cache_get key (cache st) = Some (old, expires))
  (Hjson : json_of value = JVal j)
  (Hlarge : (500000 <= N.of_nat (String.length (json_text C j)))%N)
  (Hset : IdbStorage.set C now key value useCompression st = (true, st1))
  (Hfresh : PipState.Qgtb expires now' = true) :
  db st1 !! key = Some (storableValue C value (json_text C j) useCompression)
  /\ fst (IdbStorage.get C now' later' key false st1) = old.
Proof.
  unfold IdbStorage.set in Hset. rewrite Hjson, (large_misses _ Hlarge) in Hset.
  destruct (writable st && cloneable _); [|discriminate].
  injection Hset as <-. split.
  - cbn [db]. apply lookup_insert_eq.
  - unfold IdbStorage.get. cbn [cache]. rewrite Hold, Hfresh. reflexivity.
Qed.

(** A list of favourites is cached; a text of 600000 characters written
    under the same key a second later is not what the next read returns. *)
Lemma X25_large_value_leaves_the_old_one_in_the_cache_witness :
  db (snd (IdbStorage.set example_codec 1000 "favorites" (VStr (long_text 600000))
             false cached_idb)) !! "favorites"
  = Some (storableValue example_codec (VStr (long_text 600000))
            (json_text example_codec (VStr (long_text 600000))) false)
  /\ fst (IdbStorage.get example_codec 2000 2001 "favorites" false
            (snd (IdbStorage.set example_codec 1000 "favorites"
                    (VStr (long_text 600000)) false cached_idb)))
     = VArr [VStr "bbc"].
Proof.
  apply (X25_large_value_leaves_the_old_one_in_the_cache example_codec 1000
           "favorites" (VStr (long_text 600000)) (VStr (long_text 600000))
           (VArr [VStr "bbc"]) (0 + CACHE_TTL)%Q false cached_idb).
  - reflexivity.
  - apply json_of_string.
  - vm_compute. discriminate.
  - rewrite (surjective_pairing (IdbStorage.set _ _ _ _ _ _)) at 1.
    apply (f_equal2 pair); [vm_compute; reflexivity|reflexivity].
  - reflexivity.
Defined.

(** X26: a string that starts with [CMPR:] is not read back.  Written
    without compression, it is stored as it is; a read served by the cache
    returns the string, and a read served by the database takes it for a
    compressed value and returns what parsing the rest of it gives. *)
Theorem X26_marked_string_is_read_as_compressed
  (C : Codec) (now : Q) (key s : string) (parsed : Value) (st st1 : Store)
  (now' later' : Q)
  (Hmarked : String.prefix "CMPR:" s = true)
  (Hsmall : (N.of_nat (String.length (json_text C (VStr s))) <= 10000)%N)
  (Hparse : (if lz_loaded C
             then decompress_parse C (String.substring 5 (String.length s - 5) s)
             else parse C (String.substring 5 (String.length s - 5) s))
            = Some parsed)
  (Hset : IdbStorage.set C now key (VStr s) false st = (true, st1))
  (Hreadable : readable st = true) :
  (PipState.Qgtb (now + CACHE_TTL)%Q now' = true ->
   fst (IdbStorage.get C now' later' key false st1) = VStr s)
  /\ fst (IdbStorage.get C now' later' key true st1) = parsed
  /\ (PipState.Qgtb (now + CACHE_TTL)%Q now' = false ->
      fst (IdbStorage.get C now' later' key false st1) = parsed).
Proof.
  unfold IdbStorage.set in Hset. rewrite json_of_string in Hset.
  rewrite (small_stored_plain _ _ _ Hsmall), (small_fits _ Hsmall) in Hset.
  destruct (writable st && cloneable (VStr s)); [|discriminate].
  injection Hset as <-.
  assert (decode C (VStr s) = parsed) as Hdec.
  { cbn [decode]. rewrite Hmarked. cbn zeta. rewrite Hparse. reflexivity. }
  unfold IdbStorage.get. cbn [cache db readable].
  rewrite cache_get_set, String.eqb_refl, lookup_insert_eq, Hreadable. cbn [negb].
  split; [|split].
  - intros ->. reflexivity.
  - rewrite Hdec. destruct (cacheable parsed); reflexivity.
  - intros ->. rewrite Hdec. destruct (cacheable parsed); reflexivity.
Qed.

(** The string [CMPR:null] is read from the database as [null]. *)
Lemma X26_marked_string_is_read_as_compressed_witness :
  (PipState.Qgtb (0 + CACHE_TTL)%Q 1000 = true ->
   fst (IdbStorage.get example_codec 1000 1001 "note" false
          (snd (IdbStorage.set example_codec 0 "note" (VStr "CMPR:null") false empty_idb)))
   = VStr "CMPR:null")
  /\ fst (IdbStorage.get example_codec 1000 1001 "note" true
            (snd (IdbStorage.set example_codec 0 "note" (VStr "CMPR:null") false empty_idb)))
     = VNull
  /\ (PipState.Qgtb (0 + CACHE_TTL)%Q 1000 = false ->
      fst (IdbStorage.get example_codec 1000 1001 "note" false
             (snd (IdbStorage.set example_codec 0 "note" (VStr "CMPR:null") false empty_idb)))
      = VNull).
Proof.
  apply (X26_marked_string_is_read_as_compressed example_codec 0 "note" "CMPR:null"
           VNull empty_idb).
  - reflexivity.
  - vm_compute. discriminate.
  - reflexivity.
  - reflexivity.
  - reflexivity.
Defined.

(** What [get] returns depends on the cache, the custom database and
    whether reads are served. *)
Lemma get_depends C now later key skipCache st st' :
  cache st = cache st' -> db st = db st' -> readable st = readable st' ->
  fst (IdbStorage.get C now later key skipCache st)
  = fst (IdbStorage.get C now later key skipCache st').
Proof.
  intros Hc Hd Hr. unfold IdbStorage.get. rewrite Hc, Hd, Hr.
  destruct (if skipCache then None else cache_get key (cache st')) as [[v expires]|];
    [destruct (PipState.Qgtb expires now); [reflexivity|]|];
    (destruct (negb (readable st')); [reflexivity|]);
    (destruct (db st' !! key) as [[]|]; reflexivity).
Qed.

Lemma enhancedSet_store key value st :
  let st' := snd (enhancedSet key value st) in
  cache st' = cache st /\ db st' = db st /\ readable st' = readable st.
Proof.
  unfold enhancedSet. destruct (String.eqb key ""); [auto|].
  destruct (writable st && cloneable value); auto.
Qed.

Lemma addToArray_store key item st :
  let st' := snd (addToArray key item st) in
  cache st' = cache st /\ db st' = db st /\ readable st' = readable st.
Proof.
  unfold addToArray.
  repeat first
    [ apply enhancedSet_store
    | match goal with
      | |- context [match ?x with _ => _ end] => destruct x
      end
    | solve [cbn; auto] ].
Qed.

Lemma removeFromArray_store key itemId st :
  let st' := snd (removeFromArray key itemId st) in
  cache st' = cache st /\ db st' = db st /\ readable st' = readable st.
Proof.
  unfold removeFromArray.
  repeat first
    [ apply enhancedSet_store
    | match goal with
      | |- context [match ?x with _ => _ end] => destruct x
      end
    | solve [cbn; auto] ].
Qed.

(** X27: the array helpers and the store proper do not see each other's
    data.  [addToArray] and [removeFromArray] write to the default
    database of idb-keyval, [get], [set] and [remove] to the database the
    module opens: no read through [get] is changed by an array helper,
    and no read of the array helpers is changed by [set] or [remove]. *)
Theorem X27_array_helpers_use_another_database
  (C : Codec) (now later : Q) (key k : string) (item itemId value : Value)
  (useCompression skipCache : bool) (st : Store) :
  fst (IdbStorage.get C now later k skipCache (snd (addToArray key item st)))
  = fst (IdbStorage.get C now later k skipCache st)
  /\ fst (IdbStorage.get C now later k skipCache (snd (removeFromArray key itemId st)))
     = fst (IdbStorage.get C now later k skipCache st)
  /\ enhancedGet k (snd (IdbStorage.set C now key value useCompression st))
     = enhancedGet k st
  /\ enhancedGet k (snd (remove key st)) = enhancedGet k st.
Proof.
  split; [|split; [|split]].
  - destruct (addToArray_store key item st) as (Hc & Hd & Hr).
    apply get_depends; assumption.
  - destruct (removeFromArray_store key itemId st) as (Hc & Hd & Hr).
    apply get_depends; assumption.
  - unfold IdbStorage.set. destruct (json_of value); try reflexivity.
    destruct (writable st && cloneable _); reflexivity.
  - unfold remove. destruct (writable st); reflexivity.
Qed.

Lemma some_with_id_false id l x :
  some_with_id id l = Some false -> In x l -> Player.strict_eq (JS.get x "id") id = false.
Proof.
  induction l as [|y rest IH]; [intros _ []|].
  cbn [some_with_id]. intros H [->|Hin].
  - destruct x; try discriminate;
      (destruct (Player.strict_eq _ id); [discriminate|reflexivity]).
  - apply IH; [|exact Hin]. clear IH.
    destruct y; try discriminate;
      (destruct (Player.strict_eq _ id); [discriminate|exact H]).
Qed.

Lemma replace_with_id_spec item l l' :
  replace_with_id item l = Some l' ->
  List.length l' = List.length l
  /\ (forall x, In x l' ->
        x = item \/ Player.strict_eq (JS.get x "id") (JS.get item "id") = false)
  /\ (some_with_id (JS.get item "id") l = Some true -> In item l').
Proof.
  revert l'. induction l as [|y rest IH]; intros l'.
  - intros [= <-]. repeat split; [intros x []|discriminate].
  - cbn [replace_with_id some_with_id].
    destruct (replace_with_id item rest) as [r|]; [|destruct y; discriminate].
    destruct (IH r eq_refl) as (Hlen & Hall & Hin).
    assert (l' = (if Player.strict_eq (JS.get y "id") (JS.get item "id")
                             then item else y) :: r ->
            List.length l' = List.length (y :: rest)
            /\ (forall x, In x l' ->
                  x = item \/ Player.strict_eq (JS.get x "id") (JS.get item "id") = false)
            /\ ((if Player.strict_eq (JS.get y "id") (JS.get item "id")
                 then Some true else some_with_id (JS.get item "id") rest) = Some true ->
                In item l')) as Hstep.
    { intros ->. split; [cbn [List.length]; congruence|]. split.
      - intros x [<-|Hx]; [|apply Hall, Hx].
        destruct (Player.strict_eq (JS.get y "id") (JS.get item "id")) eqn:He; auto.
      - destruct (Player.strict_eq (JS.get y "id") (JS.get item "id")).
        + intros _. left. reflexivity.
        + intros H. right. apply Hin, H. }
    destruct y; try discriminate; intros [= <-]; apply Hstep; reflexivity.
Qed.

(** X28: [addToArray] keeps one item for an id.  After it has succeeded
    for an item with a truthy id, the list stored under the key holds the
    item, and every element of the list that carries the id of the item is
    the item: elements with that id were replaced, not joined. *)
Theorem X28_added_item_is_the_only_one_of_its_id
  (key : string) (item : Value) (st st1 : Store)
  (Hid : truthy (JS.get item "id") = true)
  (Hadd : addToArray key item st = (true, st1)) :
  exists updatedArray,
    keyval st1 !! key = Some (VArr updatedArray)
    /\ In item updatedArray
    /\ forall x, In x updatedArray ->
         x = item \/ Player.strict_eq (JS.get x "id") (JS.get item "id") = false.
Proof.
  assert (forall l st', enhancedSet key (VArr l) st = (true, st') ->
                        keyval st' !! key = Some (VArr l)) as Hset.
  { intros l st'. unfold enhancedSet. destruct (String.eqb key ""); [discriminate|].
    destruct (writable st && cloneable (VArr l)); [|discriminate].
    intros [= <-]. cbn [keyval]. apply lookup_insert_eq. }
  unfold addToArray in Hadd. rewrite Hid in Hadd.
  assert (item <> VNull /\ item <> VUndefined) as [Hn Hu].
  { split; intros ->; discriminate. }
  destruct (or_js (enhancedGet key st) (VArr [])) as [| | | | | | |l|];
    try (destruct item; discriminate).
  destruct (some_with_id (JS.get item "id") l) as [[]|] eqn:Hsome;
    [| |destruct item; discriminate].
  - destruct (replace_with_id item l) as [updatedArray|] eqn:Hrep;
      [|destruct item; discriminate].
    destruct (replace_with_id_spec _ _ _ Hrep) as (_ & Hall & Hin).
    exists updatedArray. split; [|split; [apply Hin, Hsome|exact Hall]].
    apply Hset. destruct item; try contradiction; exact Hadd.
  - exists (l ++ [item])%list. split; [|split].
    + apply Hset. destruct item; try contradiction; exact Hadd.
    + apply in_or_app. right. left. reflexivity.
    + intros x Hx. apply in_app_or in Hx as [Hx|[<-|[]]]; [|left; reflexivity].
      right. eapply some_with_id_false; eassumption.
Qed.

(** A channel added twice, the second time with another name, is in the
    list once, with the second name. *)
Lemma X28_added_item_is_the_only_one_of_its_id_witness :
  exists updatedArray,
    keyval (snd (addToArray "favorites" (VObj [("id", VStr "bbc"); ("name", VStr "BBC One")])
                   (snd (addToArray "favorites"
                           (VObj [("id", VStr "bbc"); ("name", VStr "BBC")]) empty_idb))))
      !! "favorites" = Some (VArr updatedArray)
    /\ In (VObj [("id", VStr "bbc"); ("name", VStr "BBC One")]) updatedArray
    /\ forall x, In x updatedArray ->
         x = VObj [("id", VStr "bbc"); ("name", VStr "BBC One")]
         \/ Player.strict_eq (JS.get x "id")
              (JS.get (VObj [("id", VStr "bbc"); ("name", VStr "BBC One")]) "id") = false.
Proof.
  apply (X28_added_item_is_the_only_one_of_its_id "favorites"
           (VObj [("id", VStr "bbc"); ("name", VStr "BBC One")])
           (snd (addToArray "favorites"
                   (VObj [("id", VStr "bbc"); ("name", VStr "BBC")]) empty_idb))).
  - reflexivity.
  - vm_compute. reflexivity.
Defined.

End LocalStore.

(* ===================================================================== *)
(** * The Local Persistent Store as its callers see it *)
(* ===================================================================== *)

(** A read changes the cache only: the database and what the store serves
    stay, and the cache keeps its keys distinct. *)
Lemma get_store C now later key skipCache st :
  let st' := snd (IdbStorage.get C now later key skipCache st) in
  IdbStorage.db st' = IdbStorage.db st
  /\ IdbStorage.readable st' = IdbStorage.readable st
  /\ IdbStorage.writable st' = IdbStorage.writable st
  /\ (NoDup (map fst (IdbStorage.cache st)) -> NoDup (map fst (IdbStorage.cache st'))).
Proof.
  cbv zeta. unfold IdbStorage.get.
  set (hit := if skipCache then None else IdbStorage.cache_get key (IdbStorage.cache st)).
  pose proof (get_c1_sublist key hit (IdbStorage.cache st)) as Hsub.
  set (c1 := match hit with
             | Some _ => IdbStorage.cache_delete key (IdbStorage.cache st)
             | None => IdbStorage.cache st
             end) in *.
  destruct (match hit with
            | Some (value, expires) =>
                if PipState.Qgtb expires now then Some value else None
            | None => None
            end); [cbn [snd]; auto|].
  assert (forall c2, (NoDup (map fst (IdbStorage.cache st)) -> NoDup (map fst c2)) ->
            IdbStorage.db (IdbStorage.with_cache c2 st) = IdbStorage.db st
            /\ IdbStorage.readable (IdbStorage.with_cache c2 st) = IdbStorage.readable st
            /\ IdbStorage.writable (IdbStorage.with_cache c2 st) = IdbStorage.writable st
            /\ (NoDup (map fst (IdbStorage.cache st)) ->
                NoDup (map fst (IdbStorage.cache (IdbStorage.with_cache c2 st))))) as Hwith
    by (intros c2 H; repeat split; exact H).
  assert (NoDup (map fst (IdbStorage.cache st)) -> NoDup (map fst c1)) as Hc1
    by (intros Hnd; eapply keys_sublist; eassumption).
  destruct (negb (IdbStorage.readable st)); [apply Hwith, Hc1|].
  destruct (IdbStorage.db st !! key) as [found|]; [|apply Hwith, Hc1].
  destruct found; cbn [snd]; try (apply Hwith, Hc1);
    (apply Hwith; destruct (IdbStorage.cacheable _); [|exact Hc1];
     intros Hnd; eapply cached_NoDup; eassumption).
Qed.

(** What a successful [set] leaves in the store. *)
Lemma set_succeeds C now key value useCompression st st' :
  IdbStorage.set C now key value useCompression st = (true, st') ->
  exists j,
    json_of value = JVal j
    /\ IdbStorage.db st' !! key
       = Some (IdbStorage.storableValue C value (IdbStorage.json_text C j) useCompression)
    /\ IdbStorage.readable st' = IdbStorage.readable st
    /\ IdbStorage.cache st'
       = (if IdbStorage.fits_cache (IdbStorage.json_text C j)
          then IdbStorage.cache_set key (value, (now + IdbStorage.CACHE_TTL)%Q)
                 (IdbStorage.enforceCacheSizeLimit (IdbStorage.cache st))
          else IdbStorage.cache st).
Proof.
  unfold IdbStorage.set. destruct (json_of value) as [| |j]; try discriminate.
  destruct (IdbStorage.writable st && IdbStorage.cloneable _); [|discriminate].
  intros [= <-]. exists j. cbn [IdbStorage.db IdbStorage.readable IdbStorage.cache].
  rewrite lookup_insert_eq. auto.
Qed.

(** A [set] that fails leaves the store as it was. *)
Lemma set_fails C now key value useCompression st st' :
  IdbStorage.set C now key value useCompression st = (false, st') -> st' = st.
Proof.
  unfold IdbStorage.set. destruct (json_of value) as [| |j]; try (intros [= <-]; reflexivity).
  destruct (IdbStorage.writable st && IdbStorage.cloneable _); [discriminate|].
  intros [= <-]. reflexivity.
Qed.

(** After a successful [set] of a value that fits the cache, a read of the
    key is served by the cache until the entry expires. *)
Lemma set_then_cached_get C now key value useCompression st st' j now' later' :
  IdbStorage.set C now key value useCompression st = (true, st') ->
  json_of value = JVal j ->
  IdbStorage.fits_cache (IdbStorage.json_text C j) = true ->
  PipState.Qgtb (now + IdbStorage.CACHE_TTL)%Q now' = true ->
  fst (IdbStorage.get C now' later' key false st') = value.
Proof.
  intros Hset Hj Hfits Hfresh.
  destruct (set_succeeds _ _ _ _ _ _ _ Hset) as (j' & Hj' & _ & _ & Hcache).
  rewrite Hj in Hj'. injection Hj' as <-. rewrite Hfits in Hcache.
  unfold IdbStorage.get. rewrite Hcache, cache_get_set, String.eqb_refl, Hfresh.
  reflexivity.
Qed.

(** After a successful [set] of a value that is stored as it is, the store
    answers every read of the key with the value. *)
Lemma set_remembers C now key value st st' j :
  IdbStorage.set C now key value false st = (true, st') ->
  json_of value = JVal j ->
  (N.of_nat (String.length (IdbStorage.json_text C j)) <= 10000)%N ->
  marked value = false ->
  NoDup (map fst (IdbStorage.cache st)) ->
  IdbStorage.readable st = true ->
  remembers C key value st'.
Proof.
  intros Hset Hj Hsmall Hplain Hnd Hread.
  destruct (set_succeeds _ _ _ _ _ _ _ Hset) as (j' & Hj' & Hdb & Hr & Hcache).
  rewrite Hj in Hj'. injection Hj' as <-.
  rewrite (small_stored_plain _ _ _ Hsmall) in Hdb.
  rewrite (small_fits _ Hsmall) in Hcache.
  split; [|split; [congruence|split]].
  - rewrite Hcache. eapply cached_NoDup; [reflexivity|exact Hnd].
  - exists value. split; [exact Hdb|].
    split; [eapply json_of_defined, Hj|apply decode_plain, Hplain].
  - rewrite Hcache. intros e He. rewrite cache_get_set, String.eqb_refl in He.
    injection He as <-. reflexivity.
Qed.

(** A write leaves the store readable and writable as it was, and the cache
    with its keys distinct. *)
Lemma set_store C now key value useCompression st :
  let st' := snd (IdbStorage.set C now key value useCompression st) in
  IdbStorage.readable st' = IdbStorage.readable st
  /\ IdbStorage.writable st' = IdbStorage.writable st
  /\ (NoDup (map fst (IdbStorage.cache st)) -> NoDup (map fst (IdbStorage.cache st'))).
Proof.
  cbv zeta. unfold IdbStorage.set. destruct (json_of value); cbn [snd]; auto.
  destruct (IdbStorage.writable st && IdbStorage.cloneable _); cbn [snd]; auto.
  cbn [IdbStorage.readable IdbStorage.writable IdbStorage.cache].
  split; [reflexivity|]. split; [reflexivity|]. intros Hnd.
  destruct (IdbStorage.fits_cache _); [|exact Hnd].
  eapply cached_NoDup; [reflexivity|exact Hnd].
Qed.

(** A read of a key the store remembers returns the value, and the store
    remembers it afterwards. *)
Lemma remembers_read C key value st now later skipCache :
  remembers C key value st ->
  exists st1,
    IdbStorage.get C now later key skipCache st = (value, st1)
    /\ remembers C key value st1
    /\ IdbStorage.writable st1 = IdbStorage.writable st.
Proof.
  intros Hst.
  pose proof (remembers_get C key value st now later skipCache Hst) as Hvalue.
  pose proof (remembers_call C key value st
                (IdbStorage.call_get now later key skipCache) eq_refl Hst) as Hafter.
  pose proof (get_store C now later key skipCache st) as (_ & _ & Hw & _).
  cbn [IdbStorage.call] in Hafter.
  destruct (IdbStorage.get C now later key skipCache st) as [v st1].
  cbn [fst snd] in *. subst v. exists st1. auto.
Qed.

(** A store that takes writes takes a value it keeps as it is, and
    remembers it under the key from then on. *)
Lemma set_kept C now key value st :
  IdbStorage.writable st = true ->
  kept_as_is C value ->
  marked value = false ->
  NoDup (map fst (IdbStorage.cache st)) ->
  IdbStorage.readable st = true ->
  exists st',
    IdbStorage.set C now key value false st = (true, st')
    /\ remembers C key value st'
    /\ IdbStorage.writable st' = true.
Proof.
  intros Hw (Hclone & j & Hj & Hsmall) Hplain Hnd Hread.
  assert (exists st', IdbStorage.set C now key value false st = (true, st')
                      /\ IdbStorage.writable st' = true) as (st' & Hset & Hw').
  { unfold IdbStorage.set. rewrite Hj, (small_stored_plain _ _ _ Hsmall), Hw, Hclone.
    cbn [andb]. eexists. split; reflexivity. }
  exists st'. split; [exact Hset|]. split; [|exact Hw'].
  eapply set_remembers; eassumption.
Qed.

(** A store that takes no writes stays as it is. *)
Lemma set_refused C now key value useCompression st :
  IdbStorage.writable st = false ->
  IdbStorage.set C now key value useCompression st = (false, st).
Proof.
  intros Hw. unfold IdbStorage.set. rewrite Hw.
  destruct (json_of value); reflexivity.
Qed.

(** A store that holds one value in its database remembers it. *)
Lemma holding_remembers C key value keyval writable :
  value <> VUndefined -> marked value = false ->
  remembers C key value (IdbStorage.mkStore [] {[ key := value ]} keyval true writable).
Proof.
  intros Hdef Hplain. split; [apply NoDup_nil_2|]. split; [reflexivity|]. split.
  - exists value. cbn [IdbStorage.db]. rewrite lookup_singleton_eq.
    split; [reflexivity|]. split; [exact Hdef|apply decode_plain, Hplain].
  - intros e He. discriminate He.
Qed.

Lemma idb_holding_remembers C key value :
  value <> VUndefined -> marked value = false ->
  remembers C key value (idb_holding key value).
Proof. apply holding_remembers. Qed.

Lemma idb_refusing_remembers C key value :
  value <> VUndefined -> marked value = false ->
  remembers C key value (idb_refusing key value).
Proof. apply holding_remembers. Qed.

(* ===================================================================== *)
(** * Watch history *)
(* ===================================================================== *)

Lemma item_channel_id_entry item i :
  item_channel_id item = Some i -> i = entry_id item.
Proof.
  unfold item_channel_id, entry_id.
  destruct item; try discriminate;
    destruct (get _ "channel"); try discriminate; intros [= <-]; reflexivity.
Qed.

(** What the filter removes and what it keeps. *)
Lemma filter_others_spec streamUrl history others :
  filter_others streamUrl history = Some others ->
  Forall (fun b => strict_eq (entry_id b) streamUrl = false) others
  /\ (forall a, Forall (fun b => strict_eq a (entry_id b) = false) history ->
                Forall (fun b => strict_eq a (entry_id b) = false) others)
  /\ (distinct_ids history = true -> distinct_ids others = true).
Proof.
  revert others. induction history as [|item rest IH]; intros others H.
  - injection H as <-. repeat split; auto.
  - cbn [filter_others] in H.
    destruct (item_channel_id item) as [i|] eqn:Hi; [|discriminate].
    destruct (filter_others streamUrl rest) as [r|]; [|discriminate].
    apply item_channel_id_entry in Hi. subst i.
    destruct (IH r eq_refl) as (Hf & Hk & Hd).
    destruct (strict_eq (entry_id item) streamUrl) eqn:He; injection H as <-.
    + repeat split.
      * assumption.
      * intros a Ha. inversion Ha; subst. auto.
      * cbn [distinct_ids]. intros Hdist.
        apply andb_true_iff in Hdist as [_ Hdist]. auto.
    + repeat split.
      * constructor; assumption.
      * intros a Ha. inversion Ha; subst. constructor; auto.
      * cbn [distinct_ids]. intros Hdist.
        apply andb_true_iff in Hdist as [Hhead Hdist].
        apply andb_true_iff. split; [|auto].
        apply forallb_forall. intros b Hb.
        assert (Forall (fun b => strict_eq (entry_id item) (entry_id b) = false) r)
          as HF.
        { apply Hk. apply Forall_forall. intros x Hx.
          rewrite forallb_forall in Hhead. specialize (Hhead x).
          apply negb_true_iff. apply Hhead. apply list_elem_of_In. exact Hx. }
        rewrite Forall_forall in HF. apply negb_true_iff. apply HF.
        apply list_elem_of_In. exact Hb.
Qed.

Lemma distinct_ids_take n h :
  distinct_ids h = true -> distinct_ids (take n h) = true.
Proof.
  revert n. induction h as [|a rest IH]; intros [|n] H; try reflexivity.
  cbn [take distinct_ids] in *. apply andb_true_iff in H as [Hhead Hrest].
  apply andb_true_iff. split; [|auto].
  apply forallb_forall. intros b Hb. rewrite forallb_forall in Hhead. apply Hhead.
  apply list_elem_of_In. apply (subseteq_take n rest). apply list_elem_of_In.
  exact Hb.
Qed.

Lemma filter_others_other_channels streamUrl history others :
  filter_others streamUrl history = Some others ->
  others = other_channels streamUrl history.
Proof.
  revert others. induction history as [|item rest IH]; intros others H.
  - injection H as <-. reflexivity.
  - cbn [filter_others] in H.
    destruct (item_channel_id item) as [i|] eqn:Hi; [|discriminate].
    destruct (filter_others streamUrl rest) as [r|]; [|discriminate].
    apply item_channel_id_entry in Hi. subst i. injection H as <-.
    unfold other_channels. cbn [List.filter]. fold (other_channels streamUrl rest).
    rewrite <- (IH r eq_refl).
    destruct (strict_eq (entry_id item) streamUrl); reflexivity.
Qed.

Lemma other_channels_spec streamUrl history :
  Forall (fun b => strict_eq (entry_id b) streamUrl = false)
         (other_channels streamUrl history)
  /\ (distinct_ids history = true ->
      distinct_ids (other_channels streamUrl history) = true).
Proof.
  split.
  - apply Forall_forall. intros b Hb. apply list_elem_of_In in Hb.
    apply filter_In in Hb as [_ Hb]. apply negb_true_iff. exact Hb.
  - induction history as [|a rest IH]; [reflexivity|].
    cbn [distinct_ids]. intros H. apply andb_true_iff in H as [Hhead Hrest].
    unfold other_channels. cbn [List.filter]. fold (other_channels streamUrl rest).
    destruct (negb (strict_eq (entry_id a) streamUrl)); [|auto].
    cbn [distinct_ids]. apply andb_true_iff. split; [|auto].
    apply forallb_forall. intros b Hb. rewrite forallb_forall in Hhead.
    apply Hhead. apply filter_In in Hb as [Hb _]. exact Hb.
Qed.

(** The steps of [updateWatchHistory]: the list read, the list written, and
    the [set] at the end, on a store that the two reads have left with the
    database as it was. *)
Lemma updateWatchHistory_steps C clock streamUrl channelName channelId channelGroup
    channelLogo st u :
  PlayerPage.updateWatchHistory C clock streamUrl channelName channelId channelGroup
                                channelLogo st = Some u ->
  exists st2,
    truthy streamUrl = true
    /\ as_list (fst (IdbStorage.get C (clock 0) (clock 1) "watchHistory" false st))
       = Some (PlayerPage.history_read u)
    /\ PlayerPage.updatedHistory u
       = take 100 (history_entry (clock 4) streamUrl channelName channelId channelGroup
                                 channelLogo
                   :: other_channels streamUrl (PlayerPage.history_read u))
    /\ IdbStorage.set C (clock 5) "watchHistory" (VArr (PlayerPage.updatedHistory u))
                      false st2
       = (PlayerPage.history_saved u, PlayerPage.store_after u)
    /\ IdbStorage.db st2 = IdbStorage.db st
    /\ IdbStorage.readable st2 = IdbStorage.readable st
    /\ IdbStorage.writable st2 = IdbStorage.writable st
    /\ (NoDup (map fst (IdbStorage.cache st)) -> NoDup (map fst (IdbStorage.cache st2))).
Proof.
  intros Hwritten. unfold PlayerPage.updateWatchHistory in Hwritten.
  destruct (truthy streamUrl) eqn:Hurl; [|discriminate]. cbn [negb] in Hwritten.
  pose proof (get_store C (clock 0) (clock 1) "watchHistory" false st)
    as (Hdb1 & Hr1 & Hw1 & Hnd1).
  destruct (IdbStorage.get C (clock 0) (clock 1) "watchHistory" false st)
    as [stored st1]. cbn [fst snd] in *.
  destruct (as_list stored) as [history|] eqn:Hstored; [|discriminate].
  pose proof (get_store C (clock 2) (clock 3) "favorites" false st1)
    as (Hdb2 & Hr2 & Hw2 & Hnd2).
  destruct (IdbStorage.get C (clock 2) (clock 3) "favorites" false st1)
    as [stored_favorites st2]. cbn [fst snd] in *.
  destruct (as_list stored_favorites) as [favorites|]; [|discriminate].
  destruct (search_favorites streamUrl favorites) as [isFavorite|]; [|discriminate].
  destruct (filter_others streamUrl history) as [others|] eqn:Hothers; [|discriminate].
  apply filter_others_other_channels in Hothers. subst others.
  fold (history_entry (clock 4) streamUrl channelName channelId channelGroup channelLogo)
    in Hwritten.
  destruct (IdbStorage.set C (clock 5) "watchHistory" _ false st2)
    as [saved st3] eqn:Hset.
  injection Hwritten as <-.
  cbn [PlayerPage.history_read PlayerPage.updatedHistory PlayerPage.history_saved
       PlayerPage.store_after].
  exists st2. split; [reflexivity|]. split; [reflexivity|]. split; [reflexivity|].
  split; [exact Hset|]. repeat split; try congruence. auto.
Qed.

(** C10 (as amended): when [loadChannelDetails] gets to write the history,
    the list it passes to the store is the entry for the channel just
    opened followed by the entries, in their order, that the list it read
    holds for other channels, cut to 100: so it has at most 100 entries,
    the first is the one for the channel just opened, no later entry has
    that channel's id, and a history whose ids were pairwise distinct
    before is so afterwards.  When the store takes the write, the database
    holds that list in the form [set] gives it; a read before the cache
    entry expires returns the list if its JSON text is shorter than 500000
    characters, and every later read returns it if the text has at most
    10000 characters.  When the store refuses the write, which the function
    does not notice, the database is as it was. *)
Theorem C10_history_after_open
  (C : IdbStorage.Codec) (clock : nat -> Q)
  (streamUrl channelName channelId channelGroup channelLogo : Value)
  (st : IdbStorage.Store) (u : PlayerPage.HistoryUpdate)
  (Hwritten : PlayerPage.updateWatchHistory C clock streamUrl channelName channelId
                channelGroup channelLogo st = Some u) :
  let entry := history_entry (clock 4) streamUrl channelName channelId channelGroup
                             channelLogo in
  let written := PlayerPage.updatedHistory u in
  let st' := PlayerPage.store_after u in
  as_list (fst (IdbStorage.get C (clock 0) (clock 1) "watchHistory" false st))
  = Some (PlayerPage.history_read u)
  /\ written = take 100 (entry :: other_channels streamUrl (PlayerPage.history_read u))
  /\ length written <= 100
  /\ hd_error written = Some entry
  /\ entry_id entry = streamUrl
  /\ Forall (fun b => strict_eq (entry_id b) streamUrl = false) (tl written)
  /\ (distinct_ids (PlayerPage.history_read u) = true -> distinct_ids written = true)
  /\ (PlayerPage.history_saved u = false -> IdbStorage.db st' = IdbStorage.db st)
  /\ (PlayerPage.history_saved u = true ->
      exists j,
        json_of (VArr written) = JVal j
        /\ IdbStorage.db st' !! "watchHistory"
           = Some (IdbStorage.storableValue C (VArr written) (IdbStorage.json_text C j)
                                            false)
        /\ (IdbStorage.fits_cache (IdbStorage.json_text C j) = true ->
            forall now later,
              PipState.Qgtb (Qplus (clock 5) IdbStorage.CACHE_TTL) now = true ->
              fst (IdbStorage.get C now later "watchHistory" false st') = VArr written)
        /\ ((N.of_nat (String.length (IdbStorage.json_text C j)) <= 10000)%N ->
            NoDup (map fst (IdbStorage.cache st)) ->
            IdbStorage.readable st = true ->
            forall ops now later skipCache,
              forallb (fun op => negb (touches "watchHistory" op)) ops = true ->
              fst (IdbStorage.get C now later "watchHistory" skipCache
                     (IdbStorage.calls C ops st')) = VArr written)).
Proof.
  cbv zeta.
  destruct (updateWatchHistory_steps _ _ _ _ _ _ _ _ _ Hwritten)
    as (st2 & _ & Hread & Hlist & Hset & Hdb2 & Hr2 & _ & Hnd2).
  set (entry := history_entry (clock 4) streamUrl channelName channelId channelGroup
                              channelLogo) in *.
  destruct (other_channels_spec streamUrl (PlayerPage.history_read u)) as [Hf Hd].
  change (take 100 (entry :: other_channels streamUrl (PlayerPage.history_read u)))
    with (entry :: take 99 (other_channels streamUrl (PlayerPage.history_read u)))
    in Hlist.
  split; [exact Hread|]. split; [exact Hlist|].
  split; [rewrite Hlist; cbn [length]; rewrite length_take; lia|].
  split; [rewrite Hlist; reflexivity|]. split; [reflexivity|].
  split; [rewrite Hlist; cbn [tl]; apply Forall_take; exact Hf|].
  split.
  { intros Hdist. rewrite Hlist. cbn [distinct_ids]. apply andb_true_iff. split.
    - apply forallb_forall. intros b Hb. apply negb_true_iff.
      change (entry_id entry) with streamUrl. rewrite strict_eq_sym.
      assert (Forall (fun b => strict_eq (entry_id b) streamUrl = false)
                     (take 99 (other_channels streamUrl (PlayerPage.history_read u))))
        as HF by (apply Forall_take; exact Hf).
      rewrite Forall_forall in HF. apply HF. apply list_elem_of_In. exact Hb.
    - apply distinct_ids_take. auto. }
  split.
  { intros Hsaved. rewrite Hsaved in Hset. rewrite (set_fails _ _ _ _ _ _ _ Hset).
    exact Hdb2. }
  intros Hsaved. rewrite Hsaved in Hset.
  destruct (set_succeeds _ _ _ _ _ _ _ Hset) as (j & Hj & Hdbj & _ & _).
  exists j. split; [exact Hj|]. split; [exact Hdbj|]. split.
  - intros Hfits now later Hfresh.
    eapply set_then_cached_get; eassumption.
  - intros Hsmall Hnd Hreadable ops now later skipCache Hops.
    apply remembers_get. apply remembers_calls; [exact Hops|].
    eapply set_remembers; try eassumption; [reflexivity|auto|congruence].
Qed.

(** Opening [news_url] again: the older entry for it is replaced. *)
Lemma C10_history_after_open_witness :
  exists u,
    PlayerPage.updateWatchHistory example_codec example_clock (VStr news_url)
      (VStr "News") VNull (VStr "Uncategorized") VNull single_history = Some u
    /\ PlayerPage.history_read u = [ watched news_url 20 ]
    /\ PlayerPage.history_saved u = true
    /\ PlayerPage.updatedHistory u
       = take 100 (history_entry (example_clock 4) (VStr news_url) (VStr "News") VNull
                                 (VStr "Uncategorized") VNull
                   :: other_channels (VStr news_url) (PlayerPage.history_read u))
    /\ length (PlayerPage.updatedHistory u) <= 100.
Proof.
  assert (exists u,
            PlayerPage.updateWatchHistory example_codec example_clock (VStr news_url)
              (VStr "News") VNull (VStr "Uncategorized") VNull single_history = Some u
            /\ PlayerPage.history_read u = [ watched news_url 20 ]
            /\ PlayerPage.history_saved u = true) as (u & Hwritten & Hread & Hsaved).
  { eexists. split; [vm_compute; reflexivity|]. split; reflexivity. }
  exists u. split; [exact Hwritten|]. split; [exact Hread|]. split; [exact Hsaved|].
  destruct (C10_history_after_open example_codec example_clock (VStr news_url)
              (VStr "News") VNull (VStr "Uncategorized") VNull single_history u
              Hwritten) as (_ & Hlist & Hlen & _).
  split; assumption.
Defined.

(** C10, as stated, fails: two stored entries that already share an id are
    both kept when another channel is opened. *)
Lemma C10_older_duplicates_are_kept :
  exists u,
    PlayerPage.updateWatchHistory example_codec example_clock
      (VStr "http://b.example/two.m3u8") (VStr "Two") VNull (VStr "Uncategorized")
      VNull doubled_history = Some u
    /\ PlayerPage.history_saved u = true
    /\ PlayerPage.updatedHistory u
       = [ history_entry (example_clock 4) (VStr "http://b.example/two.m3u8")
                         (VStr "Two") VNull (VStr "Uncategorized") VNull;
           watched "http://a.example/one.m3u8" 20;
           watched "http://a.example/one.m3u8" 10 ]
    /\ distinct_ids (PlayerPage.updatedHistory u) = false.
Proof.
  eexists. split; [vm_compute; reflexivity|]. repeat split.
Qed.

(* ===================================================================== *)
(** * Live / VOD classification *)
(* ===================================================================== *)

Section DetectionFacts.
Import Detection.














End DetectionFacts.

(* ===================================================================== *)
(** * PiP requests *)
(* ===================================================================== *)

(** A boolean flag set on the options survives sanitising and
    serialisation. *)
Lemma flag_survives k b props :
  lookup_prop k props = VBool b ->
  forall opts,
    json_fields (List.filter (fun kv => negb (deleted_option (snd kv))) props)
    = Some opts ->
    lookup_prop k opts = VBool b.
Proof.
  induction props as [|[k' x] rest IH]; cbn [lookup_prop]; intros Hk opts Hopts.
  - discriminate.
  - cbn [List.filter snd] in Hopts.
    destruct (String.eqb k k') eqn:E.
    + subst x. apply String.eqb_eq in E. subst k'.
      change (negb (deleted_option (VBool b))) with true in Hopts. cbv iota in Hopts.
      rewrite json_fields_cons in Hopts.
      change (json_of (VBool b)) with (JVal (VBool b)) in Hopts.
      destruct (json_fields _); [|discriminate]. injection Hopts as <-.
      cbn [lookup_prop]. rewrite String.eqb_refl. reflexivity.
    + destruct (negb (deleted_option x)); [|auto].
      rewrite json_fields_cons in Hopts.
      destruct (json_of x) as [| |y]; [discriminate| |];
        destruct (json_fields _) as [r|] eqn:Hr; try discriminate;
        injection Hopts as <-.
      * apply IH; auto.
      * cbn [lookup_prop]. rewrite E. apply IH; auto.
Qed.





(* ===================================================================== *)
(** * The persisted PiP record: saving, loading and querying together *)
(* ===================================================================== *)

Import PipStateManager.

Lemma lookup_prop_absent k props :
  ~ In k (map fst props) -> lookup_prop k props = VUndefined.
Proof.
  induction props as [|[k' v] rest IH]; intros Hk; [reflexivity|].
  cbn [lookup_prop]. destruct (String.eqb k k') eqn:E.
  - apply String.eqb_eq in E. subst. destruct Hk. left. reflexivity.
  - apply IH. intros H. apply Hk. right. exact H.
Qed.

Lemma json_fields_keys props r :
  json_fields props = Some r ->
  forall k, In k (map fst r) -> In k (map fst props).
Proof.
  intros Hr k Hk. apply in_map_iff in Hk as ([k' y] & <- & Hin).
  destruct (json_fields_In _ _ Hr _ _ Hin) as (x & Hx & _).
  apply in_map_iff. exists (k', x). split; [reflexivity|assumption].
Qed.

(** The keys of an object written as a literal are distinct. *)
Ltac distinct_keys :=
  repeat (apply List.NoDup_cons;
          [ cbn [In]; intros H;
            repeat (destruct H as [H|H]; [discriminate H|]); exact H | ]);
  apply List.NoDup_nil.

(** Reading a property of a parsed object gives the JSON image of the
    property that was serialised, when the object had no key twice. *)
Lemma json_fields_lookup props :
  List.NoDup (map fst props) ->
  forall r, json_fields props = Some r ->
  forall k, lookup_prop k r = json_image (lookup_prop k props).
Proof.
  induction props as [|[k0 x0] rest IH]; intros Hnd r Hr k.
  - injection Hr as <-. reflexivity.
  - cbn [map fst] in Hnd. apply List.NoDup_cons_iff in Hnd as [Hfresh Hnd].
    rewrite json_fields_cons in Hr. cbn [lookup_prop].
    destruct (json_of x0) as [| |y0] eqn:Hx0; [discriminate| |];
      destruct (json_fields rest) as [r'|] eqn:Hrest; try discriminate;
      injection Hr as <-.
    + destruct (String.eqb k k0) eqn:E.
      * apply String.eqb_eq in E. subst k0. unfold json_image. rewrite Hx0.
        apply lookup_prop_absent. intros Hin. apply Hfresh.
        eapply json_fields_keys; eassumption.
      * apply IH; auto.
    + cbn [lookup_prop]. destruct (String.eqb k k0) eqn:E.
      * unfold json_image. rewrite Hx0. reflexivity.
      * apply IH; auto.
Qed.

Lemma json_image_string v : is_string v = true -> json_image v = v.
Proof. destruct v; try discriminate. reflexivity. Qed.

Lemma json_image_not_string v : is_string v = false -> is_string (json_image v) = false.
Proof.
  destruct v as [| |b|q|z|s| |l|p]; intros H; try discriminate H; try reflexivity.
  - unfold json_image. rewrite json_of_arr. destruct (json_elems l); reflexivity.
  - unfold json_image. rewrite json_of_obj. destruct (json_fields p); reflexivity.
Qed.

(** What a successful [savePipState] leaves in the store: the parsed record
    reads, property by property, as the JSON image of what was saved. *)
Lemma savePipState_success now channel streamUrl options s :
  fst (savePipState now channel streamUrl options s) = true ->
  exists fields cf,
    getItem PIP_STATE_KEY (snd (savePipState now channel streamUrl options s))
    = Some (Json (VObj fields))
    /\ lookup_prop "channel" fields = VObj cf
    /\ lookup_prop "name" cf = json_image (saved_name channel)
    /\ lookup_prop "streamUrl" fields = json_image streamUrl
    /\ lookup_prop "timestamp" fields = VNum now.
Proof.
  unfold savePipState.
  destruct (negb (truthy channel) || negb (truthy streamUrl)); [discriminate|].
  set (options' := match options with VUndefined => VObj [] | _ => options end).
  unfold JSON_stringify. rewrite json_of_obj.
  match goal with |- context [json_fields ?l] =>
    destruct (json_fields l) as [fields|] eqn:Hfields end; [|discriminate].
  unfold setItem. destruct (quota_exceeded s); [discriminate|]. intros _.
  assert (forall k, lookup_prop k fields
                    = json_image (lookup_prop k
                        [ ("channel", cleanedChannel channel); ("streamUrl", streamUrl);
                          ("options", VObj (sanitizedOptions options'));
                          ("timestamp", VNum now); ("version", VStr "1.0") ])) as Hlook.
  { apply json_fields_lookup; [|exact Hfields].
    cbn [map fst]. distinct_keys. }
  assert (exists cf, json_of (cleanedChannel channel) = JVal (VObj cf)
                     /\ json_fields
                          [ ("id", or_js (get channel "id") VNull);
                            ("name", saved_name channel);
                            ("logo", or_js (get channel "logo") VNull);
                            ("group", or_js (get channel "group") VNull);
                            ("channelId",
                             or_js (or_js (get channel "channelId") (get channel "id")) VNull) ]
                        = Some cf) as (cf & Hc & Hcf).
  { rewrite json_fields_cons in Hfields. unfold cleanedChannel in *.
    rewrite json_of_obj in Hfields |- *. fold (saved_name channel) in Hfields |- *.
    match goal with |- context [json_fields ?l] =>
      destruct (json_fields l) as [cf|] eqn:Hcf end; [|discriminate].
    exists cf. split; reflexivity. }
  exists fields, cf. repeat split.
  - unfold getItem. simpl. apply lookup_insert_eq.
  - rewrite Hlook. cbn [lookup_prop String.eqb Ascii.eqb Bool.eqb].
    unfold json_image. rewrite Hc. reflexivity.
  - apply json_fields_lookup with (k := "name") in Hcf; [exact Hcf|].
    cbn [map fst]. distinct_keys.
  - rewrite Hlook. reflexivity.
  - rewrite Hlook. reflexivity.
Qed.

(** A valid record within its thirty minutes is returned as stored. *)
Lemma loadPipState_returns now s state timestamp :
  getItem PIP_STATE_KEY s = Some (Json state) ->
  structurally_valid state = true ->
  get state "timestamp" = VNum timestamp ->
  (now - timestamp <= 1800000)%Q ->
  loadPipState now s = (Some state, s).
Proof.
  intros Hget Hv Hts Hfresh. unfold loadPipState. rewrite Hget.
  cbn [text_truthy negb JSON_parse]. rewrite isValidPipState_spec, Hv.
  cbn [negb]. rewrite Hts. change PIP_EXPIRY_TIME with 1800000%Q.
  rewrite (age_fresh _ _ Hfresh). reflexivity.
Qed.

Lemma savePipState_guard now channel streamUrl options s :
  fst (savePipState now channel streamUrl options s) = true ->
  truthy channel = true /\ truthy streamUrl = true.
Proof.
  unfold savePipState.
  destruct (truthy channel), (truthy streamUrl); simpl; try discriminate. auto.
Qed.

(** The record of a successful save is valid when its URL and name are. *)
Lemma saved_record_valid fields cf channel streamUrl now :
  lookup_prop "channel" fields = VObj cf ->
  lookup_prop "name" cf = json_image (saved_name channel) ->
  lookup_prop "streamUrl" fields = json_image streamUrl ->
  lookup_prop "timestamp" fields = VNum now ->
  loadable_url streamUrl = true ->
  is_string (saved_name channel) = true ->
  structurally_valid (VObj fields) = true.
Proof.
  intros Hc Hn Hu Ht Hurl Hname. unfold structurally_valid. cbn [get].
  rewrite Hc, Hu, Ht. cbn [get is_object]. rewrite Hn.
  rewrite (json_image_string _ Hname), Hname.
  destruct streamUrl; try discriminate Hurl.
  cbn [loadable_url] in Hurl. unfold json_image. cbn [json_of].
  rewrite Hurl. reflexivity.
Qed.

(** X1: a record that [savePipState] accepted comes back from
    [loadPipState] within thirty minutes, with the stream URL, the channel
    name and the time of the save, provided the URL is a string longer than
    five and the channel's name (or the default name) is a string; the store
    is left as the save left it. *)
Theorem X1_saved_record_loads_back
  (now later : Q) (channel streamUrl options : Value) (s : SessionStorage)
  (Hsaved : fst (savePipState now channel streamUrl options s) = true)
  (Hurl : loadable_url streamUrl = true)
  (Hname : is_string (saved_name channel) = true)
  (Hfresh : (later - now <= 1800000)%Q) :
  let s' := snd (savePipState now channel streamUrl options s) in
  exists record,
    loadPipState later s' = (Some record, s')
    /\ get record "streamUrl" = streamUrl
    /\ get (get record "channel") "name" = saved_name channel
    /\ get record "timestamp" = VNum now.
Proof.
  cbv zeta.
  destruct (savePipState_success _ _ _ _ _ Hsaved)
    as (fields & cf & Hget & Hc & Hn & Hu & Ht).
  exists (VObj fields). split.
  - eapply loadPipState_returns; [exact Hget| |exact Ht|exact Hfresh].
    eapply saved_record_valid; eassumption.
  - cbn [get]. rewrite Hc, Hu, Ht. cbn [get]. rewrite Hn.
    rewrite (json_image_string _ Hname).
    destruct streamUrl; try discriminate Hurl. auto.
Qed.

(** Saving and reloading the news channel a minute later. *)
Lemma X1_saved_record_loads_back_witness :
  let s' := snd (savePipState 1000000 news (VStr news_url) (VObj []) empty_store) in
  exists record,
    loadPipState 1060000 s' = (Some record, s')
    /\ get record "streamUrl" = VStr news_url
    /\ get (get record "channel") "name" = saved_name news
    /\ get record "timestamp" = VNum 1000000.
Proof.
  apply (X1_saved_record_loads_back 1000000%Q 1060000%Q news (VStr news_url)
           (VObj []) empty_store); try reflexivity.
  unfold Qle. simpl. lia.
Defined.

(** X2: [savePipState] also accepts what [loadPipState] will not return.
    When the stream URL is not a string longer than five, or the channel's
    name is a truthy value that is not a string, the save succeeds and the
    next load, at whatever time, returns [null] and removes the record. *)
Theorem X2_accepted_record_can_be_unloadable
  (now later : Q) (channel streamUrl options : Value) (s : SessionStorage)
  (Hsaved : fst (savePipState now channel streamUrl options s) = true)
  (Hbad : loadable_url streamUrl = false \/ is_string (saved_name channel) = false) :
  let s' := snd (savePipState now channel streamUrl options s) in
  loadPipState later s' = (None, removeItem PIP_STATE_KEY s')
  /\ getItem PIP_STATE_KEY (removeItem PIP_STATE_KEY s') = None.
Proof.
  cbv zeta. split; [|apply getItem_removeItem].
  destruct (savePipState_success _ _ _ _ _ Hsaved)
    as (fields & cf & Hget & Hc & Hn & Hu & Ht).
  unfold loadPipState. rewrite Hget. cbn [text_truthy negb JSON_parse].
  rewrite isValidPipState_spec.
  assert (structurally_valid (VObj fields) = false) as ->; [|reflexivity].
  unfold structurally_valid. cbn [get]. rewrite Hc, Hu, Ht. cbn [get is_object].
  rewrite Hn. destruct Hbad as [Hbad|Hbad].
  - assert (match json_image streamUrl with
            | VStr u => Nat.ltb 5 (String.length u) | _ => false end = false) as ->.
    { destruct streamUrl as [| |b|q|z|u| |l|p]; try reflexivity.
      - exact Hbad.
      - unfold json_image. rewrite json_of_arr. destruct (json_elems l); reflexivity.
      - unfold json_image. rewrite json_of_obj. destruct (json_fields p); reflexivity. }
    rewrite andb_false_r. reflexivity.
  - rewrite (json_image_not_string _ Hbad). reflexivity.
Qed.

(** A four-character stream URL, and a channel whose name is a number. *)
Lemma X2_accepted_record_can_be_unloadable_witness :
  (let s' := snd (savePipState 1000000 news (VStr "a.ts") (VObj []) empty_store) in
   loadPipState 1000001 s' = (None, removeItem PIP_STATE_KEY s')
   /\ getItem PIP_STATE_KEY (removeItem PIP_STATE_KEY s') = None)
  /\ (let s' := snd (savePipState 1000000 (VObj [ ("name", VNum 5) ]) (VStr news_url)
                                  (VObj []) empty_store) in
      loadPipState 1000001 s' = (None, removeItem PIP_STATE_KEY s')
      /\ getItem PIP_STATE_KEY (removeItem PIP_STATE_KEY s') = None).
Proof.
  split.
  - apply (X2_accepted_record_can_be_unloadable 1000000%Q 1000001%Q news (VStr "a.ts")
             (VObj []) empty_store); [reflexivity|left; reflexivity].
  - apply (X2_accepted_record_can_be_unloadable 1000000%Q 1000001%Q
             (VObj [ ("name", VNum 5) ]) (VStr news_url) (VObj []) empty_store);
      [reflexivity|right; reflexivity].
Defined.

(** A record that is expired stays so: the rounded age does not decrease
    with the clock. *)
Lemma expired_later (now later timestamp : Q) :
  (now <= later)%Q ->
  greater_than (subtract now timestamp) PIP_EXPIRY_TIME = true ->
  greater_than (subtract later timestamp) PIP_EXPIRY_TIME = true.
Proof.
  intros Hle. unfold subtract. apply greater_than_monotone.
  unfold Qminus. apply Qplus_le_compat; [exact Hle|apply Qle_refl].
Qed.

(** X3: once [loadPipState] has returned [null], it returns [null] at every
    later time as well, on the store it was given and on the store it left
    behind, which it then leaves unchanged: a record that was missing,
    unreadable, invalid or expired does not come back without a new save. *)
Theorem X3_discarded_record_stays_discarded
  (now later : Q) (s : SessionStorage)
  (Hnone : fst (loadPipState now s) = None)
  (Hlater : (now <= later)%Q) :
  fst (loadPipState later s) = None
  /\ loadPipState later (snd (loadPipState now s))
     = (None, snd (loadPipState now s)).
Proof.
  revert Hnone. unfold loadPipState.
  destruct (getItem PIP_STATE_KEY s) as [t|] eqn:Hget.
  - destruct (text_truthy t) eqn:Ht; cbn [negb].
    + assert (forall s', getItem PIP_STATE_KEY (removeItem PIP_STATE_KEY s') = None)
        as Hgone by (intros; apply getItem_removeItem).
      destruct (JSON_parse t) as [state|].
      * destruct (truthy (isValidPipState state)); cbn [negb].
        -- destruct (get state "timestamp") as [| |b|ts|z|x| |l|p]; try discriminate.
           destruct (greater_than (subtract now ts) PIP_EXPIRY_TIME) eqn:Hold;
             [|discriminate].
           intros _. rewrite (expired_later _ _ _ Hlater Hold).
           cbn [clearPipState snd fst]. rewrite Hgone. auto.
        -- intros _. cbn [clearPipState snd fst]. rewrite Hgone. auto.
      * intros _. cbn [snd fst]. rewrite Hgone. auto.
    + intros _. cbn [snd fst]. rewrite Hget, Ht. auto.
  - intros _. cbn [snd fst]. rewrite Hget. auto.
Qed.

(** The news record, expired at 2,860,000, is still gone a second later. *)
Lemma X3_discarded_record_stays_discarded_witness :
  fst (loadPipState 2861000 (store_with news_record)) = None
  /\ loadPipState 2861000 (snd (loadPipState 2860000 (store_with news_record)))
     = (None, snd (loadPipState 2860000 (store_with news_record))).
Proof.
  apply (X3_discarded_record_stays_discarded 2860000%Q 2861000%Q
           (store_with news_record)); [reflexivity|].
  unfold Qle. simpl. lia.
Defined.

Lemma lookup_set_prop_ne k k' v props :
  k <> k' -> lookup_prop k (set_prop k' v props) = lookup_prop k props.
Proof.
  intros Hne. induction props as [|[k0 v0] rest IH]; cbn [set_prop lookup_prop].
  - destruct (String.eqb k k') eqn:E; [apply String.eqb_eq in E; contradiction|reflexivity].
  - destruct (String.eqb k' k0) eqn:E0; cbn [lookup_prop].
    + apply String.eqb_eq in E0. subst k0.
      destruct (String.eqb k k') eqn:E; [apply String.eqb_eq in E; contradiction|reflexivity].
    + destruct (String.eqb k k0); [reflexivity|exact IH].
Qed.

(** A boolean option of an options object is found again in the record a
    successful save leaves. *)
Lemma savePipState_keeps_flag now channel streamUrl props k b s :
  fst (savePipState now channel streamUrl (VObj props) s) = true ->
  lookup_prop k props = VBool b ->
  exists fields opts,
    getItem PIP_STATE_KEY (snd (savePipState now channel streamUrl (VObj props) s))
    = Some (Json (VObj fields))
    /\ lookup_prop "options" fields = VObj opts
    /\ lookup_prop k opts = VBool b.
Proof.
  intros Hsaved Hk.
  destruct (savePipState_success _ _ _ _ _ Hsaved) as (fields & cf & Hget & _).
  revert Hsaved Hget. unfold savePipState.
  destruct (negb (truthy channel) || negb (truthy streamUrl)); [discriminate|].
  match goal with |- context [JSON_stringify ?st] =>
    destruct (JSON_stringify st) as [text|] eqn:Hjson end; [|discriminate].
  unfold setItem. destruct (quota_exceeded s); [discriminate|]. intros _.
  destruct (stringify_saved_state _ _ _ _ _ Hjson)
    as (record & opts & -> & Ho & Hf & _).
  unfold getItem. cbn [snd items]. rewrite lookup_insert_eq. intros [= ->].
  exists fields, opts. split; [reflexivity|]. split; [exact Ho|].
  eapply flag_survives; [|exact Hf]. exact Hk.
Qed.

(** How a request without the gesture flag ends. *)
Lemma enterPiP_without_gesture B r now channel streamUrl options w :
  isPipSupported B = true ->
  truthy channel = true -> truthy streamUrl = true ->
  options <> VNull ->
  truthy (get options "fromUserGesture") = false ->
  enterPiP B r now channel streamUrl options w
  = mkWorld (setPipError (Some "Click to activate PiP")
               (setPipStatus "pending" (setPipChannel channel (manager w))))
            (snd (savePipState now channel streamUrl
                    (with_flag options "pendingPiP" true) (storage w)))
            (effects w).
Proof.
  intros Hsupported Hchannel Hurl Hoptions Hnogesture.
  unfold enterPiP. rewrite Hsupported, Hchannel, Hurl. cbn [negb orb].
  destruct options; try congruence; cbn [get] in Hnogesture |- *;
    rewrite ?Hnogesture; reflexivity.
Qed.

(** X4: after a request without a user gesture whose record was saved,
    [hasPendingPip] answers [true] for the next thirty minutes (for a stream
    URL longer than five and a channel whose name, or the default name, is a
    string) and leaves the store as it is. *)
Theorem X4_pending_request_is_reported
  (B : Browser) (r : Render) (now later : Q) (channel streamUrl options : Value)
  (w : World)
  (Hsupported : isPipSupported B = true)
  (Hoptions : options <> VNull)
  (Hnogesture : truthy (get options "fromUserGesture") = false)
  (Hsaved : fst (savePipState now channel streamUrl
                   (with_flag options "pendingPiP" true) (storage w)) = true)
  (Hurl : loadable_url streamUrl = true)
  (Hname : is_string (saved_name channel) = true)
  (Hfresh : (later - now <= 1800000)%Q) :
  let w' := enterPiP B r now channel streamUrl options w in
  pipStatus (manager w') = "pending"
  /\ hasPendingPip later (storage w') = (VBool true, storage w').
Proof.
  cbv zeta.
  destruct (savePipState_guard _ _ _ _ _ Hsaved) as [Hchannel Htruthy].
  rewrite (enterPiP_without_gesture _ r _ _ _ _ _ Hsupported Hchannel Htruthy
             Hoptions Hnogesture).
  cbn [manager storage]. split; [reflexivity|].
  destruct (savePipState_success _ _ _ _ _ Hsaved)
    as (fields & cf & Hget & Hc & Hn & Hu & Ht).
  destruct (savePipState_keeps_flag _ _ _ _ "pendingPiP" true _ Hsaved
              (lookup_set_prop _ _ _))
    as (fields' & opts & Hget' & Ho & Hp).
  unfold with_flag in *. rewrite Hget in Hget'. injection Hget' as <-.
  unfold hasPendingPip.
  rewrite (loadPipState_returns later _ (VObj fields) now Hget
             (saved_record_valid _ _ _ _ _ Hc Hn Hu Ht Hurl Hname) Ht Hfresh).
  unfold optional_option. cbn [get]. rewrite Ho. cbn [get]. rewrite Hp.
  reflexivity.
Qed.

(** The news channel requested without a gesture, asked about a minute
    later. *)
Lemma X4_pending_request_is_reported_witness :
  let w' := enterPiP supporting_browser first_render 1000000 news (VStr news_url)
                     (VObj []) fresh_world in
  pipStatus (manager w') = "pending"
  /\ hasPendingPip 1060000 (storage w') = (VBool true, storage w').
Proof.
  apply (X4_pending_request_is_reported supporting_browser first_render 1000000%Q
           1060000%Q
           news (VStr news_url) (VObj []) fresh_world); try reflexivity.
  - discriminate.
  - unfold Qle. simpl. lia.
Defined.

(* ===================================================================== *)
(** * The PiP session manager: engines, teardown and activation *)
(* ===================================================================== *)

Import PipContext.

Lemma engines_alive_app (a b : list Effect) :
  engines_alive (a ++ b) = engines_after (engines_alive a) b.
Proof. unfold engines_alive, engines_after. apply fold_left_app. Qed.

Lemma engines_after_app live (a b : list Effect) :
  engines_after live (a ++ b) = engines_after (engines_after live a) b.
Proof. unfold engines_after. apply fold_left_app. Qed.

(** Calls that neither create nor destroy an engine leave the live engines
    as they are. *)
Lemma engines_after_other live (log : list Effect) :
  forallb (fun e => negb (is_engine_lifecycle e)) log = true ->
  engines_after live log = live.
Proof.
  revert live. induction log as [|e rest IH]; intros live H; [reflexivity|].
  cbn [forallb] in H. apply andb_true_iff in H as [He Hrest].
  unfold engines_after in *. cbn [fold_left]. rewrite IH by exact Hrest.
  destruct e; try reflexivity; discriminate He.
Qed.

Lemma teardown_effects B w :
  effects (teardown B w) = (effects w ++ teardown_calls B (manager w))%list.
Proof. reflexivity. Qed.

Lemma teardown_engines B m live :
  engines_after live (teardown_calls B m)
  = match pipHlsRef m with
    | Some h => List.filter (fun h' => negb (Nat.eqb h' h)) live
    | None => live
    end.
Proof.
  unfold teardown_calls. rewrite !engines_after_app.
  rewrite (engines_after_other live).
  2:{ destruct (pipVideoRef m); [|reflexivity].
      destruct (decide _); reflexivity. }
  rewrite (engines_after_other _ (match pipVideoRef m with
                                  | Some h => [removeChild h] | None => [] end)).
  2:{ destruct (pipVideoRef m); reflexivity. }
  destruct (pipHlsRef m); reflexivity.
Qed.

Lemma teardown_torn_down B w : torn_down (teardown B w).
Proof.
  unfold torn_down, teardown. cbn. repeat split. apply getItem_removeItem.
Qed.




(** A request made from a user gesture, where hls.js is supported: the
    previous session is dealt with, then element [fresh B] and engine
    [S (fresh B)] are set up. *)
Lemma enterPiP_gesture_hls B r now channel streamUrl options w :
  isPipSupported B = true -> Hls_isSupported B = true ->
  truthy channel = true -> truthy streamUrl = true ->
  from_gesture options ->
  let w3 := cleared_for_setup B r now channel streamUrl options w in
  enterPiP B r now channel streamUrl options w
  = mkWorld
      (setRefs (Some (fresh B)) (Some (S (fresh B)))
         (setPipStatus "loading"
            (setPipChannel channel
               (setCurrentStreamUrl streamUrl
                  (setRefs (Some (fresh B)) (pipHlsRef (manager w3)) (manager w3))))))
      (snd (savePipState now channel streamUrl
              (with_flag options "pendingPiP" false) (storage w3)))
      ((effects w3 ++ element_calls (fresh B)
        ++ engine_calls (S (fresh B)) (fresh B) streamUrl) ++ [setTimeout 1000%N])%list.
Proof.
  intros Hsupported Hhls Hchannel Hurl [Hnotnull Hgesture]. cbv zeta.
  unfold enterPiP, cleared_for_setup.
  rewrite Hsupported, Hhls, Hchannel, Hurl. cbn [negb orb].
  destruct options; try congruence; try discriminate Hgesture;
    cbn [get] in Hgesture |- *; rewrite ?Hgesture; cbn [negb];
    cbn [manager storage effects]; unfold element_calls, engine_calls;
    rewrite <- ?app_assoc; reflexivity.
Qed.

Lemma cleared_for_setup_engines B r now channel streamUrl options w :
  engines_alive (effects (cleared_for_setup B r now channel streamUrl options w))
  = if bool_decide (is_Some (pictureInPictureElement B))
       || bool_decide (is_Some (render_pipVideo r))
    then match pipHlsRef (manager w) with
         | Some h => List.filter (fun h' => negb (Nat.eqb h' h))
                                 (engines_alive (effects w))
         | None => engines_alive (effects w)
         end
    else engines_alive (effects w).
Proof.
  unfold cleared_for_setup.
  destruct (bool_decide (is_Some (pictureInPictureElement B))
            || bool_decide (is_Some (render_pipVideo r))); [|reflexivity].
  unfold exitPipInternal. rewrite teardown_effects, engines_alive_app, teardown_engines.
  reflexivity.
Qed.

Lemma setup_engines live h v url :
  engines_after live (element_calls v ++ engine_calls h v url) = (live ++ [h])%list.
Proof. reflexivity. Qed.



(** X7: a request made from a user gesture through a callback that sees no
    PiP session (the render the callback was made in held no PiP video, and
    the document shows no element in PiP), while the manager's ref holds the
    engine of an earlier setup, does not tear that setup down: its engine is
    never destroyed, so two engines are alive afterwards and the manager
    tracks only the new one.  This is so while the earlier request is still
    loading, and also while it waits for its click if the callback was made
    before the element was registered. *)
Theorem X7_request_during_loading_leaks_the_engine
  (B : Browser) (r : Render) (now : Q) (channel streamUrl options : Value) (w : World)
  (old : Handle)
  (Hsupported : isPipSupported B = true)
  (Hhls : Hls_isSupported B = true)
  (Hchannel : truthy channel = true)
  (Hurl : truthy streamUrl = true)
  (Hgesture : from_gesture options)
  (Hnovideo : render_pipVideo r = None)
  (Hnopip : pictureInPictureElement B = None)
  (Hengine : pipHlsRef (manager w) = Some old)
  (Htracked : engines_alive (effects w) = tracked_engine (manager w)) :
  let w' := enterPiP B r now channel streamUrl options w in
  engines_alive (effects w') = [old; S (fresh B)]
  /\ tracked_engine (manager w') = [S (fresh B)]
  /\ exists calls, effects w' = (effects w ++ calls)%list
                   /\ ~ In (hls_destroy old) calls.
Proof.
  cbv zeta.
  rewrite (enterPiP_gesture_hls _ r _ _ _ _ _ Hsupported Hhls Hchannel Hurl Hgesture).
  cbv zeta. cbn [manager effects].
  assert (cleared_for_setup B r now channel streamUrl options w
          = mkWorld (setPipStatus "initializing"
                       (setPipError None
                          (setIsSwitchingPip true (setPipChannel channel (manager w)))))
                    (snd (savePipState now channel streamUrl
                            (with_flag options "pendingPiP" true) (storage w)))
                    (effects w)) as Hclear.
  { unfold cleared_for_setup. rewrite Hnovideo, Hnopip. reflexivity. }
  split; [|split; [reflexivity|]].
  - rewrite !engines_alive_app, setup_engines, cleared_for_setup_engines.
    rewrite Hnovideo, Hnopip, Htracked. unfold tracked_engine. rewrite Hengine.
    reflexivity.
  - rewrite Hclear. cbn [effects]. rewrite <- app_assoc. eexists. split; [reflexivity|].
    unfold element_calls, engine_calls. cbn [app In].
    intros H. repeat (destruct H as [H|H]; [discriminate H|]). exact H.
Qed.

(** A second click while the first request is still loading, and a click
    on another channel while the first waits for its click, through the
    callback of the first render. *)
Lemma X7_request_during_loading_leaks_the_engine_witness :
  (let w' := enterPiP loading_browser (render_of (manager loading_world)) 2000000 news
                      (VStr news_url) gesture_options loading_world in
   engines_alive (effects w') = [6; 8]
   /\ tracked_engine (manager w') = [8]
   /\ exists calls, effects w' = (effects loading_world ++ calls)%list
                    /\ ~ In (hls_destroy 6) calls)
  /\ (let w' := enterPiP loading_browser first_render 2000000 news
                         (VStr news_url) gesture_options refused_world in
      pipVideo (manager refused_world) = Some 5
      /\ engines_alive (effects w') = [6; 8]
      /\ tracked_engine (manager w') = [8]).
Proof.
  split.
  - apply (X7_request_during_loading_leaks_the_engine loading_browser
             (render_of (manager loading_world)) 2000000%Q news
             (VStr news_url) gesture_options loading_world 6); try reflexivity.
    split; [discriminate|reflexivity].
  - cbv zeta. split; [reflexivity|].
    destruct (X7_request_during_loading_leaks_the_engine loading_browser
                first_render 2000000%Q news
                (VStr news_url) gesture_options refused_world 6)
      as (Halive & Htracked & _); try reflexivity.
    + split; [discriminate|reflexivity].
    + split; assumption.
Defined.

Lemma teardown_creates_no_engine B m h : ~ In (new_Hls h) (teardown_calls B m).
Proof.
  unfold teardown_calls. intros H.
  repeat (apply in_app_or in H as [H|H]);
    destruct (pipVideoRef m), (pipHlsRef m); cbn [In] in H;
    try destruct (decide _); cbn [In app] in H;
    repeat (destruct H as [H|H]; [discriminate H|]); exact H.
Qed.

Lemma cleared_for_setup_creates_no_engine B r now channel streamUrl options w h :
  In (new_Hls h) (effects (cleared_for_setup B r now channel streamUrl options w)) ->
  In (new_Hls h) (effects w).
Proof.
  unfold cleared_for_setup.
  destruct (bool_decide _ || bool_decide _); [|auto].
  unfold exitPipInternal. rewrite teardown_effects. cbn [effects].
  intros H. apply in_app_or in H as [H|H]; [exact H|].
  destruct (teardown_creates_no_engine _ _ _ H).
Qed.

(** X8: where Picture-in-Picture exists but neither hls.js nor native HLS
    playback does, a request made from a user gesture creates no engine and
    ends with the error "Failed to setup PiP: HLS is not supported in this
    browser".  When the callback does not see a switch in progress the
    element it had created is removed again and the session is torn down,
    record included; when it does, the cleanup is skipped: the element stays
    in the document, the status stays "error" and the record stays saved. *)
Theorem X8_no_playback_support_ends_in_error
  (B : Browser) (r : Render) (now : Q) (channel streamUrl options : Value) (w : World)
  (Hsupported : isPipSupported B = true)
  (Hnohls : Hls_isSupported B = false)
  (Hnonative : canPlay_mpegurl B = false)
  (Hchannel : truthy channel = true)
  (Hurl : truthy streamUrl = true)
  (Hgesture : from_gesture options) :
  let w' := enterPiP B r now channel streamUrl options w in
  let w3 := cleared_for_setup B r now channel streamUrl options w in
  pipError (manager w')
  = Some "Failed to setup PiP: HLS is not supported in this browser"
  /\ (forall h, In (new_Hls h) (effects w') -> In (new_Hls h) (effects w))
  /\ (render_isSwitchingPip r = false ->
      torn_down w' /\ In (removeChild (fresh B)) (effects w'))
  /\ (render_isSwitchingPip r = true ->
      pipStatus (manager w') = "error"
      /\ pipVideoRef (manager w') = Some (fresh B)
      /\ effects w' = (effects w3 ++ element_calls (fresh B) ++ [setTimeout 1000%N])%list
      /\ storage w'
         = snd (savePipState now channel streamUrl
                  (with_flag options "pendingPiP" false) (storage w3))).
Proof.
  destruct Hgesture as [Hnotnull Hgesture]. cbv zeta.
  set (w3 := cleared_for_setup B r now channel streamUrl options w).
  set (w5 := mkWorld (setPipStatus "error"
                        (setPipChannel channel
                           (setCurrentStreamUrl streamUrl
                              (setRefs (Some (fresh B)) (pipHlsRef (manager w3))
                                       (manager w3)))))
                     (snd (savePipState now channel streamUrl
                             (with_flag options "pendingPiP" false) (storage w3)))
                     (effects w3 ++ element_calls (fresh B))%list).
  assert (enterPiP B r now channel streamUrl options w
          = let w6 := cleanupPipResources B (render_isSwitchingPip r) false w5 in
            mkWorld (setPipError
                       (Some "Failed to setup PiP: HLS is not supported in this browser")
                       (manager w6))
                    (storage w6) (effects w6 ++ [setTimeout 1000%N])%list) as ->.
  { subst w5 w3. unfold enterPiP, cleared_for_setup.
    rewrite Hsupported, Hnohls, Hnonative, Hchannel, Hurl. cbn [negb orb].
    destruct options; try congruence; try discriminate Hgesture;
      cbn [get] in Hgesture |- *; rewrite ?Hgesture; reflexivity. }
  cbv zeta. unfold cleanupPipResources.
  assert (forall h, In (new_Hls h) (effects w5) -> In (new_Hls h) (effects w)) as Hw5.
  { intros h H. subst w5. cbn [effects] in H. apply in_app_or in H as [H|H].
    - eapply cleared_for_setup_creates_no_engine. exact H.
    - cbn [element_calls In] in H.
      repeat (destruct H as [H|H]; [discriminate H|]). destruct H. }
  destruct (render_isSwitchingPip r); cbn [andb negb manager storage effects].
  - split; [reflexivity|]. split.
    + intros h H. apply in_app_or in H as [H|H]; [auto|].
      destruct H as [H|[]]. discriminate H.
    + split; [discriminate|]. intros _. subst w5. cbn [manager storage effects].
      rewrite <- app_assoc. repeat split.
  - split; [reflexivity|]. split.
    + intros h H. apply in_app_or in H as [H|H].
      * rewrite teardown_effects in H. apply in_app_or in H as [H|H]; [auto|].
        destruct (teardown_creates_no_engine _ _ _ H).
      * destruct H as [H|[]]. discriminate H.
    + split; [|discriminate]. intros _. split.
      * destruct (teardown_torn_down B w5) as (H1 & H2 & H3 & H4 & H5 & H6 & H7).
        repeat split; assumption.
      * apply in_or_app. left. rewrite teardown_effects. apply in_or_app. right.
        subst w5. unfold teardown_calls. cbn [manager pipVideoRef setPipStatus
          setPipChannel setCurrentStreamUrl setRefs].
        apply in_or_app. right. apply in_or_app. right. left. reflexivity.
Qed.

(** A click in a browser that cannot play HLS, outside and inside a
    switch. *)
Lemma X8_no_playback_support_ends_in_error_witness :
  let w' := enterPiP no_hls_browser first_render 1000000 news (VStr news_url)
                     gesture_options fresh_world in
  let w3 := cleared_for_setup no_hls_browser first_render 1000000 news (VStr news_url)
                              gesture_options fresh_world in
  pipError (manager w')
  = Some "Failed to setup PiP: HLS is not supported in this browser"
  /\ (forall h, In (new_Hls h) (effects w') -> In (new_Hls h) (effects fresh_world))
  /\ (render_isSwitchingPip first_render = false ->
      torn_down w' /\ In (removeChild (fresh no_hls_browser)) (effects w'))
  /\ (render_isSwitchingPip first_render = true ->
      pipStatus (manager w') = "error"
      /\ pipVideoRef (manager w') = Some (fresh no_hls_browser)
      /\ effects w'
         = (effects w3 ++ element_calls (fresh no_hls_browser)
            ++ [setTimeout 1000%N])%list
      /\ storage w'
         = snd (savePipState 1000000 news (VStr news_url)
                  (with_flag gesture_options "pendingPiP" false) (storage w3))).
Proof.
  apply (X8_no_playback_support_ends_in_error no_hls_browser first_render 1000000%Q news
           (VStr news_url) gesture_options fresh_world); try reflexivity.
  split; [discriminate|reflexivity].
Defined.

Lemma valid_record_parts state :
  structurally_valid state = true ->
  truthy (get state "channel") = true
  /\ truthy (get state "streamUrl") = true
  /\ loadable_url (get state "streamUrl") = true
  /\ is_string (saved_name (get state "channel")) = true.
Proof.
  unfold structurally_valid, saved_name, or_js. intros H.
  apply andb_true_iff in H as [H _]. apply andb_true_iff in H as [H Hu].
  apply andb_true_iff in H as [Hc Hn].
  repeat split.
  - destruct (get state "channel"); try discriminate Hc; reflexivity.
  - destruct (get state "streamUrl") as [| |b|q|z|u| |l|p]; try discriminate Hu.
    destruct u; [discriminate Hu|reflexivity].
  - destruct (get state "streamUrl"); try discriminate Hu. exact Hu.
  - destruct (truthy (get (get state "channel") "name")); [exact Hn|reflexivity].
Qed.

(** The record in the store after a save of options that hold the boolean
    [b] under [k]: either there is none, or it holds [b] under [k]. *)
Lemma savePipState_flag_or_nothing now channel streamUrl props k b s :
  truthy channel = true -> truthy streamUrl = true ->
  lookup_prop k props = VBool b ->
  match getItem PIP_STATE_KEY
          (snd (savePipState now channel streamUrl (VObj props) s)) with
  | Some (Json record) => optional_option record k = VBool b
  | Some (Raw _) => False
  | None => True
  end.
Proof.
  intros Hchannel Hurl Hk.
  destruct (fst (savePipState now channel streamUrl (VObj props) s)) eqn:Hsaved.
  - destruct (savePipState_keeps_flag _ _ _ _ _ _ _ Hsaved Hk)
      as (fields & opts & -> & Ho & Hp).
    unfold optional_option. cbn [get]. rewrite Ho. exact Hp.
  - revert Hsaved. unfold savePipState. rewrite Hchannel, Hurl. cbn [negb orb].
    destruct (JSON_stringify _); [|intros _; cbn [snd]; rewrite getItem_removeItem; exact I].
    destruct (setItem _ _ s); [discriminate|].
    intros _. cbn [snd]. rewrite getItem_removeItem. exact I.
Qed.

Lemma loadPipState_stored now s state s' :
  loadPipState now s = (Some state, s') ->
  s' = s /\ getItem PIP_STATE_KEY s = Some (Json state).
Proof.
  unfold loadPipState.
  destruct (getItem PIP_STATE_KEY s) as [t|]; [|discriminate].
  destruct (negb (text_truthy t)); [discriminate|].
  destruct t as [v|raw]; cbn [JSON_parse]; [|discriminate].
  destruct (negb (truthy (isValidPipState v))); [discriminate|].
  destruct (get v "timestamp"); try (intros [= <- <-]; auto).
  destruct (greater_than _ _); [discriminate|]. intros [= <- <-]; auto.
Qed.

(** What [loadPipState] returns passed its validation. *)
Lemma loadPipState_valid now s state s' :
  loadPipState now s = (Some state, s') -> structurally_valid state = true.
Proof.
  unfold loadPipState.
  destruct (getItem PIP_STATE_KEY s) as [t|]; [|discriminate].
  destruct (negb (text_truthy t)); [discriminate|].
  destruct t as [v|raw]; cbn [JSON_parse]; [|discriminate].
  rewrite isValidPipState_spec.
  destruct (structurally_valid v) eqn:Hv; cbn [truthy negb]; [|discriminate].
  destruct (get v "timestamp"); try (intros [= <- <-]; exact Hv).
  destruct (greater_than _ _); [discriminate|]. intros [= <- <-]; exact Hv.
Qed.

(** X9: a click on the indicator of a pending request (the click handler
    is that of a render showing status "pending"), with a valid record
    not older than thirty minutes in the store and hls.js available, starts
    the session from the record: an element and an engine are created, the
    engine loads the record's stream URL, the manager shows the record's
    channel with status "loading" and no error, and whatever record is in
    the store afterwards is no longer marked pending. *)
Theorem X9_click_starts_the_pending_session
  (B : Browser) (r : Render) (status : string) (now : Q) (requested : Settled)
  (w : World) (state : Value) (timestamp : Q)
  (Hsupported : isPipSupported B = true)
  (Hhls : Hls_isSupported B = true)
  (Hrecord : getItem PIP_STATE_KEY (storage w) = Some (Json state))
  (Hvalid : structurally_valid state = true)
  (Hts : get state "timestamp" = VNum timestamp)
  (Hfresh : (now - timestamp <= 1800000)%Q)
  (Hpending : status = "pending") :
  let w' := activatePendingPiP B r status now requested w in
  pipStatus (manager w') = "loading"
  /\ pipChannel (manager w') = get state "channel"
  /\ currentStreamUrl (manager w') = get state "streamUrl"
  /\ pipError (manager w') = None
  /\ pipVideoRef (manager w') = Some (fresh B)
  /\ tracked_engine (manager w') = [S (fresh B)]
  /\ In (hls_loadSource (S (fresh B)) (get state "streamUrl")) (effects w')
  /\ match getItem PIP_STATE_KEY (storage w') with
     | Some (Json record) => optional_option record "pendingPiP" = VBool false
     | Some (Raw _) => False
     | None => True
     end.
Proof.
  cbv zeta.
  destruct (valid_record_parts _ Hvalid) as (Hchannel & Hurl & _ & _).
  unfold activatePendingPiP.
  rewrite (loadPipState_returns _ _ _ _ Hrecord Hvalid Hts Hfresh).
  rewrite Hpending.
  set (options' := with_flag (with_flag (get state "options") "fromUserGesture" true)
                             "pendingPiP" false).
  set (w1 := mkWorld (setPipStatus "activating" (setPipError None (manager w)))
                     (storage w) (effects w)).
  assert (from_gesture options') as Hgesture.
  { split; [discriminate|]. subst options'. unfold with_flag. cbn [get spread].
    rewrite lookup_set_prop_ne by discriminate. rewrite lookup_set_prop. reflexivity. }
  assert (match pipVideoRef (manager w) with
          | Some video =>
              if String.eqb "pending" "needsActivation" then
                match requested with
                | Fulfilled =>
                    mkWorld (setPipStatus "active"
                               (setPipVideo (Some video)
                                  (setPipStatus "activating" (setPipError None (manager w)))))
                            (snd (savePipState now (get state "channel")
                                    (get state "streamUrl")
                                    (with_flag (with_flag (get state "options")
                                                  "pendingPiP" false)
                                               "needsActivation" false) (storage w)))
                            (effects w ++ [requestPictureInPicture video])%list
                | Rejected _ _ =>
                    enterPiP B r now (get state "channel") (get state "streamUrl") options'
                      (mkWorld (setPipStatus "activating" (setPipError None (manager w)))
                               (storage w)
                               (effects w ++ [requestPictureInPicture video])%list)
                end
              else enterPiP B r now (get state "channel") (get state "streamUrl") options' w1
          | None => enterPiP B r now (get state "channel") (get state "streamUrl") options' w1
          end
          = enterPiP B r now (get state "channel") (get state "streamUrl") options' w1) as ->.
  { destruct (pipVideoRef (manager w)); reflexivity. }
  rewrite (enterPiP_gesture_hls _ r _ _ _ _ _ Hsupported Hhls Hchannel Hurl Hgesture).
  cbv zeta. cbn [manager storage effects pipStatus pipChannel currentStreamUrl pipError
    pipVideoRef setRefs setPipStatus setPipChannel setCurrentStreamUrl].
  repeat split.
  - unfold cleared_for_setup.
    destruct (bool_decide _ || bool_decide _); reflexivity.
  - apply in_or_app. left. apply in_or_app. right. apply in_or_app. right.
    unfold engine_calls. cbn [In]. auto 10.
  - subst options'. unfold with_flag at 1.
    apply savePipState_flag_or_nothing; [exact Hchannel|exact Hurl|].
    apply lookup_set_prop.
Qed.

(** A click on the indicator of the request made on the page before. *)
Lemma X9_click_starts_the_pending_session_witness :
  let w' := activatePendingPiP supporting_browser first_render
                               (pipStatus (manager pending_world)) 1060000 Fulfilled
                               pending_world in
  let state :=
    VObj [ ("channel", VObj [ ("id", VStr news_url); ("name", VStr "News");
                              ("logo", VNull); ("group", VNull);
                              ("channelId", VStr news_url) ]);
           ("streamUrl", VStr news_url);
           ("options", VObj [ ("pendingPiP", VBool true) ]);
           ("timestamp", VNum 1000000);
           ("version", VStr "1.0") ] in
  pipStatus (manager w') = "loading"
  /\ pipChannel (manager w') = get state "channel"
  /\ currentStreamUrl (manager w') = get state "streamUrl"
  /\ pipError (manager w') = None
  /\ pipVideoRef (manager w') = Some (fresh supporting_browser)
  /\ tracked_engine (manager w') = [S (fresh supporting_browser)]
  /\ In (hls_loadSource (S (fresh supporting_browser)) (get state "streamUrl"))
        (effects w')
  /\ match getItem PIP_STATE_KEY (storage w') with
     | Some (Json record) => optional_option record "pendingPiP" = VBool false
     | Some (Raw _) => False
     | None => True
     end.
Proof.
  cbv zeta.
  apply (X9_click_starts_the_pending_session supporting_browser first_render
           (pipStatus (manager pending_world)) 1060000%Q Fulfilled
           pending_world _ 1000000%Q); try reflexivity.
  unfold Qle. simpl. lia.
Defined.

(** X10: a click on the indicator of a session that waits for activation
    (the click handler is that of a render showing status
    "needsActivation", and the element is still there).  When
    [loadPipState] finds the record of the session (valid and not expired),
    the click asks the browser for Picture-in-Picture on that element; when
    the browser grants it, the session is active on the same element and
    engine, nothing is created or destroyed, and from then on
    [hasPendingPip] answers no.  When [loadPipState] finds no record (it was
    never saved, is invalid or has expired), the click does nothing: the
    browser is not asked, the manager stays as it is and the store is as the
    load left it. *)
Theorem X10_click_activates_the_waiting_element
  (B : Browser) (r : Render) (status : string) (now : Q) (w : World)
  (video : Handle)
  (Hvideo : pipVideoRef (manager w) = Some video)
  (Hwaiting : status = "needsActivation") :
  let w' := activatePendingPiP B r status now Fulfilled w in
  match fst (loadPipState now (storage w)) with
  | Some _ =>
      pipStatus (manager w') = "active"
      /\ pipVideo (manager w') = Some video
      /\ pipError (manager w') = None
      /\ pipVideoRef (manager w') = Some video
      /\ pipHlsRef (manager w') = pipHlsRef (manager w)
      /\ effects w' = (effects w ++ [requestPictureInPicture video])%list
      /\ forall later, truthy (fst (hasPendingPip later (storage w'))) = false
  | None =>
      manager w' = manager w
      /\ effects w' = effects w
      /\ storage w' = snd (loadPipState now (storage w))
  end.
Proof.
  cbv zeta. unfold activatePendingPiP.
  destruct (loadPipState now (storage w)) as [[state|] st] eqn:Hload; cbn [fst snd];
    [|repeat split].
  pose proof (loadPipState_valid _ _ _ _ Hload) as Hvalid.
  apply loadPipState_stored in Hload as [-> Hrecord].
  destruct (valid_record_parts _ Hvalid) as (Hchannel & Hurl & _ & _).
  rewrite Hvideo, Hwaiting. cbn [String.eqb Ascii.eqb Bool.eqb manager storage effects].
  cbn [pipStatus pipVideo pipError pipVideoRef pipHlsRef setPipStatus setPipVideo
       setPipError].
  rewrite Hvideo. repeat split.
  intros later. unfold hasPendingPip.
  destruct (loadPipState later _) as [[record|] s'] eqn:Hload; [|reflexivity].
  apply loadPipState_stored in Hload as [-> Hstored]. cbn [fst].
  pose proof (savePipState_flag_or_nothing now (get state "channel")
                (get state "streamUrl")
                (set_prop "needsActivation" (VBool false)
                   (spread (with_flag (get state "options") "pendingPiP" false)))
                "needsActivation" false (storage w) Hchannel Hurl
                (lookup_set_prop _ _ _)) as Hneeds.
  pose proof (savePipState_flag_or_nothing now (get state "channel")
                (get state "streamUrl")
                (set_prop "needsActivation" (VBool false)
                   (spread (with_flag (get state "options") "pendingPiP" false)))
                "pendingPiP" false (storage w) Hchannel Hurl) as Hpend.
  unfold with_flag in Hstored at 1. rewrite Hstored in Hneeds, Hpend.
  rewrite Hneeds, Hpend; [reflexivity|].
  rewrite lookup_set_prop_ne by discriminate.
  unfold with_flag. cbn [spread]. apply lookup_set_prop.
Qed.

(** The click on the indicator of the refused session a minute later, and
    the same click an hour later, when the record has expired. *)
Lemma X10_click_activates_the_waiting_element_witness :
  (let w' := activatePendingPiP loading_browser first_render
                                (pipStatus (manager refused_world)) 1060000
                                Fulfilled refused_world in
   pipStatus (manager w') = "active"
   /\ pipVideo (manager w') = Some 5
   /\ pipError (manager w') = None
   /\ pipVideoRef (manager w') = Some 5
   /\ pipHlsRef (manager w') = pipHlsRef (manager refused_world)
   /\ effects w' = (effects refused_world ++ [requestPictureInPicture 5])%list
   /\ forall later, truthy (fst (hasPendingPip later (storage w'))) = false)
  /\ (let w' := activatePendingPiP loading_browser first_render
                                   (pipStatus (manager refused_world)) 4600000
                                   Fulfilled refused_world in
      manager w' = manager refused_world
      /\ effects w' = effects refused_world
      /\ getItem PIP_STATE_KEY (storage w') = None).
Proof.
  split.
  - pose proof (X10_click_activates_the_waiting_element loading_browser first_render
                  (pipStatus (manager refused_world)) 1060000%Q refused_world 5
                  eq_refl eq_refl) as H.
    cbv zeta in H.
    destruct (fst (loadPipState 1060000 (storage refused_world))) eqn:Hload;
      [exact H|vm_compute in Hload; discriminate Hload].
  - pose proof (X10_click_activates_the_waiting_element loading_browser first_render
                  (pipStatus (manager refused_world)) 4600000%Q refused_world 5
                  eq_refl eq_refl) as H.
    cbv zeta in H.
    destruct (fst (loadPipState 4600000 (storage refused_world))) eqn:Hload;
      [vm_compute in Hload; discriminate Hload|].
    destruct H as (Hm & He & Hs). cbv zeta. split; [exact Hm|]. split; [exact He|].
    rewrite Hs. reflexivity.
Defined.



(** X12: the engine's error listener of a PiP session.  On a buffer stall
    of an element that is not playing the listener does nothing; on one of
    a playing element it moves the position half a second on and asks the
    engine to load on.  Unless that call throws, the stall is absorbed even
    when the engine reports it as fatal: the manager and the store see
    nothing.  If the call throws, the stall is treated like any other error:
    a fatal one sets the status "error".  No error that is not fatal changes
    the manager or the store.  A fatal error that is neither a stall, a
    network error nor a media error tears the session down (when the
    listener's setup saw no switch in progress) and leaves the message
    "Fatal stream error: ..." on a manager whose status is "inactive". *)
Theorem X12_engine_errors_of_a_pip_session
  (B : Browser) (E : Hls.Engine) (c : Setup) (playing : bool) (currentTime : Q)
  (data : Hls.ErrorData) (w : World) :
  let moved :=
    mkWorld (manager w) (storage w)
            (effects w ++ [set_currentTime (setup_video c)
                                           (add currentTime (1 # 2))])%list in
  (Hls.details data = Hls.ErrorDetails.BUFFER_STALLED_ERROR ->
   PipContext.onHlsError B E c false currentTime data w = (w, [])
   /\ (Hls.startLoad_throws E = false ->
       PipContext.onHlsError B E c true currentTime data w = (moved, [Hls.startLoad]))
   /\ (Hls.startLoad_throws E = true -> Hls.fatal data = true ->
       let w' := fst (PipContext.onHlsError B E c true currentTime data w) in
       pipStatus (manager w') = "error" \/ pipStatus (manager w') = "inactive"))
  /\ (Hls.fatal data = false ->
      manager (fst (PipContext.onHlsError B E c playing currentTime data w)) = manager w
      /\ storage (fst (PipContext.onHlsError B E c playing currentTime data w))
         = storage w)
  /\ (Hls.fatal data = true ->
      Hls.details data <> Hls.ErrorDetails.BUFFER_STALLED_ERROR ->
      Hls.type data <> Hls.ErrorTypes.NETWORK_ERROR ->
      Hls.type data <> Hls.ErrorTypes.MEDIA_ERROR ->
      setup_switching c = false ->
      let w' := fst (PipContext.onHlsError B E c playing currentTime data w) in
      torn_down w'
      /\ pipError (manager w') = Some ("Fatal stream error: " ++ Hls.details data)
      /\ snd (PipContext.onHlsError B E c playing currentTime data w) = []).
Proof.
  cbv zeta. unfold PipContext.onHlsError. split; [|split].
  - intros ->. rewrite String.eqb_refl. cbn [andb negb]. split; [reflexivity|]. split.
    + intros ->. reflexivity.
    + intros -> ->. cbn [negb].
      destruct (String.eqb (Hls.type data) Hls.ErrorTypes.NETWORK_ERROR);
        [left; reflexivity|].
      destruct (String.eqb (Hls.type data) Hls.ErrorTypes.MEDIA_ERROR);
        [left; reflexivity|].
      cbn [fst manager pipStatus setPipError]. unfold cleanupPipResources.
      destruct (setup_switching c && negb false); [left; reflexivity|right; reflexivity].
  - intros ->.
    destruct (String.eqb (Hls.details data) Hls.ErrorDetails.BUFFER_STALLED_ERROR),
      playing, (Hls.startLoad_throws E); split; reflexivity.
  - intros -> Hstall Hnet Hmedia ->.
    apply String.eqb_neq in Hstall, Hnet, Hmedia. rewrite Hstall, Hnet, Hmedia.
    cbn [andb]. cbv zeta. unfold cleanupPipResources. cbn [andb negb fst snd].
    split; [|split; reflexivity].
    destruct (teardown_torn_down B
                (mkWorld (setPipStatus "error" (manager w)) (storage w) (effects w)))
      as (H1 & H2 & H3 & H4 & H5 & H6 & H7).
    repeat split; assumption.
Qed.

(** A fatal stall and a fatal remux error in the session that is loading;
    the same stall with an engine whose [startLoad] throws. *)
Lemma X12_engine_errors_of_a_pip_session_witness :
  PipContext.onHlsError loading_browser healthy_engine loading_setup true 12 fatal_stall
                        loading_world
  = (mkWorld (manager loading_world) (storage loading_world)
             (effects loading_world ++ [set_currentTime 5 (add 12 (1 # 2))])%list,
     [Hls.startLoad])
  /\ pipStatus (manager (fst (PipContext.onHlsError loading_browser broken_engine
                                loading_setup true 12 fatal_stall loading_world)))
     = "error"
  /\ torn_down (fst (PipContext.onHlsError loading_browser healthy_engine loading_setup
                       true 12 fatal_mux_error loading_world))
  /\ pipStatus (manager (fst (PipContext.onHlsError loading_browser healthy_engine
                                loading_setup true 12 fatal_mux_error loading_world)))
     = "inactive".
Proof.
  pose proof (X12_engine_errors_of_a_pip_session loading_browser healthy_engine
                loading_setup true 12%Q fatal_stall loading_world) as (Hstall & _ & _).
  pose proof (X12_engine_errors_of_a_pip_session loading_browser healthy_engine
                loading_setup true 12%Q fatal_mux_error loading_world)
    as (_ & _ & Hfatal).
  split.
  - destruct (Hstall eq_refl) as (_ & Hmoved & _). rewrite (Hmoved eq_refl).
    reflexivity.
  - split; [reflexivity|].
    destruct Hfatal as (Htorn & _ & _); try reflexivity; try discriminate.
    split; [exact Htorn|]. apply Htorn.
Defined.

(** X13: when the stream is ready and playing but the browser refuses
    Picture-in-Picture for want of a user gesture ([NotAllowedError]), the
    session is kept and waits for a click: status "needsActivation", the
    element registered as the PiP video, its engine untouched, the message
    "Click to activate PiP mode"; and when the record was saved,
    [hasPendingPip] answers yes for the next thirty minutes. *)
Theorem X13_refused_request_waits_for_a_click
  (B : Browser) (now later : Q) (c : Setup) (message : string) (w : World)
  (Hsaved : fst (savePipState now (setup_channel c) (setup_streamUrl c)
                   (with_flag (setup_options c) "needsActivation" true)
                   (storage w)) = true)
  (Hurl : loadable_url (setup_streamUrl c) = true)
  (Hname : is_string (saved_name (setup_channel c)) = true)
  (Hfresh : (later - now <= 1800000)%Q) :
  let w' := onManifestParsed B now c Fulfilled
                             (Rejected "NotAllowedError" message) w in
  pipStatus (manager w') = "needsActivation"
  /\ pipVideo (manager w') = Some (setup_video c)
  /\ pipError (manager w') = Some "Click to activate PiP mode"
  /\ pipVideoRef (manager w') = pipVideoRef (manager w)
  /\ pipHlsRef (manager w') = pipHlsRef (manager w)
  /\ effects w' = (effects w ++ [requestPictureInPicture (setup_video c)])%list
  /\ truthy (fst (hasPendingPip later (storage w'))) = true.
Proof.
  cbv zeta. unfold onManifestParsed. cbn [String.eqb Ascii.eqb Bool.eqb].
  cbn [manager storage effects]. repeat split.
  destruct (savePipState_success _ _ _ _ _ Hsaved)
    as (fields & cf & Hget & Hc & Hn & Hu & Ht).
  destruct (savePipState_keeps_flag _ _ _ _ "needsActivation" true _ Hsaved
              (lookup_set_prop _ _ _))
    as (fields' & opts & Hget' & Ho & Hp).
  unfold with_flag in *. rewrite Hget in Hget'. injection Hget' as <-.
  unfold hasPendingPip.
  rewrite (loadPipState_returns later _ (VObj fields) now Hget
             (saved_record_valid _ _ _ _ _ Hc Hn Hu Ht Hurl Hname) Ht Hfresh).
  cbn [fst]. unfold optional_option. cbn [get]. rewrite Ho. cbn [get]. rewrite Hp.
  unfold or_js. destruct (truthy (lookup_prop "pendingPiP" opts)) eqn:E; [exact E|reflexivity].
Qed.

(** The browser refusing the session that was loading. *)
Lemma X13_refused_request_waits_for_a_click_witness :
  pipStatus (manager refused_world) = "needsActivation"
  /\ pipVideo (manager refused_world) = Some 5
  /\ pipError (manager refused_world) = Some "Click to activate PiP mode"
  /\ pipVideoRef (manager refused_world) = pipVideoRef (manager loading_world)
  /\ pipHlsRef (manager refused_world) = pipHlsRef (manager loading_world)
  /\ effects refused_world = (effects loading_world ++ [requestPictureInPicture 5])%list
  /\ truthy (fst (hasPendingPip 1060000 (storage refused_world))) = true.
Proof.
  apply (X13_refused_request_waits_for_a_click loading_browser 1000000%Q 1060000%Q
           loading_setup "gesture required" loading_world); try reflexivity.
  unfold Qle. simpl. lia.
Defined.

(** X14: a pending request survives a change of page.  When the provider
    mounts with no PiP session of its own and finds a valid record not older
    than thirty minutes whose options carry no user-gesture flag, it shows
    status "restoring" and schedules [enterPiP] with the record's channel,
    stream URL and options; that call, at any later time, ends in status
    "pending" again with the record's channel, and neither step calls the
    browser's Picture-in-Picture API or sets up an element or an engine. *)
Theorem X14_pending_request_survives_a_reload
  (B : Browser) (r : Render) (now later : Q) (w : World) (state : Value)
  (timestamp : Q)
  (Hsupported : isPipSupported B = true)
  (Hidle : pipVideo (manager w) = None)
  (Hnopip : pictureInPictureElement B = None)
  (Hrecord : getItem PIP_STATE_KEY (storage w) = Some (Json state))
  (Hvalid : structurally_valid state = true)
  (Hts : get state "timestamp" = VNum timestamp)
  (Hfresh : (now - timestamp <= 1800000)%Q)
  (Hnogesture : truthy (get (get state "options") "fromUserGesture") = false) :
  exists w1 options,
    restorePipState B now w
    = (w1, Some (get state "channel", get state "streamUrl", options))
    /\ pipStatus (manager w1) = "restoring"
    /\ let w2 := enterPiP B r later (get state "channel") (get state "streamUrl")
                          options w1 in
       pipStatus (manager w2) = "pending"
       /\ pipChannel (manager w2) = get state "channel"
       /\ effects w2 = (effects w ++ [setTimeout 1000%N])%list
       /\ match getItem PIP_STATE_KEY (storage w2) with
          | Some (Json record) => optional_option record "pendingPiP" = VBool true
          | Some (Raw _) => False
          | None => True
          end.
Proof.
  destruct (valid_record_parts _ Hvalid) as (Hchannel & Hurl & _ & _).
  unfold restorePipState. rewrite Hsupported, Hidle, Hnopip. cbn [negb orb].
  rewrite (bool_decide_eq_false_2 (is_Some None)) by (intros [x Hx]; discriminate Hx).
  cbn [orb].
  rewrite (loadPipState_returns _ _ _ _ Hrecord Hvalid Hts Hfresh).
  rewrite Hchannel, Hurl. cbn [andb].
  eexists _, _. split; [reflexivity|]. split; [reflexivity|]. cbv zeta.
  assert (or_js (get state "options") (VObj []) <> VNull) as Hnotnull.
  { unfold or_js. destruct (truthy (get state "options")) eqn:E; [|discriminate].
    intros Heq. rewrite Heq in E. discriminate E. }
  assert (truthy (get (or_js (get state "options") (VObj [])) "fromUserGesture") = false)
    as Hflag.
  { unfold or_js. destruct (truthy (get state "options")); [exact Hnogesture|reflexivity]. }
  rewrite (enterPiP_without_gesture _ r _ _ _ _ _ Hsupported Hchannel Hurl Hnotnull
             Hflag).
  cbn [manager storage effects]. repeat split.
  unfold with_flag. apply savePipState_flag_or_nothing; [exact Hchannel|exact Hurl|].
  apply lookup_set_prop.
Qed.

(** The page after the one on which the news channel was requested. *)
Lemma X14_pending_request_survives_a_reload_witness :
  exists w1 options,
    restorePipState supporting_browser 1060000
                    (mkWorld Pip.initial (storage pending_world) [])
    = (w1, Some (VObj [ ("id", VStr news_url); ("name", VStr "News");
                        ("logo", VNull); ("group", VNull);
                        ("channelId", VStr news_url) ],
                 VStr news_url, options))
    /\ pipStatus (manager w1) = "restoring"
    /\ let w2 := enterPiP supporting_browser first_render 1061000
                          (VObj [ ("id", VStr news_url); ("name", VStr "News");
                                  ("logo", VNull); ("group", VNull);
                                  ("channelId", VStr news_url) ])
                          (VStr news_url) options w1 in
       pipStatus (manager w2) = "pending"
       /\ pipChannel (manager w2)
          = VObj [ ("id", VStr news_url); ("name", VStr "News");
                   ("logo", VNull); ("group", VNull);
                   ("channelId", VStr news_url) ]
       /\ effects w2 = [setTimeout 1000%N]
       /\ match getItem PIP_STATE_KEY (storage w2) with
          | Some (Json record) => optional_option record "pendingPiP" = VBool true
          | Some (Raw _) => False
          | None => True
          end.
Proof.
  apply (X14_pending_request_survives_a_reload supporting_browser first_render
           1060000%Q 1061000%Q
           (mkWorld Pip.initial (storage pending_world) [])
           (VObj [ ("channel", VObj [ ("id", VStr news_url); ("name", VStr "News");
                                      ("logo", VNull); ("group", VNull);
                                      ("channelId", VStr news_url) ]);
                   ("streamUrl", VStr news_url);
                   ("options", VObj [ ("pendingPiP", VBool true) ]);
                   ("timestamp", VNum 1000000);
                   ("version", VStr "1.0") ])
           1000000%Q); try reflexivity.
  unfold Qle. simpl. lia.
Defined.

(* ===================================================================== *)
(** * The player page: similar streams, favourites, quality levels *)
(* ===================================================================== *)

Import PlayerPage.

Lemma strict_eq_trans a b c :
  strict_eq a b = true -> strict_eq b c = true -> strict_eq a c = true.
Proof.
  destruct a as [| |x|x|x|x| |x|x], b as [| |y|y|y|y| |y|y]; try discriminate;
    destruct c as [| |z|z|z|z| |z|z]; try discriminate; cbn [strict_eq]; auto.
  - destruct x, y, z; auto.
  - intros H1 H2. apply Qeq_bool_iff in H1, H2. apply Qeq_bool_iff.
    etransitivity; eassumption.
  - intros H1 H2. apply Z.eqb_eq in H1, H2. apply Z.eqb_eq. congruence.
  - intros H1 H2. apply String.eqb_eq in H1, H2. apply String.eqb_eq. congruence.
Qed.

Lemma stream_id_nullish s :
  stream_id s = if nullish s then None else Some (get s "id").
Proof. destruct s; reflexivity. Qed.

(** The callback of the [filter] keeps a stream when no earlier one has its
    id. *)
Lemma findIndex_same_id_first stream post :
  nullish stream = false ->
  forall pre j,
    forallb (fun p => negb (nullish p)) pre = true ->
    exists found,
      findIndex_same_id stream (j + List.length pre) (pre ++ stream :: post) j
      = Some found
      /\ bool_decide (found = Some (j + List.length pre))
         = negb (existsb (fun a => strict_eq a (get stream "id"))
                         (map (fun p => get p "id") pre)).
Proof.
  intros Hs. induction pre as [|p pre IH]; intros j Hpre.
  - cbn [app List.length findIndex_same_id]. rewrite !stream_id_nullish, Hs.
    rewrite Nat.add_0_r, Nat.eqb_refl. cbn [orb]. eexists. split; [reflexivity|].
    cbn [map existsb negb]. apply bool_decide_eq_true_2. reflexivity.
  - cbn [forallb] in Hpre. apply andb_true_iff in Hpre as [Hp Hpre].
    apply negb_true_iff in Hp.
    cbn [app List.length findIndex_same_id]. rewrite !stream_id_nullish, Hs, Hp.
    assert (Nat.eqb j (j + S (List.length pre)) = false) as ->
      by (apply Nat.eqb_neq; lia).
    cbn [orb map existsb].
    destruct (strict_eq (get p "id") (get stream "id")) eqn:E.
    + eexists. split; [reflexivity|]. cbn [orb negb].
      apply bool_decide_eq_false_2. intros [= H]. lia.
    + cbn [orb]. destruct (IH (S j) Hpre) as (found & Hfound & Hdec).
      replace (j + S (List.length pre)) with (S j + List.length pre) by lia.
      exists found. split; assumption.
Qed.

Lemma filter_first_of_id_spec l :
  forallb (fun p => negb (nullish p)) l = true ->
  forall pre,
    forallb (fun p => negb (nullish p)) pre = true ->
    filter_first_of_id (pre ++ l) (List.length pre) l
    = Some (first_of_each_id (map (fun p => get p "id") pre) l).
Proof.
  induction l as [|s rest IH]; intros Hl pre Hpre; [reflexivity|].
  cbn [forallb] in Hl. apply andb_true_iff in Hl as [Hs Hrest].
  apply negb_true_iff in Hs.
  cbn [filter_first_of_id first_of_each_id].
  destruct (findIndex_same_id_first s rest Hs pre 0 Hpre) as (found & Hfound & Hdec).
  cbn [Nat.add] in Hfound, Hdec. rewrite Hfound, Hdec.
  assert (forallb (fun p => negb (nullish p)) (pre ++ [s]) = true) as Hpre'.
  { rewrite forallb_app, Hpre. cbn [forallb]. rewrite Hs. reflexivity. }
  specialize (IH Hrest (pre ++ [s])%list Hpre').
  rewrite <- app_assoc in IH. cbn [app] in IH.
  rewrite length_app in IH. cbn [List.length] in IH.
  replace (List.length pre + 1) with (S (List.length pre)) in IH by lia.
  rewrite IH. rewrite map_app. cbn [map].
  destruct (existsb _ _); reflexivity.
Qed.

Lemma filter_first_of_id_throws self l index :
  self <> [] ->
  existsb nullish l = true ->
  filter_first_of_id self index l = None.
Proof.
  intros Hself. revert index. induction l as [|s rest IH]; intros index Hl;
    [discriminate|].
  cbn [existsb] in Hl. cbn [filter_first_of_id].
  destruct (nullish s) eqn:Hs.
  - destruct self as [|s0 self]; [contradiction|].
    cbn [findIndex_same_id]. rewrite (stream_id_nullish s), Hs.
    destruct (stream_id s0); reflexivity.
  - cbn [orb] in Hl. rewrite (IH (S index) Hl).
    destruct (findIndex_same_id s index self 0); reflexivity.
Qed.

Lemma first_of_each_id_sublist seen l : sublist (first_of_each_id seen l) l.
Proof.
  revert seen. induction l as [|s rest IH]; intros seen; cbn [first_of_each_id].
  - constructor.
  - destruct (existsb _ seen); [apply sublist_cons|apply sublist_skip]; apply IH.
Qed.

Lemma first_of_each_id_unseen seen l x :
  In x (first_of_each_id seen l) ->
  existsb (fun a => strict_eq a (get x "id")) seen = false.
Proof.
  revert seen. induction l as [|s rest IH]; intros seen Hx; [destruct Hx|].
  cbn [first_of_each_id] in Hx.
  assert (In x (first_of_each_id (seen ++ [get s "id"]) rest) ->
          existsb (fun a => strict_eq a (get x "id")) seen = false) as Hrest.
  { intros H. apply IH in H. rewrite existsb_app in H.
    apply orb_false_iff in H as [H _]. exact H. }
  destruct (existsb (fun a => strict_eq a (get s "id")) seen) eqn:E; [auto|].
  destruct Hx as [<-|Hx]; auto.
Qed.

Lemma first_of_each_id_distinct seen l :
  distinct_by_id (first_of_each_id seen l) = true.
Proof.
  revert seen. induction l as [|s rest IH]; intros seen; [reflexivity|].
  cbn [first_of_each_id]. destruct (existsb _ seen); [apply IH|].
  cbn [distinct_by_id]. rewrite IH, andb_true_r.
  apply forallb_forall. intros b Hb. apply first_of_each_id_unseen in Hb.
  rewrite existsb_app in Hb. apply orb_false_iff in Hb as [_ Hb].
  cbn [existsb] in Hb. rewrite orb_false_r in Hb. rewrite Hb. reflexivity.
Qed.

Lemma first_of_each_id_covers seen l s :
  In s l ->
  existsb (fun a => strict_eq a (get s "id")) seen = true
  \/ exists s', In s' (first_of_each_id seen l)
                /\ (s' = s \/ strict_eq (get s' "id") (get s "id") = true).
Proof.
  revert seen. induction l as [|s0 rest IH]; intros seen Hs; [destruct Hs|].
  cbn [first_of_each_id]. destruct Hs as [->|Hs].
  - destruct (existsb _ seen) eqn:E; [left; reflexivity|].
    right. exists s. split; [left; reflexivity|left; reflexivity].
  - destruct (IH (seen ++ [get s0 "id"])%list Hs) as [Hseen|(s' & Hin & Hs')].
    + rewrite existsb_app in Hseen. apply orb_true_iff in Hseen as [Hseen|Hlast];
        [left; exact Hseen|].
      cbn [existsb] in Hlast. rewrite orb_false_r in Hlast.
      destruct (existsb (fun a => strict_eq a (get s0 "id")) seen) eqn:E.
      * left. apply existsb_exists in E as (a & Ha & Hab).
        apply existsb_exists. exists a. split; [exact Ha|].
        eapply strict_eq_trans; eassumption.
      * right. exists s0. split; [left; reflexivity|right; exact Hlast].
    + right. exists s'. split; [|exact Hs'].
      destruct (existsb _ seen); [exact Hin|right; exact Hin].
Qed.

Lemma distinct_by_id_sublist l k :
  sublist k l -> distinct_by_id l = true -> distinct_by_id k = true.
Proof.
  induction 1 as [|x k l Hsub IH|x k l Hsub IH]; cbn [distinct_by_id]; intros Hd.
  - reflexivity.
  - apply andb_true_iff in Hd as [Hx Hd]. rewrite (IH Hd), andb_true_r.
    apply forallb_forall. intros b Hb. rewrite forallb_forall in Hx. apply Hx.
    apply list_elem_of_In. eapply elem_of_sublist; [|exact Hsub].
    apply list_elem_of_In. exact Hb.
  - apply andb_true_iff in Hd as [_ Hd]. auto.
Qed.

(** X15: the list of similar streams.  The expression that builds it throws
    exactly when a collected stream is [null] or [undefined]; otherwise its
    result has at most five streams, no two of them with the same id, taken
    from the collected streams in their order, starting with the first
    collected stream; and when fewer than five remain, every collected
    stream is in the result or has the id of one that is. *)
Theorem X15_similar_streams_are_unique (allStreams : list Value) :
  match uniqueStreams allStreams with
  | None => existsb nullish allStreams = true
  | Some unique =>
      existsb nullish allStreams = false
      /\ List.length unique <= 5
      /\ distinct_by_id unique = true
      /\ sublist unique allStreams
      /\ (forall s rest, allStreams = s :: rest -> exists tail, unique = s :: tail)
      /\ (List.length unique < 5 ->
          forall s, In s allStreams ->
          exists s', In s' unique
                     /\ (s' = s \/ strict_eq (get s' "id") (get s "id") = true))
  end.
Proof.
  unfold uniqueStreams. destruct (existsb nullish allStreams) eqn:Hnull.
  - rewrite filter_first_of_id_throws; [reflexivity| |exact Hnull].
    intros ->. discriminate Hnull.
  - assert (forallb (fun p => negb (nullish p)) allStreams = true) as Hall.
    { apply forallb_forall. intros x Hx. apply negb_true_iff.
      destruct (nullish x) eqn:E; [|reflexivity].
      assert (existsb nullish allStreams = true) as H
        by (apply existsb_exists; exists x; auto).
      congruence. }
    pose proof (filter_first_of_id_spec allStreams Hall [] eq_refl) as Hspec.
    cbn [app List.length map] in Hspec. rewrite Hspec. cbn [option_map].
    set (firsts := first_of_each_id [] allStreams).
    split; [reflexivity|]. split; [rewrite length_take; lia|].
    split; [|split; [|split]].
    + apply (distinct_by_id_sublist firsts); [apply sublist_take|].
      apply first_of_each_id_distinct.
    + etransitivity; [apply sublist_take|apply first_of_each_id_sublist].
    + intros s rest ->. subst firsts. cbn [first_of_each_id existsb take].
      eexists. reflexivity.
    + intros Hshort s Hs.
      assert (take 5 firsts = firsts) as ->.
      { apply take_ge. rewrite length_take in Hshort. lia. }
      destruct (first_of_each_id_covers [] allStreams s Hs) as [H|H];
        [discriminate H|exact H].
Qed.

(** Two playlists that both carry stream "a". *)
Lemma X15_similar_streams_are_unique_witness :
  uniqueStreams found_streams
  = Some [ VObj [ ("id", VStr "a"); ("name", VStr "News") ];
           VObj [ ("id", VStr "b"); ("name", VStr "News HD") ] ]
  /\ distinct_by_id [ VObj [ ("id", VStr "a"); ("name", VStr "News") ];
                      VObj [ ("id", VStr "b"); ("name", VStr "News HD") ] ] = true.
Proof.
  pose proof (X15_similar_streams_are_unique found_streams) as H.
  change (uniqueStreams found_streams)
    with (Some [ VObj [ ("id", VStr "a"); ("name", VStr "News") ];
                 VObj [ ("id", VStr "b"); ("name", VStr "News HD") ] ]) in H.
  destruct H as (_ & _ & Hdistinct & _).
  split; [reflexivity|exact Hdistinct].
Defined.

Lemma without_id_absent id l :
  search_favorites id l = Some false -> without_id id l = Some l.
Proof.
  induction l as [|fav rest IH]; [reflexivity|].
  cbn [search_favorites without_id].
  destruct fav; try discriminate;
    (destruct (strict_eq _ id); [discriminate|]);
    intros H; rewrite (IH H); reflexivity.
Qed.

Lemma without_id_append id l x :
  nullish x = false ->
  strict_eq (get x "id") id = true ->
  search_favorites id l = Some false ->
  without_id id (l ++ [x]) = Some l.
Proof.
  intros Hx Hid. induction l as [|fav rest IH].
  - intros _. cbn [app without_id]. rewrite Hid. destruct x; try discriminate Hx; reflexivity.
  - cbn [app search_favorites without_id].
    destruct fav; cbv iota; try discriminate;
      (match goal with |- context [strict_eq (get ?f "id") id] =>
         destruct (strict_eq (get f "id") id) end; [discriminate|]);
      intros H; rewrite (IH H); reflexivity.
Qed.

Lemma search_favorites_append id l x :
  nullish x = false ->
  strict_eq (get x "id") id = true ->
  search_favorites id l = Some false ->
  search_favorites id (l ++ [x]) = Some true.
Proof.
  intros Hx Hid. induction l as [|fav rest IH].
  - intros _. cbn [app search_favorites]. rewrite Hid.
    destruct x; try discriminate Hx; reflexivity.
  - cbn [app search_favorites].
    destruct fav; cbv iota; try discriminate;
      (match goal with |- context [strict_eq (get ?f "id") id] =>
         destruct (strict_eq (get f "id") id) end; [discriminate|]); exact IH.
Qed.

(** X16: the heart button of the player.  For a channel whose id is a
    primitive and that is not in the list of favourites the store remembers
    (its database holds the list and its cache nothing else for the key), a
    click turns the button on.  When the store takes writes and keeps both
    lists as they are (no function inside, a JSON text of at most 10000
    characters), the store then remembers the list with the channel
    appended, in which the player finds the channel; a second click turns
    the button off and the store remembers the list it had before the
    first.  When the store takes no writes, the button turns on all the same
    and the store remembers what it did. *)
Theorem X16_favourite_toggle_round_trip
  (C : IdbStorage.Codec) (clock clock' : nat -> Q)
  (channel : Value) (favorites : list Value) (st : IdbStorage.Store)
  (Hchannel : truthy channel = true)
  (Hid : strict_eq (get channel "id") (get channel "id") = true)
  (Hstored : remembers C "favorites" (VArr favorites) st)
  (Habsent : search_favorites (get channel "id") favorites = Some false) :
  let on := toggleFavorite C clock channel false st in
  let off := toggleFavorite C clock' channel (fst on) (snd on) in
  fst on = true
  /\ (IdbStorage.writable st = true ->
      kept_as_is C (VArr (favorites ++ [channel])) ->
      kept_as_is C (VArr favorites) ->
      remembers C "favorites" (VArr (favorites ++ [channel])) (snd on)
      /\ search_favorites (get channel "id") (favorites ++ [channel]) = Some true
      /\ fst off = false
      /\ remembers C "favorites" (VArr favorites) (snd off))
  /\ (IdbStorage.writable st = false ->
      remembers C "favorites" (VArr favorites) (snd on)).
Proof.
  assert (nullish channel = false) as Hnn
    by (destruct channel; try discriminate Hchannel; reflexivity).
  destruct (remembers_read C "favorites" _ st (clock 0) (clock 1) false Hstored)
    as (st1 & Hget & Hst1 & Hw1).
  assert (toggleFavorite C clock channel false st
          = (true, snd (IdbStorage.set C (clock 2) "favorites"
                          (VArr (favorites ++ [channel])) false st1))) as Hon.
  { unfold toggleFavorite. rewrite Hchannel, Hget. reflexivity. }
  cbv zeta. rewrite Hon. cbn [fst snd]. split; [reflexivity|]. split.
  - intros Hw Hkept Hkept0.
    destruct Hst1 as (Hnd1 & Hread1 & Hrest1).
    destruct (set_kept C (clock 2) "favorites" (VArr (favorites ++ [channel])) st1)
      as (st2 & Hset & Hst2 & Hw2); auto; [congruence|].
    rewrite Hset. cbn [snd]. split; [exact Hst2|].
    split; [apply search_favorites_append; assumption|].
    destruct (remembers_read C "favorites" _ st2 (clock' 0) (clock' 1) false Hst2)
      as (st3 & Hget3 & Hst3 & Hw3).
    unfold toggleFavorite. rewrite Hchannel, Hget3. cbn [negb or_js truthy].
    rewrite (without_id_append _ _ _ Hnn Hid Habsent). cbn [fst snd].
    split; [reflexivity|].
    destruct Hst3 as (Hnd3 & Hread3 & Hrest3).
    destruct (set_kept C (clock' 2) "favorites" (VArr favorites) st3)
      as (st4 & Hset4 & Hst4 & _); auto; [congruence|].
    rewrite Hset4. exact Hst4.
  - intros Hw. rewrite set_refused by congruence. exact Hst1.
Qed.

(** The news channel, marked and unmarked on a store with no favourites. *)
Lemma X16_favourite_toggle_round_trip_witness :
  let st := idb_holding "favorites" (VArr []) in
  let on := toggleFavorite example_codec example_clock news false st in
  let off := toggleFavorite example_codec example_clock news (fst on) (snd on) in
  fst on = true
  /\ remembers example_codec "favorites" (VArr [news]) (snd on)
  /\ fst off = false
  /\ remembers example_codec "favorites" (VArr []) (snd off)
  /\ fst (IdbStorage.get example_codec 900000 900001 "favorites" false (snd on))
     = VArr [news].
Proof.
  cbv zeta.
  destruct (X16_favourite_toggle_round_trip example_codec example_clock example_clock
              news [] (idb_holding "favorites" (VArr [])) eq_refl eq_refl
              (idb_holding_remembers example_codec "favorites" (VArr [])
                 ltac:(discriminate) eq_refl) eq_refl)
    as (Hon & Hround & _).
  destruct Hround as (Hlist & _ & Hoff & Hback).
  - reflexivity.
  - split; [reflexivity|]. eexists. split; [reflexivity|]. vm_compute. discriminate.
  - split; [reflexivity|]. eexists. split; [reflexivity|]. vm_compute. discriminate.
  - split; [exact Hon|]. split; [exact Hlist|]. split; [exact Hoff|].
    split; [exact Hback|]. apply remembers_get. exact Hlist.
Defined.

Lemma pretty_N_char_digit d : In (pretty_N_char d) decimal_digits.
Proof.
  unfold pretty_N_char, decimal_digits. cbn [In].
  repeat (match goal with |- context [match ?x with _ => _ end] => destruct x end;
          auto 12).
Qed.

Lemma digit_value_char d : (d < 10)%N -> digit_value 10 (pretty_N_char d) = Some d.
Proof.
  intros H.
  assert (d = 0 \/ d = 1 \/ d = 2 \/ d = 3 \/ d = 4 \/ d = 5 \/ d = 6 \/ d = 7
          \/ d = 8 \/ d = 9)%N as Hd by lia.
  repeat (destruct Hd as [->|Hd]; [reflexivity|]). subst d. reflexivity.
Qed.

Lemma pretty_N_go_digits x : forall s, all_digits s -> all_digits (pretty_N_go x s).
Proof.
  induction (N.lt_wf_0 x) as [x _ IH]. intros s Hs.
  destruct (N.eq_dec x 0%N) as [->|Hx]; [rewrite pretty_N_go_0; exact Hs|].
  rewrite pretty_N_go_step by lia. apply IH.
  - apply N.div_lt; lia.
  - unfold all_digits. cbn [list_ascii_of_string]. constructor; [|exact Hs].
    apply pretty_N_char_digit.
Qed.

Lemma read_pretty_N_go x :
  (0 < x)%N ->
  forall s, read_digits 10 None (pretty_N_go x s) = read_digits 10 (Some x) s.
Proof.
  induction (N.lt_wf_0 x) as [x _ IH]. intros Hx s.
  rewrite pretty_N_go_step by exact Hx.
  assert (x `mod` 10 < 10)%N as Hmod by (apply N.mod_lt; lia).
  destruct (N.eq_dec (x `div` 10)%N 0%N) as [Hdiv|Hdiv].
  - rewrite Hdiv, pretty_N_go_0. cbn [read_digits].
    rewrite (digit_value_char _ Hmod). cbn [default]. unfold id.
    f_equal. f_equal. pose proof (N.div_mod x 10). lia.
  - rewrite IH; [|apply N.div_lt; lia|apply N.neq_0_lt_0; exact Hdiv]. cbn [read_digits].
    rewrite (digit_value_char _ Hmod). cbn [default]. unfold id.
    f_equal. f_equal. pose proof (N.div_mod x 10). lia.
Qed.

(** The decimal digits of a natural number read back as that number. *)
Lemma read_pretty (n : N) :
  all_digits (pretty n) /\ read_digits 10 None (pretty n) = Some n.
Proof.
  unfold pretty, pretty_N. case_decide as Hn.
  - subst n. split; [|reflexivity]. repeat constructor.
  - split.
    + apply pretty_N_go_digits. constructor.
    + rewrite read_pretty_N_go by lia. reflexivity.
Qed.

Lemma parseInt_digits s :
  all_digits s ->
  parseInt s = option_map Z.of_N (read_digits 10 None s).
Proof.
  unfold all_digits. intros H. destruct s as [|c1 r]; [reflexivity|].
  cbn [list_ascii_of_string] in H. apply Forall_cons in H as [H1 Hr].
  cbn [decimal_digits In] in H1.
  destruct H1 as [<-|H1].
  - destruct r as [|c2 r]; [reflexivity|].
    cbn [list_ascii_of_string] in Hr. apply Forall_cons in Hr as [H2 _].
    cbn [decimal_digits In] in H2.
    repeat (destruct H2 as [<-|H2]; [reflexivity|]). destruct H2.
  - repeat (destruct H1 as [<-|H1]; [reflexivity|]). destruct H1.
Qed.

Lemma parseInt_pretty (n : nat) : parseInt (pretty n) = Some (Z.of_nat n).
Proof.
  change (pretty n) with (pretty (N.of_nat n)).
  destruct (read_pretty (N.of_nat n)) as [Hd Hr].
  rewrite (parseInt_digits _ Hd), Hr. cbn [option_map]. f_equal. lia.
Qed.

Lemma pretty_not_auto (n : nat) : String.eqb (pretty n) "auto" = false.
Proof.
  change (pretty n) with (pretty (N.of_nat n)).
  destruct (read_pretty (N.of_nat n)) as [Hd _]. unfold all_digits in Hd.
  destruct (pretty (N.of_nat n)) as [|c r]; [reflexivity|].
  cbn [list_ascii_of_string] in Hd. apply Forall_cons in Hd as [H1 _].
  cbn [decimal_digits In] in H1.
  repeat (destruct H1 as [<-|H1]; [reflexivity|]). destruct H1.
Qed.

(** X17: the quality menu.  A manifest with more than one level gives one
    menu entry per level, in the order of the levels, with ids that differ
    from each other; choosing an entry sets the engine to the level at the
    entry's position, and records the entry's id as the current and the
    stored preference; choosing "auto" sets the engine to level -1.  A
    manifest with a single level leaves the menu as it was. *)
Theorem X17_quality_menu_selects_its_level
  (levels : list Level) (before : list Quality) (q : QualityState) :
  (1 < List.length levels ->
   List.length (parsed_qualities levels before) = List.length levels
   /\ forall index entry,
        parsed_qualities levels before !! index = Some entry ->
        (forall engine, currentLevel q = Some engine ->
           handleQualityChange false (quality_id entry) q
           = mkQualityState (Some (Some (Z.of_nat index)))
                            (Some (quality_id entry)) (quality_id entry) false)
        /\ (forall index' entry',
              parsed_qualities levels before !! index' = Some entry' ->
              quality_id entry' = quality_id entry -> index' = index)
        /\ exists level, levels !! index = Some level
                         /\ quality_bitrate entry = bitrate level)
  /\ (forall engine, currentLevel q = Some engine ->
        handleQualityChange false "auto" q
        = mkQualityState (Some (Some (-1)%Z)) (Some "auto") "auto" false)
  /\ (List.length levels <= 1 -> parsed_qualities levels before = before).
Proof.
  split; [|split].
  - intros Hmany. unfold parsed_qualities.
    apply Nat.ltb_lt in Hmany. rewrite Hmany. split; [apply length_imap|].
    assert (forall i e, imap quality_of levels !! i = Some e ->
                        exists level, levels !! i = Some level
                                      /\ e = quality_of i level) as Hentry.
    { intros i e. rewrite list_lookup_imap.
      destruct (levels !! i) as [level|]; [|discriminate].
      intros [= <-]. exists level. auto. }
    intros index entry Hindex.
    destruct (Hentry _ _ Hindex) as (level & Hlevel & ->).
    split; [|split].
    + intros engine Hengine. unfold handleQualityChange. rewrite Hengine.
      cbn [quality_of quality_id]. rewrite pretty_not_auto, parseInt_pretty.
      reflexivity.
    + intros index' entry' Hindex' Hsame.
      destruct (Hentry _ _ Hindex') as (level' & _ & ->).
      cbn [quality_of quality_id] in Hsame. apply (inj pretty) in Hsame. exact Hsame.
    + exists level. split; [exact Hlevel|reflexivity].
  - intros engine Hengine. unfold handleQualityChange. rewrite Hengine. reflexivity.
  - intros Hone. unfold parsed_qualities.
    assert (Nat.ltb 1 (List.length levels) = false) as -> by (apply Nat.ltb_ge; lia).
    reflexivity.
Qed.

(** Three renditions: the second menu entry is "1" and selects level 1. *)
Lemma X17_quality_menu_selects_its_level_witness :
  parsed_qualities three_levels [] !! 1
  = Some (mkQuality "1" "720p 2500 kbps" 2500000)
  /\ handleQualityChange false "1" (mkQualityState (Some (Some (-1)%Z)) None "auto" true)
     = mkQualityState (Some (Some 1%Z)) (Some "1") "1" false.
Proof.
  split; [reflexivity|].
  destruct (X17_quality_menu_selects_its_level three_levels []
              (mkQualityState (Some (Some (-1)%Z)) None "auto" true))
    as (Hmenu & _ & _).
  destruct Hmenu as (_ & Hentry); [cbn; lia|].
  destruct (Hentry 1 (mkQuality "1" "720p 2500 kbps" 2500000) eq_refl)
    as (Hselect & _ & _).
  exact (Hselect (Some (-1)%Z) eq_refl).
Defined.

Lemma handleInvalidStream_ends P id reason s :
  let s' := handleInvalidStream P id reason s in
  loading s' = false /\ error s' <> ""
  /\ retryCount s' = retryCount s /\ channel s' = channel s
  /\ streamUrl s' = streamUrl s /\ streamLoaded s' = streamLoaded s.
Proof.
  cbv zeta. unfold handleInvalidStream.
  destruct (match decodeURIComponent P id with
            | Some decoded => new_URL P decoded
            | None => None
            end) as [u|].
  - destruct (_ || _ || _ || _); [|destruct (_ || _ || _ || _ || _)];
      cbn; repeat split; discriminate.
  - cbn. repeat split. discriminate.
Qed.

(** X18: the engine's error listener of the player page never touches the
    retry counter, the channel, the stream URL or the loaded flag.  Whatever
    the event and the state, it either leaves the session exactly as it was,
    or ends it with the spinner off and a message to show; it asks the
    engine for at most one recovery step; and whenever it reports the stream
    as invalid, the session is ended. *)
Theorem X18_error_listener_ends_or_leaves
  (P : Platform) (E : Hls.Engine) (id : string) (cl : Closure)
  (data : Hls.ErrorData) (s : Session) :
  let h := Player.onHlsError P E id cl data s in
  retryCount (after h) = retryCount s
  /\ channel (after h) = channel s
  /\ streamUrl (after h) = streamUrl s
  /\ streamLoaded (after h) = streamLoaded s
  /\ (after h = s \/ (loading (after h) = false /\ error (after h) <> ""))
  /\ List.length (engine_actions h) <= 1
  /\ (invalid_reasons h <> [] -> loading (after h) = false /\ error (after h) <> "").
Proof.
  cbv zeta.
  assert (forall reason s0 acts,
            List.length acts <= 1 ->
            retryCount s0 = retryCount s -> channel s0 = channel s ->
            streamUrl s0 = streamUrl s -> streamLoaded s0 = streamLoaded s ->
            let h := invalid P id reason s0 acts in
            retryCount (after h) = retryCount s
            /\ channel (after h) = channel s
            /\ streamUrl (after h) = streamUrl s
            /\ streamLoaded (after h) = streamLoaded s
            /\ (after h = s \/ (loading (after h) = false /\ error (after h) <> ""))
            /\ List.length (engine_actions h) <= 1
            /\ (invalid_reasons h <> [] ->
                loading (after h) = false /\ error (after h) <> "")) as Hinvalid.
  { intros reason s0 acts Hacts H1 H2 H3 H4. cbv zeta. unfold invalid.
    cbn [after engine_actions invalid_reasons].
    destruct (handleInvalidStream_ends P id reason s0) as (Hl & He & R1 & R2 & R3 & R4).
    repeat split; try congruence; auto. }
  assert (forall acts,
            List.length acts <= 1 ->
            let h := mkHandled s acts [] in
            retryCount (after h) = retryCount s
            /\ channel (after h) = channel s
            /\ streamUrl (after h) = streamUrl s
            /\ streamLoaded (after h) = streamLoaded s
            /\ (after h = s \/ (loading (after h) = false /\ error (after h) <> ""))
            /\ List.length (engine_actions h) <= 1
            /\ (invalid_reasons h <> [] ->
                loading (after h) = false /\ error (after h) <> "")) as Hleft.
  { intros acts Hacts. cbn. repeat split; auto; congruence. }
  unfold Player.onHlsError.
  destruct (streamLoaded (captured cl) && video_playing cl); [apply Hleft; cbn; lia|].
  destruct (isCorsError data) eqn:Hcors.
  { cbn. repeat split; auto; try congruence. }
  destruct (_ && _ && _); [apply Hleft; cbn; lia|].
  destruct (Hls.fatal data); [|apply Hleft; cbn; lia].
  destruct (String.eqb (Hls.type data) Hls.ErrorTypes.NETWORK_ERROR) eqn:Hnet.
  - destruct (loading (captured cl) && negb (autoplayAttempted cl));
      [apply Hleft; cbn; lia|].
    destruct (String.eqb (Hls.details data) Hls.ErrorDetails.MANIFEST_LOAD_ERROR)
      eqn:Hmanifest.
    + (* a network error loading the manifest counts as a CORS error *)
      unfold isCorsError in Hcors.
      change Hls.ErrorTypes.NETWORK_ERROR with "networkError" in Hnet.
      change Hls.ErrorDetails.MANIFEST_LOAD_ERROR with "manifestLoadError" in Hmanifest.
      rewrite Hnet, Hmanifest, !orb_true_r in Hcors. discriminate Hcors.
    + destruct (Hls.startLoad_throws E); [apply Hinvalid|apply Hleft]; cbn; auto.
  - destruct (String.eqb (Hls.type data) Hls.ErrorTypes.MEDIA_ERROR).
    + destruct (Hls.recoverMediaError_throws E); [apply Hinvalid|apply Hleft];
        cbn; auto.
    + apply Hinvalid; cbn; auto.
Qed.

(** A fatal media error while the stream is still loading, with an engine
    that recovers and with one that does not. *)
Lemma X18_error_listener_ends_or_leaves_witness :
  after (Player.onHlsError example_platform healthy_engine news_url (started_after 0)
           fatal_media_error initial_session) = initial_session
  /\ loading (after (Player.onHlsError example_platform broken_engine news_url
                       (started_after 0) fatal_media_error initial_session)) = false.
Proof.
  split; [reflexivity|].
  destruct (X18_error_listener_ends_or_leaves example_platform broken_engine news_url
              (started_after 0) fatal_media_error initial_session)
    as (_ & _ & _ & _ & _ & _ & Hended).
  apply Hended. discriminate.
Defined.

(* ===================================================================== *)
(** * The favourites helpers and the directory client *)
(* ===================================================================== *)

Lemma without_id_clean id l l' :
  without_id id l = Some l' -> search_favorites id l' = Some false.
Proof.
  revert l'. induction l as [|fav rest IH]; intros l'.
  - intros [= <-]. reflexivity.
  - cbn [without_id]. destruct (without_id id rest) as [r|];
      [|destruct fav; discriminate].
    specialize (IH r eq_refl).
    destruct fav; try discriminate;
      (match goal with |- context [strict_eq (get ?f "id") id] =>
         destruct (strict_eq (get f "id") id) eqn:E end;
       intros [= <-]; [exact IH|]; cbn [search_favorites]; rewrite E; exact IH).
Qed.

(** An array that the database holds as an array was stored as it is: its
    JSON text had at most 10000 characters. *)
Lemma stored_as_array C l text l' :
  IdbStorage.storableValue C (VArr l) text false = VArr l' ->
  l' = l /\ (N.of_nat (String.length text) <= 10000)%N.
Proof.
  unfold IdbStorage.storableValue. cbn [orb negb andb].
  destruct (N.ltb_spec 10000 (N.of_nat (String.length text))) as [Hlarge|Hsmall].
  - cbn [andb]. destruct (IdbStorage.lz_loaded C); [|discriminate].
    destruct (IdbStorage.compressToUTF16 C text); discriminate.
  - cbn [andb]. intros [= <-]. auto.
Qed.

(** After a successful [set] of a list that the database then holds as an
    array, the store remembers the list. *)
Lemma set_array_remembers C now l st st' :
  NoDup (map fst (IdbStorage.cache st)) ->
  IdbStorage.readable st = true ->
  IdbStorage.set C now "favorites" (VArr l) false st = (true, st') ->
  (exists l', IdbStorage.db st' !! "favorites" = Some (VArr l')) ->
  remembers C "favorites" (VArr l) st'.
Proof.
  intros Hnd Hread Hset [l' Hl'].
  destruct (set_succeeds _ _ _ _ _ _ _ Hset) as (j & Hj & Hdb & _ & _).
  rewrite Hdb in Hl'. injection Hl' as Hl'.
  apply stored_as_array in Hl' as [_ Hsmall].
  eapply set_remembers; try eassumption. reflexivity.
Qed.

Lemma isFavorite_remembered C clock id l st :
  truthy id = true ->
  remembers C "favorites" (VArr l) st ->
  fst (Favorites.isFavorite C clock id st) = default false (search_favorites id l).
Proof.
  intros Hid Hst. unfold Favorites.isFavorite. rewrite Hid. cbn [negb].
  destruct (remembers_read C "favorites" _ st (clock 0) (clock 1) false Hst)
    as (st1 & -> & _). reflexivity.
Qed.

(** X19: the favourites helpers agree with each other, as long as the
    database serves reads and holds the list that was written as an array
    (a list whose JSON text has more than 10000 characters is stored as
    text, and read back from it).  Whenever [toggleFavorite] then returns a
    boolean for a channel whose id is a primitive, a following [isFavorite]
    for that id returns the same boolean; and whenever [removeFavorite]
    returns [true], [isFavorite] for the removed id returns [false]. *)
Theorem X19_favourite_helpers_agree
  (C : IdbStorage.Codec) (clock clock' : nat -> Q) (iso : string)
  (channel channelId : Value) (st st' : IdbStorage.Store)
  (Hcache : NoDup (map fst (IdbStorage.cache st)))
  (Hreadable : IdbStorage.readable st = true)
  (Hplain : exists l, IdbStorage.db st' !! "favorites" = Some (VArr l)) :
  (forall fuel tick b,
     strict_eq (get channel "id") (get channel "id") = true ->
     Favorites.toggleFavorite fuel C clock tick iso channel st = Some (VBool b, st') ->
     fst (Favorites.isFavorite C clock' (get channel "id") st') = b)
  /\ (Favorites.removeFavorite C clock channelId st = (true, st') ->
      fst (Favorites.isFavorite C clock' channelId st') = false).
Proof.
  split.
  - intros fuel tick b Hprim. revert tick st Hcache Hreadable.
    induction fuel as [|fuel IH]; intros tick st Hcache Hreadable; [discriminate|].
    cbn [Favorites.toggleFavorite].
    destruct (truthy channel) eqn:Hchannel; [|discriminate].
    destruct (truthy (get channel "id")) eqn:Hid; [|discriminate].
    cbn [negb orb].
    pose proof (get_store C (clock tick) (clock (tick + 1)) "favorites" false st)
      as (_ & Hr1 & _ & Hnd1).
    destruct (IdbStorage.get C (clock tick) (clock (tick + 1)) "favorites" false st)
      as [stored st1]. cbn [snd] in Hr1, Hnd1.
    assert (forall tick',
              Favorites.toggleFavorite fuel C clock tick' iso channel
                (snd (IdbStorage.set C (clock (tick + 2)) "favorites" (VArr []) false st1))
              = Some (VBool b, st') ->
              fst (Favorites.isFavorite C clock' (get channel "id") st') = b) as Hagain.
    { intros tick'.
      pose proof (set_store C (clock (tick + 2)) "favorites" (VArr []) false st1)
        as (Hr2 & _ & Hnd2).
      apply IH; [auto|congruence]. }
    destruct (or_js stored (VArr [])) as [| |x|x|x|x| |favorites|x]; try apply Hagain.
    destruct (search_favorites (get channel "id") favorites) as [[|]|] eqn:Hsearch;
      [| |discriminate].
    + destruct (without_id (get channel "id") favorites) as [l'|] eqn:Hl;
        [|discriminate].
      destruct (IdbStorage.set C (clock (tick + 2)) "favorites" (VArr l') false st1)
        as [[|] st2] eqn:Hset; [|discriminate].
      intros [= <- <-].
      rewrite (isFavorite_remembered C clock' _ l'); [|exact Hid|].
      * rewrite (without_id_clean _ _ _ Hl). reflexivity.
      * eapply set_array_remembers; [| |exact Hset|exact Hplain]; [auto|congruence].
    + match goal with |- context [IdbStorage.set C _ "favorites" (VArr ?l) false st1] =>
        destruct (IdbStorage.set C (clock (tick + 2)) "favorites" (VArr l) false st1)
          as [[|] st2] eqn:Hset; [|discriminate];
        intros [= <- <-];
        rewrite (isFavorite_remembered C clock' _ l); [|exact Hid|] end.
      * rewrite search_favorites_append; [reflexivity|reflexivity| |exact Hsearch].
        cbn [get]. rewrite lookup_set_prop_ne by discriminate.
        destruct channel; try discriminate Hid; exact Hprim.
      * eapply set_array_remembers; [| |exact Hset|exact Hplain]; [auto|congruence].
  - unfold Favorites.removeFavorite.
    destruct (truthy channelId) eqn:Hid; [|discriminate]. cbn [negb].
    pose proof (get_store C (clock 0) (clock 1) "favorites" false st)
      as (_ & Hr1 & _ & Hnd1).
    destruct (IdbStorage.get C (clock 0) (clock 1) "favorites" false st)
      as [stored st1]. cbn [snd] in Hr1, Hnd1.
    destruct (or_js stored (VArr [])) as [| |x|x|x|x| |favorites|x]; try discriminate.
    destruct (without_id channelId favorites) as [l'|] eqn:Hl; [|discriminate].
    destruct (Nat.eqb _ _); [discriminate|].
    intros Hset.
    rewrite (isFavorite_remembered C clock' _ l'); [|exact Hid|].
    + rewrite (without_id_clean _ _ _ Hl). reflexivity.
    + eapply set_array_remembers; [| |exact Hset|exact Hplain]; [auto|congruence].
Qed.

(** Marking the news channel on an empty store, and on a store that has to
    be reset first. *)
Lemma X19_favourite_helpers_agree_witness :
  (exists st', Favorites.toggleFavorite 1 example_codec example_clock 0
                 "2024-05-01T10:00:00.000Z" news empty_idb
               = Some (VBool true, st')
               /\ fst (Favorites.isFavorite example_codec example_clock
                         (get news "id") st') = true)
  /\ (exists st', Favorites.toggleFavorite 2 example_codec example_clock 0
                    "2024-05-01T10:00:00.000Z" news broken_favorites
                  = Some (VBool true, st')
                  /\ fst (Favorites.isFavorite example_codec example_clock
                            (get news "id") st') = true).
Proof.
  split.
  - destruct (Favorites.toggleFavorite 1 example_codec example_clock 0
                "2024-05-01T10:00:00.000Z" news empty_idb) as [[v st']|] eqn:Ht;
      [|vm_compute in Ht; discriminate Ht].
    assert (v = VBool true
            /\ exists l, IdbStorage.db st' !! "favorites" = Some (VArr l))
      as [-> Hplain].
    { vm_compute in Ht. injection Ht as <- <-. split; [reflexivity|].
      eexists. vm_compute. reflexivity. }
    exists st'. split; [reflexivity|].
    exact (proj1 (X19_favourite_helpers_agree example_codec example_clock
                    example_clock "2024-05-01T10:00:00.000Z" news VNull empty_idb st'
                    NoDup_nil_2 eq_refl Hplain) 1 0 true eq_refl Ht).
  - destruct (Favorites.toggleFavorite 2 example_codec example_clock 0
                "2024-05-01T10:00:00.000Z" news broken_favorites)
      as [[v st']|] eqn:Ht; [|vm_compute in Ht; discriminate Ht].
    assert (v = VBool true
            /\ exists l, IdbStorage.db st' !! "favorites" = Some (VArr l))
      as [-> Hplain].
    { vm_compute in Ht. injection Ht as <- <-. split; [reflexivity|].
      eexists. vm_compute. reflexivity. }
    exists st'. split; [reflexivity|].
    exact (proj1 (X19_favourite_helpers_agree example_codec example_clock
                    example_clock "2024-05-01T10:00:00.000Z" news VNull
                    broken_favorites st' NoDup_nil_2 eq_refl Hplain) 2 0 true
                 eq_refl Ht).
Defined.

(** X20: [toggleFavorite] resets a stored value that is not an array and
    starts over.  For a store that remembers such a value: when it takes
    writes and keeps the empty list and the list of the one channel as they
    are, the second round adds the channel to the empty list and returns
    [true], and the store remembers that list; when it takes no writes, the
    reset is refused, every round finds the same value again, and the
    function never returns, however many rounds it is given. *)
Theorem X20_toggle_on_a_broken_slot
  (C : IdbStorage.Codec) (clock : nat -> Q) (iso : string) (channel stored : Value)
  (st : IdbStorage.Store)
  (Hchannel : truthy channel = true)
  (Hid : truthy (get channel "id") = true)
  (Hstored : remembers C "favorites" stored st)
  (Htruthy : truthy stored = true)
  (Hnoarray : instanceof_Array stored = false) :
  let favoriteChannel :=
    VObj (set_prop "addedToFavoritesAt" (VStr iso) (spread channel)) in
  (IdbStorage.writable st = false ->
   forall fuel tick, Favorites.toggleFavorite fuel C clock tick iso channel st = None)
  /\ (IdbStorage.writable st = true ->
      kept_as_is C (VArr []) ->
      kept_as_is C (VArr [favoriteChannel]) ->
      forall tick,
      exists st',
        Favorites.toggleFavorite 2 C clock tick iso channel st = Some (VBool true, st')
        /\ remembers C "favorites" (VArr [favoriteChannel]) st').
Proof.
  cbv zeta.
  assert (or_js stored (VArr []) = stored) as Hread
    by (unfold or_js; rewrite Htruthy; reflexivity).
  split.
  - intros Hrefused fuel. revert st Hstored Hrefused.
    induction fuel as [|fuel IH]; intros st Hstored Hrefused tick; [reflexivity|].
    cbn [Favorites.toggleFavorite]. rewrite Hchannel, Hid. cbn [negb orb].
    destruct (remembers_read C "favorites" _ st (clock tick) (clock (tick + 1)) false
                Hstored) as (st1 & -> & Hst1 & Hw1).
    rewrite Hread, set_refused by congruence. cbn [snd].
    destruct stored; try discriminate Hnoarray; apply IH; congruence.
  - intros Hw Hempty Hone tick.
    cbn [Favorites.toggleFavorite]. rewrite Hchannel, Hid. cbn [negb orb].
    destruct (remembers_read C "favorites" _ st (clock tick) (clock (tick + 1)) false
                Hstored) as (st1 & -> & Hst1 & Hw1).
    rewrite Hread.
    destruct Hst1 as (Hnd1 & Hread1 & _).
    destruct (set_kept C (clock (tick + 2)) "favorites" (VArr []) st1)
      as (st2 & Hset2 & Hst2 & Hw2); auto; [congruence|].
    destruct (remembers_read C "favorites" _ st2 (clock (tick + 3))
                (clock (tick + 3 + 1)) false Hst2) as (st3 & Hget3 & Hst3 & Hw3).
    destruct Hst3 as (Hnd3 & Hread3 & _).
    destruct (set_kept C (clock (tick + 3 + 2)) "favorites"
                (VArr [VObj (set_prop "addedToFavoritesAt" (VStr iso) (spread channel))])
                st3)
      as (st4 & Hset4 & Hst4 & _); auto; [congruence|].
    exists st4. split; [|exact Hst4].
    destruct stored; try discriminate Hnoarray;
      rewrite Hset2; cbn [snd]; rewrite Hget3; cbn [or_js truthy search_favorites app];
      rewrite Hset4; reflexivity.
Qed.

(** The news channel on the store whose favourites slot holds an object,
    when the store takes no writes and when it does. *)
Lemma X20_toggle_on_a_broken_slot_witness :
  (forall fuel tick,
     Favorites.toggleFavorite fuel example_codec example_clock tick
       "2024-05-01T10:00:00.000Z" news
       (idb_refusing "favorites" (VObj [ ("0", news) ]))
     = None)
  /\ (exists st',
        Favorites.toggleFavorite 2 example_codec example_clock 0
          "2024-05-01T10:00:00.000Z" news broken_favorites
        = Some (VBool true, st')
        /\ remembers example_codec "favorites"
             (VArr [VObj [ ("id", VStr news_url); ("name", VStr "News");
                           ("addedToFavoritesAt", VStr "2024-05-01T10:00:00.000Z") ]])
             st').
Proof.
  split.
  - apply (proj1 (X20_toggle_on_a_broken_slot example_codec example_clock
                    "2024-05-01T10:00:00.000Z" news (VObj [ ("0", news) ])
                    (idb_refusing "favorites" (VObj [ ("0", news) ]))
                    eq_refl eq_refl
                    (idb_refusing_remembers example_codec "favorites"
                       (VObj [ ("0", news) ]) ltac:(discriminate) eq_refl)
                    eq_refl eq_refl)).
    reflexivity.
  - apply (proj2 (X20_toggle_on_a_broken_slot example_codec example_clock
                    "2024-05-01T10:00:00.000Z" news (VObj [ ("0", news) ])
                    broken_favorites eq_refl eq_refl
                    (idb_holding_remembers example_codec "favorites"
                       (VObj [ ("0", news) ]) ltac:(discriminate) eq_refl)
                    eq_refl eq_refl)).
    + reflexivity.
    + split; [reflexivity|]. eexists. split; [reflexivity|]. vm_compute. discriminate.
    + split; [reflexivity|]. eexists. split; [reflexivity|]. vm_compute. discriminate.
Defined.



Lemma filter_in_head key wanted l first more :
  ApiClient.filter_in key wanted l = Some (first :: more) ->
  nullish first = false.
Proof.
  revert first more. induction l as [|y rest IH]; intros first more; [discriminate|].
  cbn [ApiClient.filter_in].
  destruct (ApiClient.filter_in key wanted rest) as [r|];
    [|destruct y; discriminate].
  destruct y; try discriminate;
    (match goal with |- context [strict_eq (get ?f key) wanted] =>
       destruct (strict_eq (get f key) wanted) end;
     [intros [= <- <-]; reflexivity|intros [= ->]; eapply IH; reflexivity]).
Qed.


(* ===================================================================== *)
(** * The watch-history page *)
(* ===================================================================== *)

Lemma filter_same_length {A} (f : A -> bool) (l : list A) :
  List.length (List.filter f l) = List.length l -> List.filter f l = l.
Proof.
  induction l as [|x rest IH]; [reflexivity|].
  cbn [List.filter]. destruct (f x); cbn [List.length]; intros H.
  - f_equal. apply IH. lia.
  - pose proof (filter_length_le f rest). lia.
Qed.

Lemma filter_twice {A} (f : A -> bool) (l : list A) :
  List.filter f (List.filter f l) = List.filter f l.
Proof.
  induction l as [|x rest IH]; [reflexivity|].
  cbn [List.filter]. destruct (f x) eqn:E; [|exact IH].
  cbn [List.filter]. rewrite E, IH. reflexivity.
Qed.

Lemma valid_filtered l : forallb WatchHistory.valid_item
                                  (List.filter WatchHistory.valid_item l) = true.
Proof.
  apply forallb_forall. intros x Hx. apply filter_In in Hx as [_ Hx]. exact Hx.
Qed.

(** What the page shows of a list the store remembers, and the store it
    leaves: the one the read left, or the one after the write of the valid
    entries. *)
Lemma loadHistory_remembered C clock shown l st :
  remembers C "watchHistory" (VArr l) st ->
  exists st1,
    remembers C "watchHistory" (VArr l) st1
    /\ IdbStorage.writable st1 = IdbStorage.writable st
    /\ WatchHistory.loadHistory C clock shown st
       = (List.filter WatchHistory.valid_item l,
          if negb (Nat.eqb (List.length (List.filter WatchHistory.valid_item l))
                           (List.length l))
          then snd (IdbStorage.set C (clock 2) "watchHistory"
                      (VArr (List.filter WatchHistory.valid_item l)) false st1)
          else st1).
Proof.
  intros Hst.
  destruct (remembers_read C "watchHistory" _ st (clock 0) (clock 1) false Hst)
    as (st1 & Hget & Hst1 & Hw1).
  exists st1. split; [exact Hst1|]. split; [exact Hw1|].
  unfold WatchHistory.loadHistory. rewrite Hget. reflexivity.
Qed.

(** X22: the history page after the player.  Once the player has recorded
    a channel opened at a time that is not 0, in a store that serves reads
    and keeps the written list as it is (no function inside, a JSON text of
    at most 10000 characters), the page's [loadHistory] shows the valid
    entries of that list, the new entry first: every entry it shows has a
    channel with an id and a timestamp, and there are at most 100 of them.
    When the store also keeps the list shown as it is, loading again shows
    the same list, and a store that takes writes remembers exactly the list
    shown. *)
Theorem X22_history_page_shows_the_latest_entry
  (C : IdbStorage.Codec) (clock clock' clock'' : nat -> Q)
  (streamUrl channelName channelId channelGroup channelLogo : Value)
  (st : IdbStorage.Store) (u : PlayerPage.HistoryUpdate) (shown : list Value)
  (Hupdated : PlayerPage.updateWatchHistory C clock streamUrl channelName channelId
                channelGroup channelLogo st = Some u)
  (Hsaved : PlayerPage.history_saved u = true)
  (Hkept : kept_as_is C (VArr (PlayerPage.updatedHistory u)))
  (Hcache : NoDup (map fst (IdbStorage.cache st)))
  (Hreadable : IdbStorage.readable st = true)
  (Hnow : truthy (VNum (clock 4)) = true) :
  let page := WatchHistory.loadHistory C clock' shown (PlayerPage.store_after u) in
  fst page = List.filter WatchHistory.valid_item (PlayerPage.updatedHistory u)
  /\ (exists rest,
        fst page = history_entry (clock 4) streamUrl channelName channelId channelGroup
                                 channelLogo :: rest)
  /\ forallb WatchHistory.valid_item (fst page) = true
  /\ List.length (fst page) <= 100
  /\ (kept_as_is C (VArr (fst page)) ->
      (forall shown',
         fst (WatchHistory.loadHistory C clock'' shown' (snd page)) = fst page)
      /\ (IdbStorage.writable st = true ->
          remembers C "watchHistory" (VArr (fst page)) (snd page))).
Proof.
  cbv zeta.
  destruct (updateWatchHistory_steps _ _ _ _ _ _ _ _ _ Hupdated)
    as (st2 & Hurl & _ & Hlist & Hset & _ & Hr2 & Hw2 & Hnd2).
  rewrite Hsaved in Hset.
  assert (remembers C "watchHistory" (VArr (PlayerPage.updatedHistory u))
                    (PlayerPage.store_after u)) as Hstored.
  { destruct Hkept as (_ & j & Hj & Hsmall).
    eapply set_remembers; try eassumption; [reflexivity|auto|congruence]. }
  assert (IdbStorage.writable (PlayerPage.store_after u) = IdbStorage.writable st)
    as Hw3.
  { pose proof (set_store C (clock 5) "watchHistory"
                  (VArr (PlayerPage.updatedHistory u)) false st2) as (_ & Hw & _).
    rewrite Hset in Hw. cbn [snd] in Hw. congruence. }
  destruct (loadHistory_remembered C clock' shown _ _ Hstored)
    as (st4 & Hst4 & Hw4 & ->). cbn [fst snd].
  set (entry := history_entry (clock 4) streamUrl channelName channelId channelGroup
                              channelLogo) in *.
  assert (WatchHistory.valid_item entry = true) as Hvalid.
  { subst entry. unfold WatchHistory.valid_item, history_entry.
    cbn [get lookup_prop String.eqb Ascii.eqb Bool.eqb truthy andb].
    rewrite Hurl. exact Hnow. }
  set (written := PlayerPage.updatedHistory u) in *.
  set (valid := List.filter WatchHistory.valid_item written).
  split; [reflexivity|]. split; [|split; [apply valid_filtered|split]].
  - subst valid. rewrite Hlist. cbn [take List.filter]. rewrite Hvalid.
    eexists. reflexivity.
  - subst valid. etransitivity; [apply filter_length_le|].
    rewrite Hlist. rewrite length_take. lia.
  - intros Hshown.
    assert (remembers C "watchHistory" (VArr valid)
              (if negb (Nat.eqb (List.length valid) (List.length written))
               then snd (IdbStorage.set C (clock' 2) "watchHistory" (VArr valid) false st4)
               else st4)
            \/ remembers C "watchHistory" (VArr written)
                 (if negb (Nat.eqb (List.length valid) (List.length written))
                  then snd (IdbStorage.set C (clock' 2) "watchHistory" (VArr valid)
                              false st4)
                  else st4)
               /\ IdbStorage.writable st = false) as Hafter.
    { destruct (Nat.eqb (List.length valid) (List.length written)) eqn:Hlen;
        cbn [negb].
      - left. apply Nat.eqb_eq, filter_same_length in Hlen. subst valid.
        rewrite Hlen. exact Hst4.
      - destruct (IdbStorage.writable st4) eqn:Hwritable.
        + left. destruct Hst4 as (Hnd4 & Hread4 & _).
          destruct (set_kept C (clock' 2) "watchHistory" (VArr valid) st4)
            as (st5 & -> & Hst5 & _); auto.
        + right. rewrite set_refused by exact Hwritable.
          split; [exact Hst4|congruence]. }
    split.
    + intros shown'. destruct Hafter as [Hafter|[Hafter _]];
        destruct (loadHistory_remembered C clock'' shown' _ _ Hafter)
          as (st6 & _ & _ & ->); cbn [fst]; [|reflexivity].
      apply filter_twice.
    + intros Hw. destruct Hafter as [Hafter|[_ Hrefused]]; [exact Hafter|congruence].
Qed.

(** The news channel opened again over a history of one entry. *)
Lemma X22_history_page_shows_the_latest_entry_witness :
  exists u,
    PlayerPage.updateWatchHistory example_codec example_clock (VStr news_url)
      (VStr "News") VNull (VStr "Uncategorized") VNull single_history = Some u
    /\ let page := WatchHistory.loadHistory example_codec example_clock []
                     (PlayerPage.store_after u) in
       fst page = [ history_entry (example_clock 4) (VStr news_url) (VStr "News") VNull
                                  (VStr "Uncategorized") VNull ]
       /\ forallb WatchHistory.valid_item (fst page) = true
       /\ List.length (fst page) <= 100.
Proof.
  destruct (PlayerPage.updateWatchHistory example_codec example_clock (VStr news_url)
              (VStr "News") VNull (VStr "Uncategorized") VNull single_history)
    as [u|] eqn:Hupdated; [|vm_compute in Hupdated; discriminate Hupdated].
  assert (PlayerPage.history_saved u = true
          /\ PlayerPage.updatedHistory u
             = [ history_entry (example_clock 4) (VStr news_url) (VStr "News") VNull
                               (VStr "Uncategorized") VNull ]) as [Hsaved Hlist].
  { vm_compute in Hupdated. injection Hupdated as <-. split; reflexivity. }
  assert (kept_as_is example_codec (VArr (PlayerPage.updatedHistory u))) as Hkept.
  { rewrite Hlist. split; [reflexivity|]. eexists. split; [reflexivity|].
    vm_compute. discriminate. }
  exists u. split; [reflexivity|].
  destruct (X22_history_page_shows_the_latest_entry example_codec example_clock
              example_clock example_clock (VStr news_url) (VStr "News") VNull
              (VStr "Uncategorized") VNull single_history u [] Hupdated Hsaved Hkept
              NoDup_nil_2 eq_refl eq_refl)
    as (Hpage & _ & Hvalid & Hlength & _).
  cbv zeta. split; [|split; assumption].
  rewrite Hpage, Hlist. reflexivity.
Defined.
